(** * Form validation engine ([Form_validation/script.js])

    A shallow embedding of the [FormValidator] class: the JavaScript
    primitives its validators rely on (strings of UTF-16 code units,
    regular expressions, [parseInt], [parseFloat], [Date]), the field
    validators, the registry and error maps, and the orchestration code
    ([validateField], [validateForm], [handleSubmit]).  *)

From Stdlib Require Import String Ascii.
From Stdlib Require Import ZArith NArith List Bool Lia.
From Stdlib Require Import SpecFloat.
Import ListNotations.
Local Open Scope Z_scope.

(* ================================================================== *)
(** * Part I: definitions                                              *)
(* ================================================================== *)

(** ** JavaScript strings *)

(** A JavaScript string is a sequence of 16-bit code units. *)
Definition jsstring := list N.

(** Code units of a literal of the script.  The literals are written
    here as they are in the source file, in UTF-8; every character of
    the script's messages is in the basic plane, so that one character
    is one code unit. *)
Fixpoint utf8_units (bytes : list N) : jsstring :=
  match bytes with
  | [] => []
  | b :: r =>
      if (b <? 128)%N then b :: utf8_units r
      else if (b <? 224)%N then
        match r with
        | b2 :: r' => ((b - 192) * 64 + (b2 - 128))%N :: utf8_units r'
        | [] => [b]
        end
      else
        match r with
        | b2 :: b3 :: r' =>
            ((b - 224) * 4096 + (b2 - 128) * 64 + (b3 - 128))%N :: utf8_units r'
        | _ => [b]
        end
  end.

Definition js (s : string) : jsstring :=
  utf8_units (map N_of_ascii (list_ascii_of_string s)).

Fixpoint jsstring_eqb (a b : jsstring) : bool :=
  match a, b with
  | [], [] => true
  | x :: a', y :: b' => N.eqb x y && jsstring_eqb a' b'
  | _, _ => false
  end.

Definition in_range (lo hi c : N) : bool := (N.leb lo c && N.leb c hi)%bool.

Definition one_of (l : list N) (c : N) : bool := existsb (N.eqb c) l.

(** [WhiteSpace] and [LineTerminator] code units: the set removed by
    [String.prototype.trim] and matched by the class escape [\s]. *)
Definition isWhiteSpace (c : N) : bool :=
  (one_of [9; 10; 11; 12; 13; 32; 160; 5760; 8232; 8233; 8239; 8287; 12288; 65279]%N c
   || in_range 8192 8202 c)%bool.

Definition isDigit (c : N) : bool := in_range 48 57 c.
Definition isLower (c : N) : bool := in_range 97 122 c.
Definition isUpper (c : N) : bool := in_range 65 90 c.

(** Word characters of [\w] and [\b]. *)
Definition isWordChar (c : N) : bool :=
  (isLower c || isUpper c || isDigit c || N.eqb c 95)%bool.

Fixpoint trimStart (s : jsstring) : jsstring :=
  match s with
  | c :: s' => if isWhiteSpace c then trimStart s' else s
  | [] => []
  end.

Definition trimEnd (s : jsstring) : jsstring := rev (trimStart (rev s)).

(** [value.trim()] *)
Definition trim (s : jsstring) : jsstring := trimEnd (trimStart s).

(** A string is truthy when it is not empty. *)
Definition truthy (s : jsstring) : bool :=
  match s with [] => false | _ => true end.

(** [s.split(sep)] for a separator of one code unit: the pieces between
    the occurrences of [sep]; never an empty array. *)
Fixpoint split_unit (sep : N) (s : jsstring) : list jsstring :=
  match s with
  | [] => [[]]
  | c :: s' =>
      if N.eqb c sep then [] :: split_unit sep s'
      else match split_unit sep s' with
           | piece :: rest => (c :: piece) :: rest
           | [] => [[c]]
           end
  end.

(** [s.split('')]: one string per code unit. *)
Definition split_chars (s : jsstring) : list jsstring := map (fun c => [c]) s.

(** [s.substring(0, n)] *)
Definition substring0 (n : nat) (s : jsstring) : jsstring := firstn n s.

(** ** Regular expressions *)

(** The fragment of the regular-expression syntax used by the script:
    classes, sequence, alternative, greedy repetition, and the assertions
    [^], [$] and [\b].  There are no captures or back-references, so
    [test] only depends on the language of the pattern. *)
Inductive regex : Type :=
| Class (p : N -> bool)
| Empty
| Seq (r1 r2 : regex)
| Alt (r1 r2 : regex)
| Star (r : regex)
| Bol
| Eol
| WordBoundary.

Definition Plus (r : regex) : regex := Seq r (Star r).
Definition Opt (r : regex) : regex := Alt r Empty.
Definition Lit (c : N) : regex := Class (N.eqb c).

Fixpoint Exactly (n : nat) (r : regex) : regex :=
  match n with
  | O => Empty
  | S n' => Seq r (Exactly n' r)
  end.

Fixpoint UpTo (n : nat) (r : regex) : regex :=
  match n with
  | O => Empty
  | S n' => Opt (Seq r (UpTo n' r))
  end.

(** [r{lo,hi}] *)
Definition Between (lo hi : nat) (r : regex) : regex :=
  Seq (Exactly lo r) (UpTo (hi - lo) r).

Fixpoint Word (l : list N) : regex :=
  match l with
  | [] => Empty
  | c :: l' => Seq (Lit c) (Word l')
  end.

Definition is_word (o : option N) : bool :=
  match o with Some c => isWordChar c | None => false end.

(** Backtracking matcher in continuation-passing style.  [prev] is the
    code unit before the current position ([None] at the start of the
    input), [s] the rest of the input, and [k] what remains to be
    matched.  An iteration of [Star] that consumes nothing is rejected,
    as in the language specification. *)
Fixpoint rmatch (r : regex) (prev : option N) (s : jsstring)
         (k : option N -> jsstring -> bool) {struct r} : bool :=
  match r with
  | Class p =>
      match s with
      | c :: s' => p c && k (Some c) s'
      | [] => false
      end
  | Empty => k prev s
  | Seq r1 r2 => rmatch r1 prev s (fun p' s' => rmatch r2 p' s' k)
  | Alt r1 r2 => rmatch r1 prev s k || rmatch r2 prev s k
  | Star r1 =>
      (fix star (fuel : nat) (prev : option N) (s : jsstring) {struct fuel} : bool :=
         match fuel with
         | O => k prev s
         | S fuel' =>
             rmatch r1 prev s
                    (fun p' s' => Nat.ltb (length s') (length s) && star fuel' p' s')
             || k prev s
         end) (length s) prev s
  | Bol => match prev with None => k prev s | Some _ => false end
  | Eol => match s with [] => k prev s | _ :: _ => false end
  | WordBoundary => xorb (is_word prev) (is_word (hd_error s)) && k prev s
  end.

Fixpoint rsearch (r : regex) (prev : option N) (s : jsstring) : bool :=
  rmatch r prev s (fun _ _ => true)
  || match s with
     | c :: s' => rsearch r (Some c) s'
     | [] => false
     end.

(** [pattern.test(s)] for a pattern without flags. *)
Definition test (r : regex) (s : jsstring) : bool := rsearch r None s.

(** [s.replace(/[class]/g, '')] *)
Definition remove_all (p : N -> bool) (s : jsstring) : jsstring :=
  filter (fun c => negb (p c)) s.

(** ** Numbers read from strings *)

(** [Number(ch)] for a string [ch] of one code unit that is a decimal
    digit. *)
Definition Number_of_digit (ch : jsstring) : Z :=
  match ch with
  | [c] => Z.of_N c - 48
  | _ => 0
  end.

Definition digit_val (c : N) : Z := Z.of_N c - 48.

Fixpoint take_digits (s : jsstring) : jsstring * jsstring :=
  match s with
  | c :: s' =>
      if isDigit c then let (d, r) := take_digits s' in (c :: d, r)
      else ([], s)
  | [] => ([], [])
  end.

(** Value of a run of decimal digits, most significant first. *)
Definition digits_value (d : jsstring) : Z :=
  fold_left (fun acc c => 10 * acc + digit_val c) d 0.

(** Numbers that may be [NaN]: [None] is [NaN].  Relational operators
    are false as soon as one operand is [NaN]. *)
Definition num_lt (a b : option Z) : bool :=
  match a, b with
  | Some x, Some y => x <? y
  | _, _ => false
  end.

Definition num_gt (a b : option Z) : bool := num_lt b a.

Definition hex_val (c : N) : option Z :=
  if isDigit c then Some (Z.of_N c - 48)
  else if in_range 97 102 c then Some (Z.of_N c - 87)
  else if in_range 65 70 c then Some (Z.of_N c - 55)
  else None.

Fixpoint hex_digits (s : jsstring) (acc : option Z) : option Z :=
  match s with
  | c :: s' =>
      match hex_val c with
      | Some v => hex_digits s' (Some (16 * match acc with Some a => a | None => 0 end + v))
      | None => acc
      end
  | [] => acc
  end.

Definition strip_sign (s : jsstring) : bool * jsstring :=
  match s with
  | c :: r =>
      if N.eqb c 45 then (true, r)
      else if N.eqb c 43 then (false, r)
      else (false, s)
  | [] => (false, [])
  end.

Definition has_hex_prefix (s : jsstring) : bool :=
  match s with
  | c0 :: c1 :: _ => N.eqb c0 48 && (N.eqb c1 120 || N.eqb c1 88)
  | _ => false
  end.

(** [parseInt(s)] without a radix: leading white space is skipped, a
    sign is read, a prefix [0x] or [0X] selects radix 16, and the
    longest run of digits of the radix is read; no digit at all gives
    [NaN].  The result is exact for the short inputs of this script. *)
Definition parseInt (s : jsstring) : option Z :=
  let '(neg, s2) := strip_sign (trimStart s) in
  let apply_sign (v : Z) := if neg then - v else v in
  if has_hex_prefix s2 then option_map apply_sign (hex_digits (skipn 2 s2) None)
  else
    match fst (take_digits s2) with
    | [] => None
    | d => Some (apply_sign (digits_value d))
    end.

(** ** The national identity number *)

Definition msg_cedula_required : jsstring := js "La cédula es requerida".
Definition msg_cedula_length : jsstring := js "La cédula debe tener exactamente 10 dígitos".
Definition msg_cedula_province : jsstring := js "Código de provincia inválido".
Definition msg_cedula_invalid : jsstring := js "Número de cédula inválido".

(** [/^\d{10}$/] *)
Definition cedulaPattern : regex :=
  Seq Bol (Seq (Exactly 10 (Class isDigit)) Eol).

Definition coefficients : list Z := [2; 1; 2; 1; 2; 1; 2; 1; 2].

(** The loop [for (let i = 0; i < 9; i++)], with [n] iterations left. *)
Fixpoint cedula_loop (n i : nat) (digits : list Z) (sum : Z) : Z :=
  match n with
  | O => sum
  | S n' =>
      let result := nth i digits 0 * nth i coefficients 0 in
      let result := if 9 <? result then result - 9 else result in
      cedula_loop n' (S i) digits (sum + result)
  end.

Definition validateCedula (value : jsstring) : option jsstring :=
  if negb (truthy (trim value)) then Some msg_cedula_required
  else
    let cedula := trim value in
    if negb (test cedulaPattern cedula) then Some msg_cedula_length
    else
      let digits := map Number_of_digit (split_chars cedula) in
      let province := parseInt (substring0 2 cedula) in
      if num_lt province (Some 1) || num_gt province (Some 24)
      then Some msg_cedula_province
      else
        let sum := cedula_loop 9 0 digits 0 in
        let verifierDigit := if sum mod 10 =? 0 then 0 else 10 - sum mod 10 in
        if negb (verifierDigit =? nth 9 digits 0) then Some msg_cedula_invalid
        else None.

(** ** Validators of text fields *)

Fixpoint Cat (l : list regex) : regex :=
  match l with
  | [] => Empty
  | [r] => r
  | r :: l' => Seq r (Cat l')
  end.

(** The letters [áéíóúÁÉÍÓÚñÑ]. *)
Definition accented : list N :=
  [225; 233; 237; 243; 250; 193; 201; 205; 211; 218; 241; 209]%N.

(** [[a-zA-ZáéíóúÁÉÍÓÚñÑ\s]] *)
Definition isNameChar (c : N) : bool :=
  isLower c || isUpper c || one_of accented c || isWhiteSpace c.

(** [/^[a-zA-ZáéíóúÁÉÍÓÚñÑ\s]+$/] *)
Definition namePattern : regex :=
  Seq Bol (Seq (Plus (Class isNameChar)) Eol).

Definition msg_name_required : jsstring := js "El nombre completo es requerido".
Definition msg_name_short : jsstring := js "El nombre debe tener al menos 2 caracteres".
Definition msg_name_letters : jsstring := js "El nombre solo puede contener letras y espacios".
Definition msg_name_surname : jsstring := js "Debe ingresar nombre y apellido".

Definition validateFullName (value : jsstring) : option jsstring :=
  if negb (truthy (trim value)) then Some msg_name_required
  else if (length (trim value) <? 2)%nat then Some msg_name_short
  else if negb (test namePattern value) then Some msg_name_letters
  else if (length (split_unit 32 (trim value)) <? 2)%nat then Some msg_name_surname
  else None.

(** [[^\s@]] *)
Definition isEmailChar (c : N) : bool := negb (isWhiteSpace c || N.eqb c 64).

(** [/^[^\s@]+@[^\s@]+\.[^\s@]+$/] *)
Definition emailPattern : regex :=
  Cat [Bol; Plus (Class isEmailChar); Lit 64; Plus (Class isEmailChar);
       Lit 46; Plus (Class isEmailChar); Eol].

Definition msg_email_required : jsstring := js "El email es requerido".
Definition msg_email_invalid : jsstring := js "Ingrese un email válido".

Definition validateEmail (value : jsstring) : option jsstring :=
  if negb (truthy (trim value)) then Some msg_email_required
  else if negb (test emailPattern value) then Some msg_email_invalid
  else None.

(** [[\s\-\(\)]] *)
Definition isPhoneNoise (c : N) : bool :=
  isWhiteSpace c || one_of [45; 40; 41]%N c.

(** [/^(\+593|593|0)?[2-9]\d{8}$/] *)
Definition ecuadorianPattern : regex :=
  Cat [Bol;
       Opt (Alt (Word (js "+593")) (Alt (Word (js "593")) (Word (js "0"))));
       Class (in_range 50 57); Exactly 8 (Class isDigit); Eol].

Definition msg_phone_required : jsstring := js "El teléfono es requerido".
Definition msg_phone_invalid : jsstring := js "Formato de teléfono ecuatoriano inválido".

Definition validatePhone (value : jsstring) : option jsstring :=
  if negb (truthy (trim value)) then Some msg_phone_required
  else
    let cleanPhone := remove_all isPhoneNoise value in
    if negb (test ecuadorianPattern cleanPhone) then Some msg_phone_invalid
    else None.

(** The thirty symbols of the class of special characters of
    [validatePassword], from the exclamation mark to the question mark,
    by code unit. *)
Definition specialChars : list N :=
  [33; 64; 35; 36; 37; 94; 38; 42; 40; 41; 95; 43; 45; 61; 91; 93; 123; 125;
   59; 39; 58; 34; 92; 124; 44; 46; 60; 62; 47; 63]%N.

Definition msg_password_required : jsstring := js "La contraseña es requerida".
Definition msg_password_short : jsstring := js "La contraseña debe tener al menos 8 caracteres".
Definition msg_password_lower : jsstring := js "La contraseña debe contener al menos una letra minúscula".
Definition msg_password_upper : jsstring := js "La contraseña debe contener al menos una letra mayúscula".
Definition msg_password_digit : jsstring := js "La contraseña debe contener al menos un número".
Definition msg_password_symbol : jsstring := js "La contraseña debe contener al menos un símbolo especial".

Definition validatePassword (value : jsstring) : option jsstring :=
  if negb (truthy value) then Some msg_password_required
  else if (length value <? 8)%nat then Some msg_password_short
  else if negb (test (Class isLower) value) then Some msg_password_lower
  else if negb (test (Class isUpper) value) then Some msg_password_upper
  else if negb (test (Class isDigit) value) then Some msg_password_digit
  else if negb (test (Class (one_of specialChars)) value) then Some msg_password_symbol
  else None.

Definition isAlnum (c : N) : bool := isLower c || isUpper c || isDigit c.

(** [[-a-zA-Z0-9@:%._\+~#=]] *)
Definition isHostChar (c : N) : bool :=
  isAlnum c || one_of [45; 64; 58; 37; 46; 95; 43; 126; 35; 61]%N c.

(** [[a-zA-Z0-9()]] *)
Definition isTldChar (c : N) : bool := isAlnum c || one_of [40; 41]%N c.

(** [[-a-zA-Z0-9()@:%_\+.~#?&//=]] *)
Definition isPathChar (c : N) : bool :=
  isAlnum c
  || one_of [45; 40; 41; 64; 58; 37; 95; 43; 46; 126; 35; 63; 38; 47; 61]%N c.

(** The pattern of [validateWebsite]: [^https?:\/\/(www\.)?], then
    [[-a-zA-Z0-9@:%._\+~#=]{1,256}\.[a-zA-Z0-9()]{1,6}\b], then any
    number of path characters up to the end of the input. *)
Definition urlPattern : regex :=
  Cat [Bol; Word (js "http"); Opt (Lit 115); Word (js "://");
       Opt (Word (js "www."));
       Between 1 256 (Class isHostChar); Lit 46;
       Between 1 6 (Class isTldChar); WordBoundary;
       Star (Class isPathChar); Eol].

Definition msg_website_invalid : jsstring :=
  js "Ingrese una URL válida (ej: https://ejemplo.com)".

Definition validateWebsite (value : jsstring) : option jsstring :=
  if negb (truthy (trim value)) then None
  else if negb (test urlPattern value) then Some msg_website_invalid
  else None.

Definition msg_select_required : jsstring := js "Debe seleccionar una opción".

Definition validateSelect (value : jsstring) : option jsstring :=
  if negb (truthy value) || jsstring_eqb value [] then Some msg_select_required
  else None.

Definition msg_textarea_long : jsstring :=
  js "El comentario no debe superar los 500 caracteres".

Definition validateTextarea (value : jsstring) : option jsstring :=
  if truthy value && (500 <? length value)%nat then Some msg_textarea_long
  else None.

(** ** Dates *)

(** Time values are milliseconds since the epoch; a [Date] object holds
    a time value or [NaN] ([None]).  The functions below are those of
    the language specification (section "Date Objects"). *)

Definition msPerDay : Z := 86400000.

Definition Day (t : Z) : Z := t / msPerDay.
Definition TimeWithinDay (t : Z) : Z := t mod msPerDay.

Definition DaysInYear (y : Z) : Z :=
  if negb (y mod 4 =? 0) then 365
  else if negb (y mod 100 =? 0) then 366
  else if negb (y mod 400 =? 0) then 365
  else 366.

Definition DayFromYear (y : Z) : Z :=
  365 * (y - 1970) + (y - 1969) / 4 - (y - 1901) / 100 + (y - 1601) / 400.

Definition TimeFromYear (y : Z) : Z := msPerDay * DayFromYear y.

(** The largest year [y] with [TimeFromYear y <= t]: a first estimate
    from the mean length of a year, corrected by at most one. *)
Definition YearFromTime (t : Z) : Z :=
  let d := Day t in
  let y := 1970 + (400 * d) / 146097 in
  if d <? DayFromYear y then y - 1
  else if DayFromYear (y + 1) <=? d then y + 1
  else y.

Definition InLeapYear (t : Z) : Z :=
  if DaysInYear (YearFromTime t) =? 366 then 1 else 0.

Definition DayWithinYear (t : Z) : Z := Day t - DayFromYear (YearFromTime t).

Definition MonthFromTime (t : Z) : Z :=
  let d := DayWithinYear t in
  let l := InLeapYear t in
  if d <? 31 then 0
  else if d <? 59 + l then 1
  else if d <? 90 + l then 2
  else if d <? 120 + l then 3
  else if d <? 151 + l then 4
  else if d <? 181 + l then 5
  else if d <? 212 + l then 6
  else if d <? 243 + l then 7
  else if d <? 273 + l then 8
  else if d <? 304 + l then 9
  else if d <? 334 + l then 10
  else 11.

(** Day number, within a year, of the first day of a month. *)
Definition month_start (m l : Z) : Z :=
  nth (Z.to_nat m)
      [0; 31; 59 + l; 90 + l; 120 + l; 151 + l; 181 + l; 212 + l; 243 + l;
       273 + l; 304 + l; 334 + l] 0.

(** Number of days of a month. *)
Definition month_length (m l : Z) : Z :=
  nth (Z.to_nat m) [31; 28 + l; 31; 30; 31; 30; 31; 31; 30; 31; 30; 31] 0.

Definition DateFromTime (t : Z) : Z :=
  DayWithinYear t - month_start (MonthFromTime t) (InLeapYear t) + 1.

(** [MakeDay(year, month, date)] for finite integral arguments. *)
Definition MakeDay (year month date : Z) : Z :=
  let ym := year + month / 12 in
  let mn := month mod 12 in
  let l := if DaysInYear ym =? 366 then 1 else 0 in
  DayFromYear ym + month_start mn l + date - 1.

Definition MakeDate (day time : Z) : Z := day * msPerDay + time.

Definition TimeClip (t : Z) : option Z :=
  if 8640000000000000 <? Z.abs t then None else Some t.

(** Local time.  The time zone of the host is taken to have a fixed
    offset [tza] from UTC, in milliseconds. *)
Definition LocalTime (tza t : Z) : Z := t + tza.
Definition UTC (tza t : Z) : Z := t - tza.

(** [d.getFullYear()] *)
Definition getFullYear (tza : Z) (d : option Z) : option Z :=
  option_map (fun t => YearFromTime (LocalTime tza t)) d.

(** [d.setFullYear(year)]: the new time value of [d]. *)
Definition setFullYear (tza : Z) (d : option Z) (year : option Z) : option Z :=
  let t := match d with Some tv => LocalTime tza tv | None => 0 end in
  match year with
  | None => None
  | Some y =>
      let newDate :=
        MakeDate (MakeDay y (MonthFromTime t) (DateFromTime t)) (TimeWithinDay t) in
      TimeClip (UTC tza newDate)
  end.

(** [a - b] on numbers that may be [NaN]. *)
Definition num_sub (a : option Z) (b : Z) : option Z :=
  option_map (fun x => x - b) a.

Definition DaysInMonth (y m : Z) : Z :=
  if m =? 2 then (if DaysInYear y =? 366 then 29 else 28)
  else if (m =? 4) || (m =? 6) || (m =? 9) || (m =? 11) then 30
  else 31.

(** A string parser for dates that accepts exactly the date-only form
    [YYYY-MM-DD] of the date-time string format, read as UTC midnight,
    and nothing else.  What an engine accepts beyond the standard
    format is its own choice, so the validators take the parser of the
    host as a parameter; this one serves as a concrete host. *)
Definition isoDateParse (s : jsstring) : option Z :=
  match s with
  | [y1; y2; y3; y4; h1; m1; m2; h2; d1; d2] =>
      if forallb isDigit [y1; y2; y3; y4; m1; m2; d1; d2]
         && N.eqb h1 45 && N.eqb h2 45
      then
        let y := digits_value [y1; y2; y3; y4] in
        let m := digits_value [m1; m2] in
        let d := digits_value [d1; d2] in
        if (1 <=? m) && (m <=? 12) && (1 <=? d) && (d <=? DaysInMonth y m)
        then Some (MakeDate (MakeDay y (m - 1) d) 0)
        else None
      else None
  | _ => None
  end.

(** ** Floating-point numbers read from strings *)

(** The Number type is IEEE 754 binary64: [spec_float] at precision 53
    and maximal exponent 1024. *)
Definition prec : Z := 53.
Definition emax : Z := 1024.

(** The mathematical value of a numeric literal, before rounding:
    an infinity, or [m * 10 ^ e] with a sign. *)
Inductive decimal : Type :=
| DecInfinity (neg : bool)
| DecFinite (neg : bool) (m e : Z).

Fixpoint starts_with (p s : jsstring) : bool :=
  match p, s with
  | [], _ => true
  | a :: p', b :: s' => N.eqb a b && starts_with p' s'
  | _ :: _, [] => false
  end.

Definition isExponentIndicator (c : N) : bool := N.eqb c 101 || N.eqb c 69.

(** The exponent part, if the input continues with one: [e] or [E],
    an optional sign, and at least one digit. *)
Definition exponent_part (s : jsstring) : Z :=
  match s with
  | c :: r =>
      if isExponentIndicator c then
        let '(neg, r') := strip_sign r in
        match fst (take_digits r') with
        | [] => 0
        | d => if neg then - digits_value d else digits_value d
        end
      else 0
  | [] => 0
  end.

(** The longest prefix of [s] that is a [StrDecimalLiteral], as its
    value; [None] when no prefix is one. *)
Definition StrDecimalLiteral_prefix (s : jsstring) : option decimal :=
  let '(neg, r) := strip_sign s in
  if starts_with (js "Infinity") r then Some (DecInfinity neg)
  else
    let '(ip, r1) := take_digits r in
    let '(fp, r2) :=
      match r1 with
      | c :: r1' => if N.eqb c 46 then take_digits r1' else ([], r1)
      | [] => ([], r1)
      end in
    match ip, fp with
    | [], [] => None
    | _, _ =>
        Some (DecFinite neg (digits_value (ip ++ fp))
                        (exponent_part r2 - Z.of_nat (length fp)))
    end.

(** Rounding of a literal's value to the nearest Number, ties to even. *)
Definition round_decimal (d : decimal) : spec_float :=
  match d with
  | DecInfinity neg => S754_infinity neg
  | DecFinite neg m e =>
      match m with
      | Zpos pm =>
          if 0 <=? e then
            binary_normalize prec emax (if neg then - (m * 10 ^ e) else m * 10 ^ e) 0 neg
          else
            SFdiv prec emax (S754_finite neg pm 0)
                  (S754_finite false (Z.to_pos (10 ^ (- e))) 0)
      | _ => S754_zero neg
      end
  end.

(** [parseFloat(s)] *)
Definition parseFloat (s : jsstring) : spec_float :=
  match StrDecimalLiteral_prefix (trimStart s) with
  | None => S754_nan
  | Some d => round_decimal d
  end.

(** [isNaN(x)] on a Number. *)
Definition isNaN (x : spec_float) : bool :=
  match x with S754_nan => true | _ => false end.

(** A Number from an integer literal of the script. *)
Definition NumberLit (z : Z) : spec_float := binary_normalize prec emax z 0 false.

Definition msg_salary_required : jsstring := js "El salario es requerido".
Definition msg_salary_nan : jsstring := js "Ingrese un valor numérico válido".
Definition msg_salary_negative : jsstring := js "El salario no puede ser negativo".
Definition msg_salary_high : jsstring := js "El salario parece ser demasiado alto".

Definition validateSalary (value : jsstring) : option jsstring :=
  if negb (truthy value) then Some msg_salary_required
  else
    let salary := parseFloat value in
    if isNaN salary then Some msg_salary_nan
    else if SFltb salary (NumberLit 0) then Some msg_salary_negative
    else if SFltb (NumberLit 1000000) salary then Some msg_salary_high
    else None.

(** ** The host: document, clock and date parser *)

Record File : Type := { file_type : jsstring; file_size : Z }.

(** A form control, with the properties the script reads. *)
Record Element : Type := {
  el_value : jsstring;
  el_checked : bool;
  el_files : list File
}.

(** What the script reads from its environment.  [now n] is the time
    value returned by the [n]-th evaluation of [new Date()] within one
    run of a validator. *)
Record Host : Type := {
  getElementById : string -> option Element;
  querySelectorAll_input_name : string -> list Element;
  submitButton : bool;
  Date_parse : jsstring -> option Z;
  LocalTZA : Z;
  now : nat -> Z
}.

(** [document.querySelector] with the selector [input[name=...]]: the
    first match. *)
Definition querySelector_input_name (h : Host) (name : string) : option Element :=
  hd_error (querySelectorAll_input_name h name).

(** [new Date(value)] for a string. *)
Definition new_Date_string (h : Host) (v : jsstring) : option Z :=
  match Date_parse h v with
  | Some t => TimeClip t
  | None => None
  end.

(** Completion of a call: a value, or a thrown exception. *)
Inductive exn : Type := TypeError.

Inductive completion (A : Type) : Type :=
| Normal (a : A)
| Throw (e : exn).
Arguments Normal {A} a.
Arguments Throw {A} e.

Definition msg_birth_required : jsstring := js "La fecha de nacimiento es requerida".
Definition msg_birth_future : jsstring := js "La fecha de nacimiento no puede ser futura".
Definition msg_birth_invalid : jsstring := js "Fecha de nacimiento no válida".
Definition msg_birth_minor : jsstring := js "Debe ser mayor de 18 años".

(** The two boundary dates of [validateBirthDate]. *)
Definition minDate (h : Host) : option Z :=
  setFullYear (LocalTZA h) (Some (now h 1))
              (num_sub (getFullYear (LocalTZA h) (Some (now h 0))) 100).

Definition maxDate (h : Host) : option Z :=
  setFullYear (LocalTZA h) (Some (now h 2))
              (num_sub (getFullYear (LocalTZA h) (Some (now h 0))) 18).

Definition validateBirthDate (h : Host) (value : jsstring) : option jsstring :=
  if negb (truthy value) then Some msg_birth_required
  else
    let birthDate := new_Date_string h value in
    let today := Some (now h 0) in
    if num_gt birthDate today then Some msg_birth_future
    else if num_lt birthDate (minDate h) then Some msg_birth_invalid
    else if num_gt birthDate (maxDate h) then Some msg_birth_minor
    else None.

(** ** Validators that read the document *)

Definition msg_confirm_required : jsstring := js "Debe confirmar la contraseña".
Definition msg_confirm_mismatch : jsstring := js "Las contraseñas no coinciden".

Definition validateConfirmPassword (h : Host) (value : jsstring)
  : completion (option jsstring) :=
  match getElementById h "password" with
  | None => Throw TypeError
  | Some el =>
      let password := el_value el in
      if negb (truthy value) then Normal (Some msg_confirm_required)
      else if negb (jsstring_eqb value password) then Normal (Some msg_confirm_mismatch)
      else Normal None
  end.

Definition validateRadioGroup (h : Host) (name : string) : option jsstring :=
  let radioButtons := querySelectorAll_input_name h name in
  let isChecked := existsb el_checked radioButtons in
  if negb isChecked then Some msg_select_required else None.

(** Decimal digits of a natural number, for template strings. *)
Fixpoint decimal_digits (fuel : nat) (n : N) (acc : jsstring) : jsstring :=
  match fuel with
  | O => acc
  | S fuel' =>
      let acc' := (48 + n mod 10)%N :: acc in
      if (n <? 10)%N then acc' else decimal_digits fuel' (n / 10)%N acc'
  end.

Definition nat_to_jsstring (n : nat) : jsstring :=
  decimal_digits (S n) (N.of_nat n) [].

Definition msg_checkbox_group (minRequired : nat) : jsstring :=
  js "Debe seleccionar al menos " ++ nat_to_jsstring minRequired ++ js " opciones".

Definition validateCheckboxGroup (h : Host) (name : string) (minRequired : nat)
  : option jsstring :=
  let checkboxes := querySelectorAll_input_name h name in
  let checkedCount := length (filter el_checked checkboxes) in
  if (checkedCount <? minRequired)%nat then Some (msg_checkbox_group minRequired)
  else None.

Definition msg_file_required : jsstring := js "Debe seleccionar un archivo".
Definition msg_file_pdf : jsstring := js "El archivo debe ser un PDF".
Definition msg_file_size : jsstring := js "El archivo no debe superar los 5MB".

Definition validateFile (h : Host) (fieldName : string)
  : completion (option jsstring) :=
  match getElementById h fieldName with
  | None => Throw TypeError
  | Some fileInput =>
      match hd_error (el_files fileInput) with
      | None => Normal (Some msg_file_required)
      | Some file =>
          if String.eqb fieldName "cv"
             && negb (jsstring_eqb (file_type file) (js "application/pdf"))
          then Normal (Some msg_file_pdf)
          else
            let maxSize := 5 * 1024 * 1024 in
            if maxSize <? file_size file then Normal (Some msg_file_size)
            else Normal None
      end
  end.

Definition msg_terms : jsstring := js "Debe aceptar los términos y condiciones".

Definition validateCheckbox (h : Host) (fieldName : string)
  : completion (option jsstring) :=
  match getElementById h fieldName with
  | None => Throw TypeError
  | Some checkbox =>
      if negb (el_checked checkbox) then Normal (Some msg_terms) else Normal None
  end.

(** ** Maps *)

(** A [Map] with string keys: the entries in insertion order, at most
    one per key. *)
Definition JSMap (V : Type) : Type := list (string * V).

Section JSMapOps.
Variable V : Type.

Fixpoint Map_get (k : string) (m : JSMap V) : option V :=
  match m with
  | [] => None
  | (k', v) :: m' => if String.eqb k k' then Some v else Map_get k m'
  end.

Definition Map_has (k : string) (m : JSMap V) : bool :=
  match Map_get k m with Some _ => true | None => false end.

(** [m.set(k, v)]: an existing key keeps its position. *)
Fixpoint Map_set (k : string) (v : V) (m : JSMap V) : JSMap V :=
  match m with
  | [] => [(k, v)]
  | (k', v') :: m' =>
      if String.eqb k k' then (k', v) :: m' else (k', v') :: Map_set k v m'
  end.

Definition Map_delete (k : string) (m : JSMap V) : JSMap V :=
  filter (fun e => negb (String.eqb k (fst e))) m.

Definition Map_keys (m : JSMap V) : list string := map fst m.

Definition Map_size (m : JSMap V) : nat := length m.
End JSMapOps.
Arguments Map_get {V} k m.
Arguments Map_has {V} k m.
Arguments Map_set {V} k v m.
Arguments Map_delete {V} k m.
Arguments Map_keys {V} m.
Arguments Map_size {V} m.

(** ** The rule registry *)

Record RuleDescriptor : Type := {
  required : bool;
  minLength : option nat;
  pattern : option regex;
  validate : Host -> jsstring -> completion (option jsstring)
}.

Definition rule (req : bool) (v : Host -> jsstring -> completion (option jsstring))
  : RuleDescriptor :=
  {| required := req; minLength := None; pattern := None; validate := v |}.

(** [setupValidators()]: the fifteen fields, in this order. *)
Definition setupValidators (validators : JSMap RuleDescriptor) : JSMap RuleDescriptor :=
  let validators :=
    Map_set "fullName"
            {| required := true; minLength := Some 2%nat; pattern := Some namePattern;
               validate := fun _ value => Normal (validateFullName value) |}
            validators in
  let validators :=
    Map_set "email"
            {| required := true; minLength := None; pattern := Some emailPattern;
               validate := fun _ value => Normal (validateEmail value) |}
            validators in
  let validators :=
    Map_set "phone" (rule true (fun _ value => Normal (validatePhone value))) validators in
  let validators :=
    Map_set "birthDate" (rule true (fun h value => Normal (validateBirthDate h value)))
            validators in
  let validators :=
    Map_set "cedula" (rule true (fun _ value => Normal (validateCedula value))) validators in
  let validators :=
    Map_set "password" (rule true (fun _ value => Normal (validatePassword value)))
            validators in
  let validators :=
    Map_set "confirmPassword" (rule true (fun h value => validateConfirmPassword h value))
            validators in
  let validators :=
    Map_set "website" (rule false (fun _ value => Normal (validateWebsite value)))
            validators in
  let validators :=
    Map_set "salary" (rule true (fun _ value => Normal (validateSalary value))) validators in
  let validators :=
    Map_set "country" (rule true (fun _ value => Normal (validateSelect value))) validators in
  let validators :=
    Map_set "gender" (rule true (fun h _ => Normal (validateRadioGroup h "gender")))
            validators in
  let validators :=
    Map_set "interests"
            (rule true (fun h _ => Normal (validateCheckboxGroup h "interests" 2)))
            validators in
  let validators := Map_set "cv" (rule true (fun h _ => validateFile h "cv")) validators in
  let validators :=
    Map_set "comments" (rule false (fun _ value => Normal (validateTextarea value)))
            validators in
  let validators :=
    Map_set "terms" (rule true (fun h _ => validateCheckbox h "terms")) validators in
  validators.

(** ** The validator object and its collaborators *)

(** The fields of a [FormValidator] instance. *)
Record FormValidator : Type := {
  validators : JSMap RuleDescriptor;
  errors : JSMap jsstring;
  isSubmitting : bool
}.

(** Calls that leave the object: they are recorded, most recent last. *)
Inductive Call : Type :=
| CallValidator (fieldName : string)
| CallFocusFirstError
| CallTransport
| CallSuccessMessage
| CallAlert.

(** The object, the number of calls of [simulateSubmission] that have
    not settled yet, and the record of calls. *)
Record World : Type := {
  this : FormValidator;
  pending : nat;
  calls : list Call
}.

Definition set_errors (e : JSMap jsstring) (w : World) : World :=
  {| this := {| validators := validators (this w); errors := e;
                isSubmitting := isSubmitting (this w) |};
     pending := pending w; calls := calls w |}.

Definition set_isSubmitting (b : bool) (w : World) : World :=
  {| this := {| validators := validators (this w); errors := errors (this w);
                isSubmitting := b |};
     pending := pending w; calls := calls w |}.

Definition set_pending (n : nat) (w : World) : World :=
  {| this := this w; pending := n; calls := calls w |}.

Definition record_call (c : Call) (w : World) : World :=
  {| this := this w; pending := pending w; calls := calls w ++ [c] |}.

(** Computations on the world that may throw. *)
Definition M (A : Type) : Type := World -> completion A * World.

Definition ret {A : Type} (a : A) : M A := fun w => (Normal a, w).

Definition bind {A B : Type} (m : M A) (f : A -> M B) : M B :=
  fun w =>
    match m w with
    | (Normal a, w') => f a w'
    | (Throw e, w') => (Throw e, w')
    end.

Definition lift {A : Type} (c : completion A) : M A := fun w => (c, w).

Definition modify (f : World -> World) : M unit := fun w => (Normal tt, f w).

Notation "x <- m ;; k" := (bind m (fun x => k))
  (at level 61, m at next level, right associativity).
Notation "m ;;; k" := (bind m (fun _ => k))
  (at level 61, right associativity).

(** [showError]: the message is stored; the error element and the CSS
    classes of the document are presentation and are not modelled. *)
Definition showError (fieldName : string) (message : jsstring) : M unit :=
  modify (fun w => set_errors (Map_set fieldName message (errors (this w))) w).

Definition clearError (fieldName : string) : M unit :=
  modify (fun w => set_errors (Map_delete fieldName (errors (this w))) w).

Definition clearAllErrors : M unit := modify (set_errors []).

(** Truth value of the result of a validate function. *)
Definition error_truthy (error : option jsstring) : bool :=
  match error with Some m => truthy m | None => false end.

(** Every descriptor of the registry has a [validate] function, so the
    test [if (validator.validate)] is always passed. *)
Definition validateField (h : Host) (fieldName : string) : M bool :=
  fun w =>
    match Map_get fieldName (validators (this w)) with
    | None => ret true w
    | Some validator =>
        (let field :=
           match getElementById h fieldName with
           | Some el => Some el
           | None => querySelector_input_name h fieldName
           end in
         let value := match field with Some el => el_value el | None => [] end in
         modify (record_call (CallValidator fieldName)) ;;;
         error <- lift (validate validator h value) ;;
         if error_truthy error then
           showError fieldName (match error with Some m => m | None => [] end) ;;;
           ret false
         else
           clearError fieldName ;;; ret true) w
    end.

(** The loop of [validateForm] over the keys that remain. *)
Fixpoint validateForm_loop (h : Host) (keys : list string) (isValid : bool) : M bool :=
  match keys with
  | [] => ret isValid
  | fieldName :: keys' =>
      ok <- validateField h fieldName ;;
      validateForm_loop h keys' (if negb ok then false else isValid)
  end.

Definition validateForm (h : Host) : M bool :=
  fun w => validateForm_loop h (Map_keys (validators (this w))) true w.

(** [getErrors()] and [isValid()] *)
Definition getErrors (w : World) : JSMap jsstring := errors (this w).
Definition isValid (w : World) : bool := Nat.eqb (Map_size (errors (this w))) 0.

(** The [catch] and [finally] blocks of [handleSubmit]. *)
Definition catch_block (w : World) : World := record_call CallAlert w.
Definition finally_block (w : World) : World := set_isSubmitting false w.

(** The body of the [try] block up to the [await]: [true] when the
    function is suspended on [simulateSubmission], [false] when it
    returned before. *)
Definition try_block (h : Host) : M bool :=
  modify (set_isSubmitting true) ;;;
  (if submitButton h then ret tt else lift (Throw TypeError)) ;;;
  ok <- validateForm h ;;
  if negb ok then
    modify (record_call CallFocusFirstError) ;;; ret false
  else
    modify (record_call CallTransport) ;;;
    modify (fun w => set_pending (S (pending w)) w) ;;;
    ret true.

(** [handleSubmit()], up to its first suspension. *)
Definition handleSubmit (h : Host) (w : World) : World :=
  if isSubmitting (this w) then w
  else
    match try_block h w with
    | (Normal true, w') => w'
    | (Normal false, w') => finally_block w'
    | (Throw _, w') => finally_block (catch_block w')
    end.

(** The rest of [handleSubmit], run when [simulateSubmission] settles:
    [ok] tells whether it was fulfilled or rejected. *)
Definition handleSubmit_resume (ok : bool) (w : World) : World :=
  match pending w with
  | O => w
  | S n =>
      let w := set_pending n w in
      let w := if ok then record_call CallSuccessMessage w else catch_block w in
      finally_block w
  end.

(** ** Events *)

Inductive Event : Type :=
| EvInput (name : string)
| EvChange (name : string) (radioOrCheckbox : bool)
| EvSubmit
| EvSettle (ok : bool)
| EvReset
| ApiValidateField (fieldName : string)
| ApiValidateForm
| ApiReset.

(** One turn of the event loop.  An exception that escapes a listener
    is reported by the host and the object stays as the listener left
    it. *)
Definition step (h : Host) (e : Event) (w : World) : World :=
  match e with
  | EvInput name =>
      if negb (String.eqb name "") && Map_has name (validators (this w))
      then snd (validateField h name w) else w
  | EvChange name radioOrCheckbox =>
      if radioOrCheckbox then
        if Map_has name (validators (this w)) then snd (validateField h name w) else w
      else w
  | EvSubmit => handleSubmit h w
  | EvSettle ok => handleSubmit_resume ok w
  | EvReset => snd (clearAllErrors w)
  | ApiValidateField fieldName => snd (validateField h fieldName w)
  | ApiValidateForm => snd (validateForm h w)
  | ApiReset => snd (clearAllErrors (snd (clearAllErrors w)))
  end.

(** A run: each event is handled in the host state of its time. *)
Fixpoint run (es : list (Host * Event)) (w : World) : World :=
  match es with
  | [] => w
  | (h, e) :: es' => run es' (step h e w)
  end.

(** The state after [new FormValidator(formId)], for a registry. *)
Definition init_with (reg : JSMap RuleDescriptor) : World :=
  {| this := {| validators := reg; errors := []; isSubmitting := false |};
     pending := 0; calls := [] |}.

Definition init : World := init_with (setupValidators []).

(** ** The data of the form *)

(** The value of an entry of a [FormData] object: a string or a file. *)
Inductive EntryValue : Type :=
| EntryString (s : jsstring)
| EntryFile (f : File).

(** What [data[key]] or an element of an array of [data] can be: the
    value of an entry, or the member [name] that [data], a plain
    object, inherits from [Object.prototype]. *)
Inductive Item : Type :=
| ItemEntry (v : EntryValue)
| ItemInherited (name : string).

Inductive DataValue : Type :=
| Single (i : Item)
| Array (items : list Item).

(** The members of [Object.prototype]. *)
Definition Object_prototype_members : list string :=
  ["constructor"; "hasOwnProperty"; "isPrototypeOf"; "propertyIsEnumerable";
   "toLocaleString"; "toString"; "valueOf"; "__proto__"; "__defineGetter__";
   "__defineSetter__"; "__lookupGetter__"; "__lookupSetter__"]%string.

Definition inherited (key : string) : bool :=
  existsb (String.eqb key) Object_prototype_members.

(** [data[key]], read: an own property, else an inherited member, else
    [undefined] ([None]).  The own properties of [data] are kept in the
    order of their creation; only look-up is used below. *)
Definition data_get (key : string) (data : JSMap DataValue) : option DataValue :=
  match Map_get key data with
  | Some v => Some v
  | None => if inherited key then Some (Single (ItemInherited key)) else None
  end.

Definition entry_truthy (v : EntryValue) : bool :=
  match v with
  | EntryString s => truthy s
  | EntryFile _ => true
  end.

Definition item_truthy (i : Item) : bool :=
  match i with
  | ItemEntry v => entry_truthy v
  | ItemInherited _ => true
  end.

Definition data_truthy (v : option DataValue) : bool :=
  match v with
  | Some (Single i) => item_truthy i
  | Some (Array _) => true
  | None => false
  end.

(** The body of the loop of [getFormData] for one entry. *)
Definition getFormData_body (key : string) (value : EntryValue)
           (data : JSMap DataValue) : JSMap DataValue :=
  if data_truthy (data_get key data) then
    match data_get key data with
    | Some (Array items) => Map_set key (Array (items ++ [ItemEntry value])) data
    | Some (Single i) => Map_set key (Array [i; ItemEntry value]) data
    | None => data
    end
  else Map_set key (Single (ItemEntry value)) data.

(** The loop over the entries.  An entry named [__proto__] makes the
    assignment call the setter of [Object.prototype], which replaces
    the prototype of [data]; what the loop does from there on is
    outside this model, and the result is [None]. *)
Fixpoint getFormData_loop (entries : list (string * EntryValue))
         (data : JSMap DataValue) : option (JSMap DataValue) :=
  match entries with
  | [] => Some data
  | (key, value) :: rest =>
      if String.eqb key "__proto__" then None
      else getFormData_loop rest (getFormData_body key value data)
  end.

(** [getFormData()], on the entries of [new FormData(this.form)]. *)
Definition getFormData (entries : list (string * EntryValue))
  : option (JSMap DataValue) :=
  getFormData_loop entries [].

(** The values of the entries named [key], in order. *)
Definition values_of (key : string) (entries : list (string * EntryValue))
  : list EntryValue :=
  map snd (filter (fun e => String.eqb key (fst e)) entries).

(** [vs] without its leading empty strings. *)
Fixpoint drop_falsy (vs : list EntryValue) : list EntryValue :=
  match vs with
  | [] => []
  | v :: vs' => if entry_truthy v then vs else drop_falsy vs'
  end.

(** The body of the loop seen from one key: what the key holds after
    one more value, when its own property was [cur]. *)
Definition body_on_key (key : string) (cur : option DataValue) (value : EntryValue)
  : option DataValue :=
  let found :=
    match cur with
    | Some v => Some v
    | None => if inherited key then Some (Single (ItemInherited key)) else None
    end in
  if data_truthy found then
    match found with
    | Some (Array items) => Some (Array (items ++ [ItemEntry value]))
    | Some (Single i) => Some (Array [i; ItemEntry value])
    | None => cur
    end
  else Some (Single (ItemEntry value)).

(** ** The character counter *)

(** The colours the counter takes: the CSS variables [--error-color],
    [--warning-color] and [--text-light]. *)
Inductive CounterColor : Type := ErrorColor | WarningColor | TextLight.

(** What the listener writes: [counter.textContent] and
    [counter.style.color]. *)
Record Counter : Type := { textContent : jsstring; color : CounterColor }.

(** An integer in a template string. *)
Definition int_to_jsstring (z : Z) : jsstring :=
  match z with
  | Z.neg p => 45%N :: nat_to_jsstring (Pos.to_nat p)
  | _ => nat_to_jsstring (Z.to_nat z)
  end.

(** The literals [0.9] and [0.7]. *)
Definition NumberLit_0_9 : spec_float := round_decimal (DecFinite false 9 (-1)).
Definition NumberLit_0_7 : spec_float := round_decimal (DecFinite false 7 (-1)).

(** The listener of [setupCharacterCounter], for a text of [length]
    code units in an element whose [maxLength] is [el_maxLength] (an
    integer). *)
Definition characterCounter_input (length : nat) (el_maxLength : Z) : Counter :=
  let maxLength := if el_maxLength =? 0 then 500 else el_maxLength in
  {| textContent :=
       nat_to_jsstring length ++ [47%N] ++ int_to_jsstring maxLength
                       ++ js " caracteres";
     color :=
       if SFltb (SFmul prec emax (NumberLit maxLength) NumberLit_0_9)
                (NumberLit (Z.of_nat length))
       then ErrorColor
       else if SFltb (SFmul prec emax (NumberLit maxLength) NumberLit_0_7)
                     (NumberLit (Z.of_nat length))
            then WarningColor
            else TextLight |}.

(** ** The rules as the specification words them *)

(** "If the product is greater than 9, subtract 9." *)
Definition spec_adjust (product : Z) : Z :=
  if 9 <? product then product - 9 else product.

(** "For index 0..8, multiply the digit by the alternating coefficients
    [2,1,2,1,2,1,2,1,2], ..., sum all." *)
Definition spec_checksum (ds : list Z) : Z :=
  fold_right Z.add 0
    (map (fun dc => spec_adjust (fst dc * snd dc))
         (combine (firstn 9 ds) [2; 1; 2; 1; 2; 1; 2; 1; 2])).

(** "Verifier = 0 if the sum mod 10 is 0, else 10 minus (sum mod 10)." *)
Definition spec_verifier (ds : list Z) : Z :=
  let sum := spec_checksum ds in
  if sum mod 10 =? 0 then 0 else 10 - sum mod 10.

(** The number formed by the first two digits. *)
Definition spec_province (ds : list Z) : Z := 10 * nth 0 ds 0 + nth 1 ds 0.

(** The national-identity rule of the specification, on a string. *)
Definition spec_cedula_ok (s : jsstring) : Prop :=
  length s = 10%nat /\
  Forall (fun c => (48 <= c <= 57)%N) s /\
  1 <= spec_province (map digit_val s) <= 24 /\
  spec_verifier (map digit_val s) = nth 9 (map digit_val s) 0.

(** Number of tokens of a string separated by white space; [inside]
    tells whether the previous code unit belongs to a token. *)
Fixpoint count_tokens (inside : bool) (s : jsstring) : nat :=
  match s with
  | [] => 0
  | c :: s' =>
      if isWhiteSpace c then count_tokens false s'
      else ((if inside then 0 else 1) + count_tokens true s')%nat
  end.

(** The full-name rule of the specification: "non-empty after trim;
    length >= 2; matches letters, accented letters and spaces only; must
    contain >= 2 whitespace-separated tokens", with the message of the
    first check that fails. *)
Definition spec_validateFullName (value : jsstring) : option jsstring :=
  if negb (truthy (trim value)) then Some msg_name_required
  else if (length (trim value) <? 2)%nat then Some msg_name_short
  else if negb (forallb isNameChar value) then Some msg_name_letters
  else if (count_tokens false (trim value) <? 2)%nat then Some msg_name_surname
  else None.

(** The same rule with "spaces" read as the space character alone in
    the third check. *)
Definition isLetterOrSpace (c : N) : bool :=
  isLower c || isUpper c || one_of accented c || N.eqb c 32.

Definition spec_validateFullName_spaces (value : jsstring) : option jsstring :=
  if negb (truthy (trim value)) then Some msg_name_required
  else if (length (trim value) <? 2)%nat then Some msg_name_short
  else if negb (forallb isLetterOrSpace value) then Some msg_name_letters
  else if (count_tokens false (trim value) <? 2)%nat then Some msg_name_surname
  else None.

(** Sign of the value of a literal. *)
Definition decimal_neg (d : decimal) : bool :=
  match d with
  | DecInfinity neg => neg
  | DecFinite neg _ _ => neg
  end.

(** A Number that is a zero, a finite number or an infinity of sign
    [neg]: not [NaN]. *)
Definition has_sign (neg : bool) (x : spec_float) : Prop :=
  x = S754_zero neg \/ x = S754_infinity neg \/
  exists m e, x = S754_finite neg m e.

Definition is_zero (x : spec_float) : bool :=
  match x with S754_zero _ => true | _ => false end.

(** "Must parse as a real number": the value is a decimal numeral, that
    is an optional sign, digits with an optional fraction (one digit at
    least) and an optional exponent, and nothing else; white space
    around the numeral is tolerated.  [is_real_literal] takes the value
    without its leading white space. *)
Definition is_real_literal (s : jsstring) : bool :=
  let '(_, r) := strip_sign s in
  let '(ip, r1) := take_digits r in
  let '(fp, r2) :=
    match r1 with
    | c :: r1' => if N.eqb c 46 then take_digits r1' else ([], r1)
    | [] => ([], r1)
    end in
  match ip, fp with
  | [], [] => false
  | _, _ =>
      forallb isWhiteSpace r2
      || match r2 with
         | c :: r3 =>
             isExponentIndicator c &&
             (let '(_, r4) := strip_sign r3 in
              let '(ed, r5) := take_digits r4 in
              truthy ed && forallb isWhiteSpace r5)
         | [] => false
         end
  end.

(** The salary rule of the specification: "required; must parse as a
    real number; must be >= 0; must be <= 1,000,000", where "non-numeric
    input is a distinct error from negative/out-of-range".  The parsed
    value of a numeral is the Number it denotes, which is what
    [parseFloat] returns for it. *)
Definition spec_validateSalary (value : jsstring) : option jsstring :=
  if negb (truthy value) then Some msg_salary_required
  else if negb (is_real_literal (trimStart value)) then Some msg_salary_nan
  else
    let salary := parseFloat value in
    if SFltb salary (NumberLit 0) then Some msg_salary_negative
    else if SFltb (NumberLit 1000000) salary then Some msg_salary_high
    else None.

(** The day number of the calendar day that lies [n] years before the
    local date of today. *)
Definition years_before_today (h : Host) (n : Z) : Z :=
  let t := LocalTime (LocalTZA h) (now h 0) in
  MakeDay (YearFromTime t - n) (MonthFromTime t) (DateFromTime t).

(** The birth-date rule of the specification, on calendar days, for a
    date of birth of day number [birth]: "a date after today fails with
    the future message; otherwise a date before the 100-years-ago
    boundary fails; otherwise a date after the 18-years-ago boundary
    fails"; "a date exactly 18 years before today passes; one day later
    (17 years, 364 days) fails". *)
Definition spec_validateBirthDate (h : Host) (birth : Z) : option jsstring :=
  let today := Day (LocalTime (LocalTZA h) (now h 0)) in
  if today <? birth then Some msg_birth_future
  else if birth <? years_before_today h 100 then Some msg_birth_invalid
  else if years_before_today h 18 <? birth then Some msg_birth_minor
  else None.

(** ** Auxiliary definitions of the statements *)

(** The value that [validateField] passes to the validate function. *)
Definition field_value (h : Host) (fieldName : string) : jsstring :=
  match match getElementById h fieldName with
        | Some el => Some el
        | None => querySelector_input_name h fieldName
        end with
  | Some el => el_value el
  | None => []
  end.

(** Result of [validateField] on its own, as a truth value: a thrown
    exception counts as a failure. *)
Definition field_ok (h : Host) (w : World) (fieldName : string) : bool :=
  match fst (validateField h fieldName w) with
  | Normal ok => ok
  | Throw _ => false
  end.

(** The stored error of a field. *)
Definition error_of (w : World) (fieldName : string) : option jsstring :=
  Map_get fieldName (errors (this w)).

(** The specification of [validateForm]: [validateField] on every
    registered field, each on its own, and the conjunction of the
    results. *)
Definition spec_validateForm (h : Host) (w : World) : bool :=
  forallb (field_ok h w) (Map_keys (validators (this w))).

(** What holds of every state reached from [init_with reg]: the
    registry is [reg], every key of the error map is a key of [reg],
    and a submission is pending exactly when the in-flight flag is
    set. *)
Definition reachable_inv (reg : JSMap RuleDescriptor) (w : World) : Prop :=
  validators (this w) = reg /\
  (forall k, In k (Map_keys (errors (this w))) -> In k (Map_keys reg)) /\
  pending w = (if isSubmitting (this w) then 1 else 0)%nat.

(** ** Sample hosts *)

Definition no_element (_ : string) : option Element := None.
Definition no_inputs (_ : string) : list Element := [].

(** A host with an empty document, the date-only parser, a fixed
    offset from UTC and a clock that reads [t0]. *)
Definition clock_host (tza t0 : Z) : Host :=
  {| getElementById := no_element;
     querySelectorAll_input_name := no_inputs;
     submitButton := true;
     Date_parse := isoDateParse;
     LocalTZA := tza;
     now := fun _ => t0 |}.

(** 2026-11-02, 12:00 UTC. *)
Definition noon_2026_11_02 : Z := 1793620800000.

(** A document with every field of the form filled in correctly. *)
Definition text_input (v : string) : Element :=
  {| el_value := js v; el_checked := false; el_files := [] |}.

Definition check_input (v : string) (c : bool) : Element :=
  {| el_value := js v; el_checked := c; el_files := [] |}.

Definition file_input (f : list File) : Element :=
  {| el_value := []; el_checked := false; el_files := f |}.

Definition filled_form (password confirm : string) (id : string) : option Element :=
  if String.eqb id "fullName" then Some (text_input "Juan Pérez")
  else if String.eqb id "email" then Some (text_input "juan@ejemplo.com")
  else if String.eqb id "phone" then Some (text_input "0991234567")
  else if String.eqb id "birthDate" then Some (text_input "2000-01-01")
  else if String.eqb id "cedula" then Some (text_input "1712345675")
  else if String.eqb id "password" then Some (text_input password)
  else if String.eqb id "confirmPassword" then Some (text_input confirm)
  else if String.eqb id "website" then Some (text_input "")
  else if String.eqb id "salary" then Some (text_input "50000")
  else if String.eqb id "country" then Some (text_input "EC")
  else if String.eqb id "cv"
  then Some (file_input [ {| file_type := js "application/pdf"; file_size := 1000 |} ])
  else if String.eqb id "comments" then Some (text_input "")
  else if String.eqb id "terms" then Some (check_input "on" true)
  else None.

Definition filled_groups (name : string) : list Element :=
  if String.eqb name "gender"
  then [check_input "m" false; check_input "f" true]
  else if String.eqb name "interests"
  then [check_input "a" true; check_input "b" true; check_input "c" false]
  else [].

Definition filled_host (password confirm : string) : Host :=
  {| getElementById := filled_form password confirm;
     querySelectorAll_input_name := filled_groups;
     submitButton := true;
     Date_parse := isoDateParse;
     LocalTZA := -18000000;
     now := fun _ => noon_2026_11_02 |}.

(** ** What a pattern matches *)

(** The code unit before the position reached after reading [s]. *)
Fixpoint last_unit (prev : option N) (s : jsstring) : option N :=
  match s with
  | [] => prev
  | c :: s' => last_unit (Some c) s'
  end.

(** What a pattern matches, without reference to the order in which the
    matcher tries the alternatives: [matches r prev s rest] says that
    [r] matches the code units [s], when the unit before them is [prev]
    and the input continues with [rest]. *)
Inductive matches : regex -> option N -> jsstring -> jsstring -> Prop :=
| MClass (p : N -> bool) (prev : option N) (c : N) (rest : jsstring) :
    p c = true -> matches (Class p) prev [c] rest
| MEmpty (prev : option N) (rest : jsstring) : matches Empty prev [] rest
| MSeq (r1 r2 : regex) (prev : option N) (s1 s2 rest : jsstring) :
    matches r1 prev s1 (s2 ++ rest) ->
    matches r2 (last_unit prev s1) s2 rest ->
    matches (Seq r1 r2) prev (s1 ++ s2) rest
| MAltL (r1 r2 : regex) (prev : option N) (s rest : jsstring) :
    matches r1 prev s rest -> matches (Alt r1 r2) prev s rest
| MAltR (r1 r2 : regex) (prev : option N) (s rest : jsstring) :
    matches r2 prev s rest -> matches (Alt r1 r2) prev s rest
| MStarNil (r : regex) (prev : option N) (rest : jsstring) :
    matches (Star r) prev [] rest
| MStarCons (r : regex) (prev : option N) (s1 s2 rest : jsstring) :
    s1 <> [] ->
    matches r prev s1 (s2 ++ rest) ->
    matches (Star r) (last_unit prev s1) s2 rest ->
    matches (Star r) prev (s1 ++ s2) rest
| MBol (rest : jsstring) : matches Bol None [] rest
| MEol (prev : option N) : matches Eol prev [] []
| MWordBoundary (prev : option N) (rest : jsstring) :
    xorb (is_word prev) (is_word (hd_error rest)) = true ->
    matches WordBoundary prev [] rest.

(** The loop of the matcher on [Star r], for a matcher [m] of [r]. *)
Definition star_loop (m : option N -> jsstring -> (option N -> jsstring -> bool) -> bool)
           (k : option N -> jsstring -> bool) : nat -> option N -> jsstring -> bool :=
  fix star (fuel : nat) (prev : option N) (s : jsstring) {struct fuel} : bool :=
    match fuel with
    | O => k prev s
    | S fuel' =>
        m prev s (fun p' s' => Nat.ltb (length s') (length s) && star fuel' p' s')
        || k prev s
    end.

(** ** Further definitions of the statements *)

(** Whether [t] cannot continue a run of digits as a numeric literal:
    it is empty or starts with a code unit that is not a digit, a dot
    or an exponent indicator. *)
Definition ends_number (t : jsstring) : bool :=
  match t with
  | [] => true
  | c :: _ => negb (isDigit c || N.eqb c 46 || isExponentIndicator c)
  end.

(** Number of calls of the transport ([simulateSubmission]) so far. *)
Definition is_transport (c : Call) : bool :=
  match c with CallTransport => true | _ => false end.

Definition transport_calls (w : World) : nat :=
  length (filter is_transport (calls w)).

(** Number of success messages shown so far. *)
Definition is_success (c : Call) : bool :=
  match c with CallSuccessMessage => true | _ => false end.

Definition success_calls (w : World) : nat :=
  length (filter is_success (calls w)).

(** A document in which nothing is ticked and no file is chosen. *)
Definition nothing_selected (h : Host) : Prop :=
  (forall id el, getElementById h id = Some el ->
                 el_checked el = false /\ el_files el = []) /\
  (forall name el, In el (querySelectorAll_input_name h name) -> el_checked el = false).

(** Two registries with the same keys and the same validate
    functions, whatever the other members of their descriptors. *)
Definition same_validate (reg1 reg2 : JSMap RuleDescriptor) : Prop :=
  Forall2 (fun a b => fst a = fst b /\ validate (snd a) = validate (snd b)) reg1 reg2.

(** A form with an empty value in every control, nothing ticked and no
    file chosen. *)
Definition blank_element : Element :=
  {| el_value := []; el_checked := false; el_files := [] |}.

Definition blank_host : Host :=
  {| getElementById := fun _ => Some blank_element;
     querySelectorAll_input_name := fun _ => [blank_element; blank_element];
     submitButton := true;
     Date_parse := isoDateParse;
     LocalTZA := 0;
     now := fun _ => noon_2026_11_02 |}.

(* ================================================================== *)
(** * Part II: properties                                              *)
(* ================================================================== *)

Lemma Some_inj (A : Type) (a b : A) : Some a = Some b -> a = b.
Proof. intros H. injection H as H. exact H. Qed.

(** ** Strings *)

Lemma trimStart_length (s : jsstring) : (length (trimStart s) <= length s)%nat.
Proof.
  induction s as [|c s IH]; simpl; [lia|].
  destruct (isWhiteSpace c); simpl; lia.
Qed.

Lemma trimStart_same_length (s : jsstring) :
  length (trimStart s) = length s -> trimStart s = s.
Proof.
  destruct s as [|c s]; simpl; [reflexivity|].
  destruct (isWhiteSpace c); [|reflexivity].
  pose proof (trimStart_length s); lia.
Qed.

Lemma trimEnd_length (s : jsstring) : (length (trimEnd s) <= length s)%nat.
Proof.
  unfold trimEnd. rewrite length_rev.
  pose proof (trimStart_length (rev s)). rewrite length_rev in H. exact H.
Qed.

Lemma trimEnd_same_length (s : jsstring) :
  length (trimEnd s) = length s -> trimEnd s = s.
Proof.
  unfold trimEnd. rewrite length_rev. intros H.
  rewrite trimStart_same_length by (rewrite length_rev; exact H).
  apply rev_involutive.
Qed.

Lemma trim_length (s : jsstring) : (length (trim s) <= length s)%nat.
Proof.
  unfold trim. pose proof (trimEnd_length (trimStart s)).
  pose proof (trimStart_length s). lia.
Qed.

Lemma trim_same_length (s : jsstring) : length (trim s) = length s -> trim s = s.
Proof.
  unfold trim. intros H.
  pose proof (trimEnd_length (trimStart s)). pose proof (trimStart_length s).
  assert (E : trimStart s = s) by (apply trimStart_same_length; lia).
  rewrite E in *. apply trimEnd_same_length. exact H.
Qed.

Lemma isDigit_range (c : N) : isDigit c = true <-> (48 <= c <= 57)%N.
Proof.
  unfold isDigit, in_range. rewrite andb_true_iff, !N.leb_le. reflexivity.
Qed.

Lemma isDigit_cases (c : N) :
  isDigit c = true ->
  In c [48; 49; 50; 51; 52; 53; 54; 55; 56; 57]%N.
Proof.
  rewrite isDigit_range. intros H. simpl.
  assert (c = 48 \/ c = 49 \/ c = 50 \/ c = 51 \/ c = 52 \/ c = 53 \/ c = 54
          \/ c = 55 \/ c = 56 \/ c = 57)%N by lia.
  intuition.
Qed.

Lemma digit_not_space (c : N) : isDigit c = true -> isWhiteSpace c = false.
Proof.
  intros H. apply isDigit_cases in H. simpl in H.
  repeat (destruct H as [<- | H]; [reflexivity|]). contradiction.
Qed.

Lemma forallb_rev (A : Type) (f : A -> bool) (l : list A) :
  forallb f (rev l) = forallb f l.
Proof.
  induction l as [|a l IH]; simpl; [reflexivity|].
  rewrite forallb_app, IH. simpl. rewrite andb_true_r. apply andb_comm.
Qed.

Lemma trimStart_digits (s : jsstring) : forallb isDigit s = true -> trimStart s = s.
Proof.
  destruct s as [|c s]; simpl; [reflexivity|].
  intros H. apply andb_prop in H. destruct H as [H _].
  rewrite (digit_not_space _ H). reflexivity.
Qed.

Lemma trim_digits (s : jsstring) : forallb isDigit s = true -> trim s = s.
Proof.
  intros H. unfold trim, trimEnd. rewrite (trimStart_digits _ H).
  rewrite trimStart_digits by (rewrite forallb_rev; exact H).
  apply rev_involutive.
Qed.

(** ** Regular expressions *)

(** A pattern that starts with [^] only matches at the start. *)
Lemma rsearch_Bol_inside (r : regex) (c : N) (s : jsstring) :
  rsearch (Seq Bol r) (Some c) s = false.
Proof.
  revert c. induction s as [|d s IH]; intros c; simpl; [reflexivity|].
  apply IH.
Qed.

Lemma test_anchored (r : regex) (s : jsstring) :
  test (Seq Bol r) s = rmatch r None s (fun _ _ => true).
Proof.
  unfold test. destruct s as [|c s]; simpl.
  - apply orb_false_r.
  - rewrite rsearch_Bol_inside. apply orb_false_r.
Qed.

Lemma rmatch_Exactly_Eol (p : N -> bool) (n : nat) :
  forall prev s,
    rmatch (Exactly n (Class p)) prev s
           (fun p' s' => rmatch Eol p' s' (fun _ _ => true))
    = Nat.eqb (length s) n && forallb p s.
Proof.
  induction n as [|n IH]; intros prev s; simpl.
  - destruct s; reflexivity.
  - destruct s as [|c s]; simpl; [reflexivity|].
    rewrite IH. destruct (p c); simpl; [reflexivity|].
    apply eq_sym, andb_false_r.
Qed.

Lemma test_cedulaPattern (s : jsstring) :
  test cedulaPattern s = Nat.eqb (length s) 10 && forallb isDigit s.
Proof.
  unfold cedulaPattern. rewrite test_anchored.
  change (rmatch (Seq ?a ?b) ?p ?t ?k) with (rmatch a p t (fun p' s' => rmatch b p' s' k)).
  apply rmatch_Exactly_Eol.
Qed.

(** ** The national identity number *)

Lemma parseInt_two_digits (c0 c1 : N) :
  isDigit c0 = true -> isDigit c1 = true ->
  parseInt [c0; c1] = Some (10 * digit_val c0 + digit_val c1).
Proof.
  intros H0 H1. apply isDigit_cases in H0. apply isDigit_cases in H1.
  simpl in H0, H1.
  repeat (destruct H0 as [<- | H0]; [|]);
    try contradiction;
    repeat (destruct H1 as [<- | H1]; [reflexivity|]); contradiction.
Qed.

Lemma cedula_loop_step (n i : nat) (digits : list Z) (sum : Z) :
  cedula_loop (S n) i digits sum
  = cedula_loop n (S i) digits
                (sum + spec_adjust (nth i digits 0 * nth i coefficients 0)).
Proof. reflexivity. Qed.

Lemma Number_of_split (s : jsstring) :
  map Number_of_digit (split_chars s) = map digit_val s.
Proof.
  unfold split_chars. rewrite map_map. reflexivity.
Qed.

(** On ten digits the loop computes the checksum of the specification. *)
Lemma cedula_loop_checksum (ds : list Z) :
  length ds = 10%nat -> cedula_loop 9 0 ds 0 = spec_checksum ds.
Proof.
  intros H.
  do 11 (destruct ds as [|? ds]; try discriminate H).
  rewrite !cedula_loop_step. unfold spec_checksum.
  cbn [cedula_loop nth coefficients firstn combine map fold_right fst snd].
  ring.
Qed.

(** The validator on a string of ten digits. *)
Lemma validateCedula_digits (s : jsstring) :
  length s = 10%nat -> forallb isDigit s = true ->
  validateCedula s =
    let ds := map digit_val s in
    if (spec_province ds <? 1) || (24 <? spec_province ds)
    then Some msg_cedula_province
    else if negb (spec_verifier ds =? nth 9 ds 0) then Some msg_cedula_invalid
    else None.
Proof.
  intros Hlen Hdig. unfold validateCedula.
  rewrite (trim_digits _ Hdig), test_cedulaPattern, Hlen, Hdig.
  rewrite Number_of_split.
  rewrite cedula_loop_checksum by (rewrite length_map; exact Hlen).
  do 11 (destruct s as [|? s]; try discriminate Hlen).
  cbn [forallb] in Hdig.
  apply andb_prop in Hdig. destruct Hdig as [H0 Hdig].
  apply andb_prop in Hdig. destruct Hdig as [H1 _].
  cbn [truthy negb Nat.eqb andb substring0 firstn].
  rewrite (parseInt_two_digits _ _ H0 H1).
  reflexivity.
Qed.

(** A string of ten code units that are not all digits is rejected. *)
Lemma validateCedula_not_digits (s : jsstring) :
  length s = 10%nat -> forallb isDigit s = false -> validateCedula s <> None.
Proof.
  intros Hlen Hdig. unfold validateCedula.
  destruct (truthy (trim s)); cbn [negb]; [|discriminate].
  rewrite test_cedulaPattern.
  destruct (Nat.eqb (length (trim s)) 10) eqn:E; cbn [andb negb]; [|discriminate].
  apply Nat.eqb_eq in E.
  rewrite (trim_same_length s) by congruence.
  rewrite Hdig. discriminate.
Qed.

Lemma forallb_isDigit_Forall (s : jsstring) :
  forallb isDigit s = true <-> Forall (fun c => (48 <= c <= 57)%N) s.
Proof.
  rewrite forallb_forall, Forall_forall.
  split; intros H c Hc; apply isDigit_range, H, Hc.
Qed.

Lemma starts_with_two (a b : N) (s : jsstring) :
  starts_with [a; b] s = true -> exists r, s = a :: b :: r.
Proof.
  destruct s as [|x [|y r]]; simpl; try discriminate.
  - rewrite andb_false_r. discriminate.
  - rewrite andb_true_r. intros H. apply andb_prop in H. destruct H as [Ha Hb].
    apply N.eqb_eq in Ha, Hb. subst. exists r. reflexivity.
Qed.

(** C1.  A string of ten code units is accepted by [validateCedula]
    exactly when it is made of ten digits, its first two digits form a
    number between 1 and 24, and its tenth digit is the verifier of the
    specification computed from the first nine.  In particular a string
    that starts with 00 or with 25 is rejected whatever follows. *)
Theorem validateCedula_accepts_iff (s : jsstring) :
  length s = 10%nat ->
  (validateCedula s = None <-> spec_cedula_ok s) /\
  (starts_with (js "00") s = true \/ starts_with (js "25") s = true ->
   validateCedula s <> None).
Proof.
  intros Hlen.
  assert (Hiff : validateCedula s = None <-> spec_cedula_ok s).
  { unfold spec_cedula_ok. rewrite <- forallb_isDigit_Forall.
    destruct (forallb isDigit s) eqn:Hdig.
    - rewrite (validateCedula_digits s Hlen Hdig). cbv zeta.
      destruct (Z.ltb_spec (spec_province (map digit_val s)) 1);
        destruct (Z.ltb_spec 24 (spec_province (map digit_val s)));
        cbn [orb]; try (split; [discriminate | intros (_ & _ & ? & _); lia]).
      destruct (Z.eqb_spec (spec_verifier (map digit_val s))
                           (nth 9 (map digit_val s) 0)); cbn [negb].
      + split; [intros _; repeat split; try assumption; lia | reflexivity].
      + split; [discriminate | intros (_ & _ & _ & ?); contradiction].
    - split.
      + intros H. exfalso. exact (validateCedula_not_digits s Hlen Hdig H).
      + intros (_ & H & _). discriminate H. }
  split; [exact Hiff|].
  intros Hpre Hacc. apply Hiff in Hacc.
  destruct Hacc as (_ & _ & Hprov & _).
  destruct Hpre as [Hpre | Hpre]; apply starts_with_two in Hpre;
    destruct Hpre as [r ->]; cbn in Hprov; lia.
Qed.

Lemma validateCedula_accepts_iff_witness :
  (validateCedula (js "1712345675") = None <-> spec_cedula_ok (js "1712345675")) /\
  (starts_with (js "00") (js "1712345675") = true \/
   starts_with (js "25") (js "1712345675") = true ->
   validateCedula (js "1712345675") <> None).
Proof. apply (validateCedula_accepts_iff (js "1712345675")). reflexivity. Defined.

(** The number of the specification's test: the verifier of 171234567
    is 5, so 1712345678 fails and 1712345675 passes. *)
Example cedula_1712345678 :
  spec_verifier (map digit_val (js "171234567")) = 5 /\
  validateCedula (js "1712345678") = Some msg_cedula_invalid /\
  validateCedula (js "1712345675") = None /\
  validateCedula (js "0012345675") = Some msg_cedula_province /\
  validateCedula (js "2512345675") = Some msg_cedula_province.
Proof. repeat split; vm_compute; reflexivity. Qed.

(** ** The full name *)

Lemma rmatch_Star_Class (p : N -> bool) (k : option N -> jsstring -> bool)
      (prev : option N) (c : N) (s : jsstring) :
  rmatch (Star (Class p)) prev (c :: s) k
  = (p c && rmatch (Star (Class p)) (Some c) s k) || k prev (c :: s).
Proof.
  cbn [rmatch length].
  replace (Nat.ltb (length s) (S (length s))) with true
    by (symmetry; apply Nat.ltb_lt; lia).
  reflexivity.
Qed.

Lemma rmatch_Star_Class_Eol (p : N -> bool) (s : jsstring) :
  forall prev,
    rmatch (Star (Class p)) prev s (fun p' s' => rmatch Eol p' s' (fun _ _ => true))
    = forallb p s.
Proof.
  induction s as [|c s IH]; intros prev.
  - reflexivity.
  - rewrite rmatch_Star_Class, IH. cbn [rmatch forallb]. apply orb_false_r.
Qed.

Lemma test_namePattern (s : jsstring) :
  test namePattern s = truthy s && forallb isNameChar s.
Proof.
  unfold namePattern, Plus. rewrite test_anchored.
  change (rmatch (Seq ?a ?b) ?p ?t ?k) with (rmatch a p t (fun p' s' => rmatch b p' s' k)).
  change (rmatch (Seq ?a ?b) ?p ?t ?k) with (rmatch a p t (fun p' s' => rmatch b p' s' k)).
  destruct s as [|c s]; [reflexivity|].
  change (rmatch (Class ?q) ?pv (c :: s) ?k) with (q c && k (Some c) s).
  cbv beta. rewrite rmatch_Star_Class_Eol. reflexivity.
Qed.

Lemma split_unit_length (sep : N) (s : jsstring) :
  length (split_unit sep s) = S (length (filter (N.eqb sep) s)).
Proof.
  induction s as [|c s IH]; [reflexivity|].
  cbn [split_unit filter]. rewrite (N.eqb_sym sep c).
  destruct (N.eqb c sep); cbn [length]; [rewrite IH; reflexivity|].
  destruct (split_unit sep s); cbn [length] in *; [discriminate IH | exact IH].
Qed.

Lemma split_unit_short (sep : N) (s : jsstring) :
  (length (split_unit sep s) <? 2)%nat = negb (existsb (N.eqb sep) s).
Proof.
  rewrite split_unit_length.
  induction s as [|c s IH]; [reflexivity|].
  cbn [filter existsb]. destruct (N.eqb sep c); cbn [orb length negb].
  - reflexivity.
  - exact IH.
Qed.

Lemma truthy_trim (s : jsstring) : truthy (trim s) = true -> truthy s = true.
Proof.
  destruct s; [discriminate|reflexivity].
Qed.

(** The code units at both ends of a trimmed string are not white space. *)
Lemma trimStart_head (s : jsstring) (c : N) (r : jsstring) :
  trimStart s = c :: r -> isWhiteSpace c = false.
Proof.
  induction s as [|d s IH]; simpl; [discriminate|].
  destruct (isWhiteSpace d) eqn:E; [exact IH|].
  intros H. injection H as -> _. exact E.
Qed.

Lemma trimStart_suffix (s : jsstring) : exists p, s = p ++ trimStart s.
Proof.
  induction s as [|c s [p IH]]; simpl.
  - exists []. reflexivity.
  - destruct (isWhiteSpace c).
    + exists (c :: p). simpl. rewrite <- IH. reflexivity.
    + exists []. reflexivity.
Qed.

Lemma trimEnd_prefix (s : jsstring) : exists q, s = trimEnd s ++ q.
Proof.
  unfold trimEnd. destruct (trimStart_suffix (rev s)) as [p H].
  exists (rev p). rewrite <- rev_app_distr, <- H. symmetry. apply rev_involutive.
Qed.

Lemma trimEnd_last (s r : jsstring) (c : N) :
  trimEnd s = r ++ [c] -> isWhiteSpace c = false.
Proof.
  unfold trimEnd. intros H.
  apply (f_equal (@rev N)) in H. rewrite rev_involutive, rev_app_distr in H.
  simpl in H. exact (trimStart_head _ _ _ H).
Qed.

Lemma trim_head (s : jsstring) (c : N) (r : jsstring) :
  trim s = c :: r -> isWhiteSpace c = false.
Proof.
  unfold trim. intros H.
  destruct (trimEnd_prefix (trimStart s)) as [q Hq].
  rewrite H in Hq. simpl in Hq. exact (trimStart_head _ _ _ Hq).
Qed.

Lemma trim_last (s r : jsstring) (c : N) :
  trim s = r ++ [c] -> isWhiteSpace c = false.
Proof. unfold trim. apply trimEnd_last. Qed.

Lemma count_tokens_app_space (a r : jsstring) (w : N) (inside : bool) :
  isWhiteSpace w = true ->
  count_tokens inside (a ++ w :: r)
  = (count_tokens inside a + count_tokens false r)%nat.
Proof.
  intros Hw. revert inside. induction a as [|c a IH]; intros inside; simpl.
  - rewrite Hw. reflexivity.
  - destruct (isWhiteSpace c); rewrite IH; lia.
Qed.

Lemma count_tokens_last (r : jsstring) (c : N) :
  isWhiteSpace c = false -> (1 <= count_tokens false (r ++ [c]))%nat.
Proof.
  intros Hc. induction r as [|d r IH]; simpl.
  - rewrite Hc. simpl. lia.
  - destruct (isWhiteSpace d); [exact IH|]. simpl. lia.
Qed.

(** A trimmed string with a space inside has two tokens or more. *)
Lemma space_gives_two_tokens (s : jsstring) :
  existsb (N.eqb 32) (trim s) = true ->
  (2 <= count_tokens false (trim s))%nat.
Proof.
  intros H. apply existsb_exists in H. destruct H as (x & Hin & Hx).
  apply N.eqb_eq in Hx. subst x.
  apply in_split in Hin. destruct Hin as (a & r & E).
  rewrite E. rewrite count_tokens_app_space by reflexivity.
  assert (Ha : (1 <= count_tokens false a)%nat).
  { destruct a as [|c a].
    - simpl in E. apply trim_head in E. discriminate E.
    - simpl in E. apply trim_head in E. simpl. rewrite E. simpl. lia. }
  assert (Hr : (1 <= count_tokens false r)%nat).
  { destruct (exists_last (l := r)) as (r' & c & ->).
    - intros ->. change (trim s = a ++ [32%N]) in E.
      apply trim_last in E. discriminate E.
    - apply count_tokens_last.
      change (a ++ 32%N :: r' ++ [c]) with (a ++ (32%N :: r') ++ [c]) in E.
      rewrite app_assoc in E. exact (trim_last _ _ _ E). }
  lia.
Qed.

(** A name whose two tokens are separated by a tab passes the four
    checks of the specification, yet [validateFullName] rejects it with
    the message of the fourth check.  With "spaces" read as the space
    character alone, the specification would return the message of the
    third check instead: the results differ under both readings. *)
Example validateFullName_tab_both_readings :
  let value := js "Juan" ++ [9%N] ++ js "Perez" in
  spec_validateFullName value = None /\
  count_tokens false (trim value) = 2%nat /\
  validateFullName value = Some msg_name_surname /\
  validateFullName value <> spec_validateFullName value /\
  spec_validateFullName_spaces value = Some msg_name_letters /\
  validateFullName value <> spec_validateFullName_spaces value.
Proof. cbv zeta. repeat apply conj; vm_compute; congruence. Qed.

(** The four checks of [validateFullName], in order: the trimmed value
    is not empty; it has two code units or more; every code unit of the
    untrimmed value is a letter, an accented letter or white space; the
    trimmed value contains a space character.  Every string it accepts
    has two tokens or more separated by white space. *)
Lemma validateFullName_checks (value : jsstring) :
  validateFullName value =
    (if negb (truthy (trim value)) then Some msg_name_required
     else if (length (trim value) <? 2)%nat then Some msg_name_short
     else if negb (forallb isNameChar value) then Some msg_name_letters
     else if negb (existsb (N.eqb 32) (trim value)) then Some msg_name_surname
     else None)
  /\ (validateFullName value = None ->
      (2 <= count_tokens false (trim value))%nat).
Proof.
  assert (E : validateFullName value =
    (if negb (truthy (trim value)) then Some msg_name_required
     else if (length (trim value) <? 2)%nat then Some msg_name_short
     else if negb (forallb isNameChar value) then Some msg_name_letters
     else if negb (existsb (N.eqb 32) (trim value)) then Some msg_name_surname
     else None)).
  { unfold validateFullName.
    rewrite test_namePattern, split_unit_short.
    destruct (truthy (trim value)) eqn:Ht; cbn [negb]; [|reflexivity].
    rewrite (truthy_trim _ Ht). reflexivity. }
  split; [exact E|].
  rewrite E. intros H. apply space_gives_two_tokens.
  destruct (negb (truthy (trim value))); [discriminate|].
  destruct (length (trim value) <? 2)%nat; [discriminate|].
  destruct (negb (forallb isNameChar value)); [discriminate|].
  destruct (existsb (N.eqb 32) (trim value)); [reflexivity|discriminate].
Qed.

(** C7.  [validateFullName] and the rule of the specification give the
    same result on every value but those that pass the four checks of
    the specification and hold no space character once trimmed: a name
    and a surname separated by other white space only (a tab, a
    no-break space, a line break), which the pattern of the third check
    admits.  [validateFullName] rejects these with the message of the
    fourth check, because [split(' ')] splits at the space character
    alone.  It never accepts a value that the specification rejects. *)
Theorem validateFullName_splits_at_space_only (value : jsstring) :
  (validateFullName value <> spec_validateFullName value <->
   spec_validateFullName value = None /\ existsb (N.eqb 32) (trim value) = false) /\
  (spec_validateFullName value = None ->
   existsb (N.eqb 32) (trim value) = false ->
   validateFullName value = Some msg_name_surname /\
   forallb isNameChar value = true /\
   (2 <= count_tokens false (trim value))%nat) /\
  (validateFullName value = None -> spec_validateFullName value = None).
Proof.
  destruct (validateFullName_checks value) as [E _].
  pose proof (space_gives_two_tokens value) as Htok.
  rewrite E. unfold spec_validateFullName.
  destruct (negb (truthy (trim value)));
    [split; [split; [congruence | intros [? _]; discriminate]
            | split; intros; discriminate]|].
  destruct (length (trim value) <? 2)%nat;
    [split; [split; [congruence | intros [? _]; discriminate]
            | split; intros; discriminate]|].
  destruct (forallb isNameChar value); cbn [negb];
    [|split; [split; [congruence | intros [? _]; discriminate]
             | split; intros; discriminate]].
  destruct (existsb (N.eqb 32) (trim value)); cbn [negb].
  - specialize (Htok eq_refl). apply Nat.ltb_ge in Htok. rewrite Htok.
    split; [split; [congruence | intros [_ ?]; discriminate]|].
    split; [intros _ ?; discriminate | reflexivity].
  - destruct (Nat.ltb_spec (count_tokens false (trim value)) 2) as [Hc | Hc].
    + split; [split; [congruence | intros [? _]; discriminate]|].
      split; intros; discriminate.
    + split; [split; [intros _; split; reflexivity | intros _; discriminate]|].
      split; [intros _ _; repeat split; exact Hc | intros; discriminate].
Qed.

Lemma validateFullName_splits_at_space_only_witness :
  let value := js "Juan" ++ [9%N] ++ js "Perez" in
  spec_validateFullName value = None /\
  validateFullName value = Some msg_name_surname /\
  forallb isNameChar value = true /\
  (2 <= count_tokens false (trim value))%nat.
Proof.
  cbv zeta. split; [reflexivity|].
  apply (proj1 (proj2 (validateFullName_splits_at_space_only
                         (js "Juan" ++ [9%N] ++ js "Perez"))));
    reflexivity.
Defined.

(** The message that surfaces is the one of the first failing check. *)
Example validateFullName_order :
  validateFullName (js "   ") = Some msg_name_required /\
  validateFullName (js " 7 ") = Some msg_name_short /\
  validateFullName (js "J1") = Some msg_name_letters /\
  validateFullName (js "Juan") = Some msg_name_surname /\
  validateFullName (js "Juan  Pérez") = None.
Proof. repeat split. Qed.

(** ** Numbers *)

Lemma iter_shr_invariant (A : Type) (P : A -> Prop) (f : A -> A) :
  (forall x, P x -> P (f x)) ->
  forall p x, P x -> P (iter_pos f p x).
Proof.
  intros Hf. induction p as [p IH|p IH|]; intros x Hx; simpl; auto.
Qed.

Lemma shr_1_nonneg (mrs : shr_record) : 0 <= shr_m mrs -> 0 <= shr_m (shr_1 mrs).
Proof.
  destruct mrs as [m r s]. destruct m as [|[p|p|]|[p|p|]]; simpl; lia.
Qed.

Lemma shr_fexp_nonneg (m e : Z) (l : location) :
  0 <= m -> 0 <= shr_m (fst (shr_fexp prec emax m e l)).
Proof.
  intros Hm. unfold shr_fexp, shr.
  assert (H0 : 0 <= shr_m (shr_record_of_loc m l))
    by (destruct l as [|[| |]]; exact Hm).
  destruct (fexp prec emax (Zdigits2 m + e) - e) as [|p|p]; cbn [fst]; try exact H0.
  apply (iter_shr_invariant _ (fun mrs => 0 <= shr_m mrs)); [exact shr_1_nonneg | exact H0].
Qed.

Lemma round_nearest_even_nonneg (m : Z) (l : location) :
  0 <= m -> 0 <= round_nearest_even m l.
Proof.
  intros Hm. destruct l as [|[| |]]; simpl; try lia.
  destruct (Z.even m); lia.
Qed.

(** Rounding keeps the sign and never produces [NaN]. *)
Lemma binary_round_aux_sign (sx : bool) (mx ex : Z) (lx : location) :
  0 <= mx -> has_sign sx (binary_round_aux prec emax sx mx ex lx).
Proof.
  intros Hm. unfold binary_round_aux.
  pose proof (shr_fexp_nonneg mx ex lx Hm) as H1.
  destruct (shr_fexp prec emax mx ex lx) as [mrs' e'].
  cbn [fst] in H1.
  pose proof (round_nearest_even_nonneg (shr_m mrs') (loc_of_shr_record mrs') H1) as H2.
  pose proof (shr_fexp_nonneg _ e' loc_Exact H2) as H3.
  destruct (shr_fexp prec emax (round_nearest_even (shr_m mrs') (loc_of_shr_record mrs'))
                     e' loc_Exact) as [mrs'' e''].
  cbn [fst] in H3.
  destruct (shr_m mrs'') as [|m|m].
  - left. reflexivity.
  - destruct (e'' <=? emax - prec).
    + right. right. exists m, e''. reflexivity.
    + right. left. reflexivity.
  - lia.
Qed.

Lemma binary_round_sign (sx : bool) (mx : positive) (ex : Z) :
  has_sign sx (binary_round prec emax sx mx ex).
Proof.
  unfold binary_round.
  destruct (shl_align mx ex (fexp prec emax (Z.pos (digits2_pos mx) + ex))) as [mz ez].
  apply binary_round_aux_sign. lia.
Qed.

Lemma SFdiv_sign (sx : bool) (mx my : positive) :
  has_sign sx (SFdiv prec emax (S754_finite sx mx 0) (S754_finite false my 0)).
Proof.
  unfold SFdiv, SFdiv_core_binary.
  set (m' := match _ - _ - _ with Z.pos _ => _ | Z0 => _ | Z.neg _ => _ end).
  assert (Hm' : 0 <= m').
  { subst m'. destruct (0 - 0 - _); try lia. apply Z.shiftl_nonneg. lia. }
  pose proof (Z.div_pos m' (Z.pos my) Hm' eq_refl) as Hq.
  unfold Z.div in Hq.
  destruct (Z.div_eucl m' (Z.pos my)) as [q r].
  rewrite xorb_false_r. apply binary_round_aux_sign. exact Hq.
Qed.

Lemma round_decimal_sign (d : decimal) : has_sign (decimal_neg d) (round_decimal d).
Proof.
  destruct d as [neg | neg m e]; cbn [decimal_neg round_decimal].
  - right. left. reflexivity.
  - destruct m as [|pm|pm]; try (left; reflexivity).
    destruct (0 <=? e) eqn:He.
    + apply Z.leb_le in He.
      assert (Hpos : 0 < Z.pos pm * 10 ^ e)
        by (apply Z.mul_pos_pos; [lia | apply Z.pow_pos_nonneg; lia]).
      unfold binary_normalize.
      destruct neg.
      * destruct (- (Z.pos pm * 10 ^ e)) eqn:E; try lia. apply binary_round_sign.
      * destruct (Z.pos pm * 10 ^ e) eqn:E; try lia. apply binary_round_sign.
    + apply SFdiv_sign.
Qed.

Lemma has_sign_not_nan (neg : bool) (x : spec_float) : has_sign neg x -> isNaN x = false.
Proof.
  intros [-> | [-> | (m & e & ->)]]; reflexivity.
Qed.

(** [x < 0] holds for the negative numbers that are not a zero. *)
Lemma has_sign_lt_zero (neg : bool) (x : spec_float) :
  has_sign neg x -> SFltb x (NumberLit 0) = neg && negb (is_zero x).
Proof.
  intros [-> | [-> | (m & e & ->)]]; destruct neg; reflexivity.
Qed.

(** ** Integers as Numbers *)

Lemma digits2_pos_bounds (p : positive) :
  2 ^ (Z.pos (digits2_pos p) - 1) <= Z.pos p < 2 ^ Z.pos (digits2_pos p).
Proof.
  induction p as [p IH | p IH |]; cbn [digits2_pos].
  - rewrite Pos2Z.inj_succ.
    replace (Z.succ (Z.pos (digits2_pos p)) - 1) with (Z.succ (Z.pos (digits2_pos p) - 1))
      by lia.
    rewrite !Z.pow_succ_r by lia. lia.
  - rewrite Pos2Z.inj_succ.
    replace (Z.succ (Z.pos (digits2_pos p)) - 1) with (Z.succ (Z.pos (digits2_pos p) - 1))
      by lia.
    rewrite !Z.pow_succ_r by lia. lia.
  - simpl. lia.
Qed.

Lemma iter_xO_spec (p k : positive) :
  Z.pos (Pos.iter xO p k) = Z.pos p * 2 ^ Z.pos k /\
  Z.pos (digits2_pos (Pos.iter xO p k)) = Z.pos (digits2_pos p) + Z.pos k.
Proof.
  apply (Pos.iter_ind _ xO p
           (fun k r => Z.pos r = Z.pos p * 2 ^ Z.pos k /\
                       Z.pos (digits2_pos r) = Z.pos (digits2_pos p) + Z.pos k)).
  - cbn [digits2_pos]. rewrite Pos2Z.inj_succ. split; lia.
  - intros q r [H1 H2]. cbn [digits2_pos].
    rewrite !Pos2Z.inj_succ, Pos2Z.inj_xO, H1, H2, Z.pow_succ_r by lia.
    split; lia.
Qed.

Lemma shr_1_half (mrs : shr_record) :
  0 <= shr_m mrs -> shr_m (shr_1 mrs) = shr_m mrs / 2.
Proof.
  destruct mrs as [m r s]. destruct m as [|[p|p|]|p]; cbn [shr_m shr_1]; intros H;
    try lia; try reflexivity.
  - rewrite Pos2Z.inj_xI. Z.div_mod_to_equations. lia.
  - rewrite Pos2Z.inj_xO. Z.div_mod_to_equations. lia.
Qed.

Lemma shr_m_iter (q : positive) :
  forall mrs, 0 <= shr_m mrs ->
              shr_m (iter_pos shr_1 q mrs) = shr_m mrs / 2 ^ Z.pos q.
Proof.
  induction q as [q IH | q IH |]; intros mrs Hm; cbn [iter_pos].
  - pose proof (shr_1_nonneg mrs Hm) as H1.
    pose proof (iter_shr_invariant _ (fun x => 0 <= shr_m x) shr_1 shr_1_nonneg
                                   q _ H1) as H2.
    rewrite IH, IH, shr_1_half by assumption.
    rewrite !Z.div_div
      by (pose proof (Z.pow_pos_nonneg 2 (Z.pos q) ltac:(lia) ltac:(lia)); lia).
    f_equal. replace (Z.pos q~1) with (Z.pos q + Z.pos q + 1) by lia.
    rewrite !Z.pow_add_r by lia. change (2 ^ 1) with 2. ring.
  - pose proof (iter_shr_invariant _ (fun x => 0 <= shr_m x) shr_1 shr_1_nonneg
                                   q _ Hm) as H2.
    rewrite IH, IH by assumption.
    rewrite !Z.div_div
      by (pose proof (Z.pow_pos_nonneg 2 (Z.pos q) ltac:(lia) ltac:(lia)); lia).
    f_equal. replace (Z.pos q~0) with (Z.pos q + Z.pos q) by lia.
    rewrite Z.pow_add_r by lia. reflexivity.
  - rewrite shr_1_half by assumption. reflexivity.
Qed.

Lemma shr_record_of_loc_m (m : Z) (l : location) : shr_m (shr_record_of_loc m l) = m.
Proof. destruct l as [|[| |]]; reflexivity. Qed.

(** The shift of [shr_fexp] keeps a positive mantissa positive, and the
    exponent it returns is the larger of the exponent it was given and
    the canonical exponent. *)
Lemma shr_fexp_props (m e : Z) (l : location) :
  0 < m -> -1074 <= e ->
  0 < shr_m (fst (shr_fexp prec emax m e l)) /\
  snd (shr_fexp prec emax m e l) = Z.max e (fexp prec emax (Zdigits2 m + e)).
Proof.
  intros Hm He. unfold shr_fexp, shr.
  destruct m as [|p|p]; try lia. cbn [Zdigits2].
  pose proof (digits2_pos_bounds p) as Hd.
  set (d := Z.pos (digits2_pos p)) in *.
  assert (Hfexp : fexp prec emax (d + e) = Z.max (d + e - 53) (-1074)) by reflexivity.
  destruct (fexp prec emax (d + e) - e) as [|q|q] eqn:Hn; cbn [fst snd].
  - rewrite shr_record_of_loc_m. split; lia.
  - rewrite shr_m_iter by (rewrite shr_record_of_loc_m; lia).
    rewrite shr_record_of_loc_m.
    assert (Hq : Z.pos q = d - 53) by lia.
    split; [|lia].
    apply Z.lt_le_trans with (2 ^ 52); [reflexivity|].
    apply Z.div_le_lower_bound; [apply Z.pow_pos_nonneg; lia|].
    rewrite <- Z.pow_add_r by lia.
    replace (Z.pos q + 52) with (d - 1) by lia. lia.
  - rewrite shr_record_of_loc_m. split; lia.
Qed.

Lemma round_nearest_even_pos (m : Z) (l : location) :
  0 < m -> 0 < round_nearest_even m l.
Proof.
  intros Hm. destruct l as [|[| |]]; simpl; try lia.
  destruct (Z.even m); lia.
Qed.

(** Rounding a positive mantissa gives an infinity or a finite number
    with a positive mantissa and an exponent that did not decrease. *)
Lemma binary_round_aux_pos (sx : bool) (mx ex : Z) (lx : location) :
  0 < mx -> -1074 <= ex ->
  binary_round_aux prec emax sx mx ex lx = S754_infinity sx \/
  exists m e, binary_round_aux prec emax sx mx ex lx = S754_finite sx m e /\
              Z.max ex (fexp prec emax (Zdigits2 mx + ex)) <= e.
Proof.
  intros Hm He. unfold binary_round_aux.
  pose proof (shr_fexp_props mx ex lx Hm He) as [H1 H1e].
  destruct (shr_fexp prec emax mx ex lx) as [mrs' e']. cbn [fst snd] in H1, H1e.
  pose proof (round_nearest_even_pos (shr_m mrs') (loc_of_shr_record mrs') H1) as H2.
  assert (He' : -1074 <= e') by lia.
  pose proof (shr_fexp_props _ e' loc_Exact H2 He') as [H3 H3e].
  destruct (shr_fexp prec emax (round_nearest_even (shr_m mrs') (loc_of_shr_record mrs'))
                     e' loc_Exact) as [mrs'' e''].
  cbn [fst snd] in H3, H3e.
  destruct (shr_m mrs'') as [|m|m]; try lia.
  destruct (e'' <=? emax - prec).
  - right. exists m, e''. split; [reflexivity | lia].
  - left. reflexivity.
Qed.

(** An integer of at most 53 binary digits is represented exactly, with
    its mantissa shifted to 53 digits. *)
Lemma binary_round_small (sx : bool) (p : positive) :
  Z.pos (digits2_pos p) <= 53 ->
  exists m,
    binary_round prec emax sx p 0 = S754_finite sx m (Z.pos (digits2_pos p) - 53) /\
    Z.pos m = Z.pos p * 2 ^ (53 - Z.pos (digits2_pos p)).
Proof.
  intros Hd. unfold binary_round.
  set (d := Z.pos (digits2_pos p)) in *.
  assert (Hd1 : 1 <= d) by (subst d; lia).
  replace (fexp prec emax (d + 0)) with (d - 53)
    by (unfold fexp, emin, prec, emax; lia).
  assert (Hal : exists m, shl_align p 0 (d - 53) = (m, d - 53) /\
                          Z.pos m = Z.pos p * 2 ^ (53 - d) /\
                          Z.pos (digits2_pos m) = 53).
  { unfold shl_align. destruct (d - 53 - 0) as [|q|q] eqn:Hq; try lia.
    - exists p. replace (d - 53) with 0 by lia. replace (53 - d) with 0 by lia.
      repeat split; [lia | subst d; lia].
    - exists (Pos.iter xO p q). destruct (iter_xO_spec p q) as [E1 E2].
      replace (53 - d) with (Z.pos q) by lia.
      repeat split; [exact E1 | fold d in E2; lia]. }
  destruct Hal as (m & -> & Hm & Hdm). exists m. split; [|exact Hm].
  unfold binary_round_aux, shr_fexp. cbn [Zdigits2]. rewrite Hdm.
  replace (fexp prec emax (53 + (d - 53)) - (d - 53)) with 0
    by (unfold fexp, emin, prec, emax; lia).
  cbn [shr shr_record_of_loc shr_m loc_of_shr_record round_nearest_even Zdigits2].
  rewrite Hdm.
  replace (fexp prec emax (53 + (d - 53)) - (d - 53)) with 0
    by (unfold fexp, emin, prec, emax; lia).
  cbn [shr shr_record_of_loc shr_m].
  replace (d - 53 <=? emax - prec) with true
    by (symmetry; apply Z.leb_le; unfold emax, prec; lia).
  reflexivity.
Qed.

Lemma binary_round_large (sx : bool) (p : positive) :
  53 < Z.pos (digits2_pos p) ->
  binary_round prec emax sx p 0 = S754_infinity sx \/
  exists m e, binary_round prec emax sx p 0 = S754_finite sx m e /\ 1 <= e.
Proof.
  intros Hd. unfold binary_round.
  set (d := Z.pos (digits2_pos p)) in *.
  replace (fexp prec emax (d + 0)) with (d - 53)
    by (unfold fexp, emin, prec, emax; lia).
  unfold shl_align. destruct (d - 53 - 0) as [|q|q] eqn:Hq; try lia.
  destruct (binary_round_aux_pos sx (Z.pos p) 0 loc_Exact) as [H | (m & e & H & He)];
    try lia; [left; exact H|].
  right. exists m, e. split; [exact H|].
  cbn [Zdigits2] in He. fold d in He.
  replace (fexp prec emax (d + 0)) with (d - 53) in He
    by (unfold fexp, emin, prec, emax; lia).
  lia.
Qed.

Lemma NumberLit_million : NumberLit 1000000 = S754_finite false 8589934592000000 (-33).
Proof. reflexivity. Qed.

(** Comparison of an integer, read as a Number, with 1000000. *)
Lemma NumberLit_gt_million (n : Z) :
  0 <= n -> SFltb (NumberLit 1000000) (NumberLit n) = (1000000 <? n).
Proof.
  intros Hn. rewrite NumberLit_million. unfold NumberLit, binary_normalize.
  destruct n as [|p|p]; [reflexivity | | lia].
  pose proof (digits2_pos_bounds p) as Hb.
  destruct (Z_le_gt_dec (Z.pos (digits2_pos p)) 53) as [Hd | Hd].
  - destruct (binary_round_small false p Hd) as (m & -> & Hm).
    set (d := Z.pos (digits2_pos p)) in *.
    unfold SFltb, SFcompare.
    destruct (Z.compare_spec (-33) (d - 53)) as [He | He | He].
    + replace (53 - d) with 33 in Hm by lia. change (2 ^ 33) with 8589934592 in Hm.
      change (Pos.compare_cont Eq ?a ?b) with (Pos.compare a b).
      set (million := 8589934592000000%positive) in *.
      assert (Hmil : Z.pos million = 8589934592000000) by reflexivity.
      clearbody million.
      destruct (Pos.compare million m) eqn:Hc; symmetry.
      * apply Pos.compare_eq_iff in Hc. apply Z.ltb_ge. lia.
      * assert (Z.pos million < Z.pos m) by (apply Pos2Z.pos_lt_pos; exact Hc).
        apply Z.ltb_lt. lia.
      * apply Pos.compare_gt_iff in Hc.
        assert (Z.pos m < Z.pos million) by (apply Pos2Z.pos_lt_pos; exact Hc).
        apply Z.ltb_ge. lia.
    + symmetry. apply Z.ltb_lt.
      assert (2 ^ 20 <= 2 ^ (d - 1)) by (apply Z.pow_le_mono_r; lia).
      change (2 ^ 20) with 1048576 in *. lia.
    + symmetry. apply Z.ltb_ge.
      assert (2 ^ d <= 2 ^ 19) by (apply Z.pow_le_mono_r; lia).
      change (2 ^ 19) with 524288 in *. lia.
  - assert (Hbig : 1000000 < Z.pos p).
    { assert (2 ^ 20 <= 2 ^ (Z.pos (digits2_pos p) - 1))
        by (apply Z.pow_le_mono_r; lia).
      change (2 ^ 20) with 1048576 in *. lia. }
    replace (1000000 <? Z.pos p) with true by (symmetry; apply Z.ltb_lt; exact Hbig).
    destruct (binary_round_large false p) as [-> | (m & e & -> & He)]; [lia | reflexivity|].
    unfold SFltb, SFcompare.
    destruct (Z.compare_spec (-33) e); first [reflexivity | lia].
Qed.

(** A positive integer never rounds to a zero. *)
Lemma binary_round_not_zero (sx : bool) (p : positive) :
  is_zero (binary_round prec emax sx p 0) = false.
Proof.
  destruct (Z_le_gt_dec (Z.pos (digits2_pos p)) 53) as [Hd | Hd].
  - destruct (binary_round_small sx p Hd) as (m & -> & _). reflexivity.
  - destruct (binary_round_large sx p) as [-> | (m & e & -> & _)];
      [lia | reflexivity | reflexivity].
Qed.

Lemma take_digits_all (s : jsstring) :
  forallb isDigit s = true -> take_digits s = (s, []).
Proof.
  induction s as [|c s IH]; cbn [forallb take_digits]; [reflexivity|].
  intros H. apply andb_prop in H. destruct H as [Hc Hs].
  rewrite Hc, (IH Hs). reflexivity.
Qed.

Lemma digits_value_nonneg (s : jsstring) :
  forallb isDigit s = true -> 0 <= digits_value s.
Proof.
  unfold digits_value.
  assert (H : forall acc, 0 <= acc -> forallb isDigit s = true ->
                          0 <= fold_left (fun a c => 10 * a + digit_val c) s acc).
  { induction s as [|c s IH]; intros acc Hacc Hd; cbn [fold_left]; [exact Hacc|].
    cbn [forallb] in Hd. apply andb_prop in Hd. destruct Hd as [Hc Hs].
    apply IH; [|exact Hs]. apply isDigit_range in Hc. unfold digit_val. lia. }
  apply H. lia.
Qed.

(** A string of digits is a numeric literal whose value is its value
    in base ten. *)
Lemma StrDecimalLiteral_digits (neg : bool) (s : jsstring) :
  s <> [] -> forallb isDigit s = true ->
  StrDecimalLiteral_prefix (if neg then 45%N :: s else s)
  = Some (DecFinite neg (digits_value s) 0).
Proof.
  intros Hne Hd. destruct s as [|c s]; [contradiction|].
  assert (Hc : isDigit c = true) by (cbn [forallb] in Hd; apply andb_prop in Hd; tauto).
  assert (Hsign : strip_sign (if neg then 45%N :: c :: s else c :: s) = (neg, c :: s)).
  { destruct neg; [reflexivity|]. unfold strip_sign.
    apply isDigit_range in Hc.
    destruct (N.eqb_spec c 45); [lia|]. destruct (N.eqb_spec c 43); [lia|]. reflexivity. }
  assert (Hinf : starts_with (js "Infinity") (c :: s) = false).
  { change (js "Infinity") with [73; 110; 102; 105; 110; 105; 116; 121]%N.
    cbn [starts_with]. apply isDigit_range in Hc.
    destruct (N.eqb_spec 73 c); [lia | reflexivity]. }
  unfold StrDecimalLiteral_prefix. rewrite Hsign, Hinf, (take_digits_all _ Hd).
  cbn [exponent_part length Z.of_nat]. rewrite app_nil_r. reflexivity.
Qed.

Lemma trimStart_digit_head (neg : bool) (s : jsstring) :
  s <> [] -> forallb isDigit s = true ->
  trimStart (if neg then 45%N :: s else s) = (if neg then 45%N :: s else s).
Proof.
  intros Hne Hd. destruct neg; [reflexivity|]. apply trimStart_digits. exact Hd.
Qed.

Lemma parseFloat_digits (neg : bool) (s : jsstring) :
  s <> [] -> forallb isDigit s = true ->
  parseFloat (if neg then 45%N :: s else s)
  = binary_normalize prec emax
                     (if neg then - digits_value s else digits_value s) 0 neg.
Proof.
  intros Hne Hd. unfold parseFloat.
  rewrite (trimStart_digit_head neg s Hne Hd), (StrDecimalLiteral_digits neg s Hne Hd).
  cbn [round_decimal]. pose proof (digits_value_nonneg s Hd) as Hn.
  destruct (digits_value s) as [|p|p]; [destruct neg; reflexivity | | lia].
  cbn [Z.leb Z.compare]. rewrite Z.pow_0_r, Z.mul_1_r. reflexivity.
Qed.

(** ** The salary *)

(** On a string of digits, with or without a minus sign. *)
Lemma validateSalary_integers (s : jsstring) :
  s <> [] -> forallb isDigit s = true ->
  validateSalary s
  = (if digits_value s <=? 1000000 then None else Some msg_salary_high) /\
  validateSalary (45%N :: s)
  = (if digits_value s =? 0 then None else Some msg_salary_negative).
Proof.
  intros Hne Hd. pose proof (digits_value_nonneg s Hd) as Hn.
  pose proof (parseFloat_digits false s Hne Hd) as Hpos.
  pose proof (parseFloat_digits true s Hne Hd) as Hneg.
  cbv iota in Hpos, Hneg. split.
  - unfold validateSalary. rewrite Hpos. fold (NumberLit (digits_value s)).
    rewrite (NumberLit_gt_million _ Hn).
    assert (Hs : has_sign false (NumberLit (digits_value s))).
    { unfold NumberLit, binary_normalize.
      destruct (digits_value s) as [|p|p]; [left; reflexivity | | lia].
      apply binary_round_sign. }
    rewrite (has_sign_not_nan _ _ Hs), (has_sign_lt_zero _ _ Hs).
    destruct s; [contradiction|]. cbn [truthy negb andb].
    destruct (Z.ltb_spec 1000000 (digits_value (n :: s)));
      destruct (Z.leb_spec (digits_value (n :: s)) 1000000); try lia; reflexivity.
  - unfold validateSalary. cbn [truthy negb]. rewrite Hneg.
    unfold binary_normalize.
    destruct (digits_value s) as [|p|p]; [reflexivity | | lia].
    cbn [Z.opp Z.eqb].
    pose proof (binary_round_sign true p 0) as Hs.
    rewrite (has_sign_not_nan _ _ Hs), (has_sign_lt_zero _ _ Hs),
      binary_round_not_zero.
    reflexivity.
Qed.

(** A numeral starts with a numeric literal: [parseFloat] reads a
    number from it. *)
Lemma is_real_literal_prefix (s : jsstring) :
  is_real_literal s = true -> StrDecimalLiteral_prefix s <> None.
Proof.
  unfold is_real_literal, StrDecimalLiteral_prefix.
  destruct (strip_sign s) as [neg r].
  destruct (starts_with (js "Infinity") r); [discriminate|].
  destruct (take_digits r) as [ip r1].
  destruct (match r1 with
            | c :: r1' => if N.eqb c 46 then take_digits r1' else ([], r1)
            | [] => ([], r1)
            end) as [fp r2].
  destruct ip, fp; discriminate.
Qed.

(** With a numeric literal at its start, the value does not get the
    non-numeric message, whatever follows the literal. *)
Lemma validateSalary_with_prefix (value : jsstring) (d : decimal) :
  value <> [] -> StrDecimalLiteral_prefix (trimStart value) = Some d ->
  validateSalary value =
    (let salary := parseFloat value in
     if SFltb salary (NumberLit 0) then Some msg_salary_negative
     else if SFltb (NumberLit 1000000) salary then Some msg_salary_high
     else None).
Proof.
  intros Hne Hpre. cbv zeta.
  assert (Hpf : parseFloat value = round_decimal d)
    by (unfold parseFloat; rewrite Hpre; reflexivity).
  pose proof (round_decimal_sign d) as Hs. rewrite <- Hpf in Hs.
  unfold validateSalary. rewrite (has_sign_not_nan _ _ Hs).
  destruct value; [contradiction | reflexivity].
Qed.

(** C6.  [validateSalary] gives the result of the rule of the
    specification on the empty value, on every numeral, and on every
    value that does not start with a number.  On the other values, a
    number followed by more text, the specification asks for the
    non-numeric message, and [validateSalary] never returns it:
    [parseFloat] reads the number at the start and drops the rest, and
    the value is judged as that number.  So [12abc], [0x10] and
    [1,000,000,000] are accepted, as 12, 0 and 1, and [Infinity] gets
    the too-high message.  The four values of the specification get the
    stated results. *)
Theorem validateSalary_accepts_text_after_number :
  (forall value : jsstring,
      value = [] \/ is_real_literal (trimStart value) = true \/
      StrDecimalLiteral_prefix (trimStart value) = None ->
      validateSalary value = spec_validateSalary value) /\
  (forall (value : jsstring) (d : decimal),
      value <> [] -> is_real_literal (trimStart value) = false ->
      StrDecimalLiteral_prefix (trimStart value) = Some d ->
      spec_validateSalary value = Some msg_salary_nan /\
      validateSalary value <> Some msg_salary_nan /\
      validateSalary value =
        (let salary := round_decimal d in
         if SFltb salary (NumberLit 0) then Some msg_salary_negative
         else if SFltb (NumberLit 1000000) salary then Some msg_salary_high
         else None)) /\
  (spec_validateSalary (js "12abc") = Some msg_salary_nan /\
   validateSalary (js "12abc") = None /\
   validateSalary (js "0x10") = None /\
   validateSalary (js "1,000,000,000") = None /\
   validateSalary (js "Infinity") = Some msg_salary_high) /\
  (validateSalary (js "-1") = Some msg_salary_negative /\
   validateSalary (js "abc") = Some msg_salary_nan /\
   validateSalary (js "1000001") = Some msg_salary_high /\
   validateSalary (js "50000") = None).
Proof.
  split; [|split; [|split; repeat split; vm_compute; reflexivity]].
  - intros value [-> | [Hlit | Hpre]]; [reflexivity | |].
    + destruct (StrDecimalLiteral_prefix (trimStart value)) as [d|] eqn:Hpre;
        [|exfalso; exact (is_real_literal_prefix _ Hlit Hpre)].
      destruct value as [|c value]; [reflexivity|].
      rewrite (validateSalary_with_prefix (c :: value) d ltac:(discriminate) Hpre).
      unfold spec_validateSalary. rewrite Hlit. reflexivity.
    + destruct value as [|c value]; [reflexivity|].
      unfold validateSalary, spec_validateSalary, parseFloat. rewrite Hpre.
      cbn [truthy negb isNaN].
      destruct (is_real_literal (trimStart (c :: value))) eqn:Hlit; [|reflexivity].
      exfalso. exact (is_real_literal_prefix _ Hlit Hpre).
  - intros value d Hne Hlit Hpre.
    pose proof (validateSalary_with_prefix value d Hne Hpre) as E. cbv zeta in E.
    assert (Hpf : parseFloat value = round_decimal d)
      by (unfold parseFloat; rewrite Hpre; reflexivity).
    rewrite Hpf in E. cbv zeta. rewrite E. split; [|split; [|reflexivity]].
    + unfold spec_validateSalary. rewrite Hlit.
      destruct value; [contradiction | reflexivity].
    + destruct (SFltb (round_decimal d) (NumberLit 0)); [discriminate|].
      destruct (SFltb (NumberLit 1000000) (round_decimal d)); discriminate.
Qed.

Lemma validateSalary_accepts_text_after_number_witness :
  spec_validateSalary (js " 7 dollars") = Some msg_salary_nan /\
  validateSalary (js " 7 dollars") <> Some msg_salary_nan /\
  validateSalary (js " 7 dollars") = None /\
  validateSalary (js " 2.5e3 ") = spec_validateSalary (js " 2.5e3 ").
Proof.
  destruct (proj1 (proj2 validateSalary_accepts_text_after_number)
              (js " 7 dollars") (DecFinite false 7 0))
    as (Hspec & Hnan & Hres); [discriminate | reflexivity | reflexivity |].
  split; [exact Hspec|]. split; [exact Hnan|]. split.
  - rewrite Hres. vm_compute. reflexivity.
  - apply (proj1 validateSalary_accepts_text_after_number). right. left. reflexivity.
Defined.

(** Rounding at the upper bound: a value above 1000000 by less than
    half a unit in the last place is read as 1000000 and accepted. *)
Example validateSalary_rounding :
  parseFloat (js "1000000.00000000001") = NumberLit 1000000 /\
  validateSalary (js "1000000.00000000001") = None /\
  validateSalary (js "1000000.0000000002") = Some msg_salary_high /\
  validateSalary (js "-0") = None /\
  validateSalary (js "Infinity") = Some msg_salary_high.
Proof. repeat split; vm_compute; reflexivity. Qed.

(** ** The calendar *)

(** Case analysis on the comparisons of the goal, and evaluation of the
    tables of the months. *)
Ltac case_ltb :=
  repeat match goal with
         | |- context [?x <? ?y] => destruct (Z.ltb_spec x y)
         end.

Ltac month_tables :=
  cbv [month_start month_length nth Z.to_nat Pos.to_nat Pos.iter_op Nat.add] in *.

Lemma DaysInYear_cases (y : Z) : DaysInYear y = 365 \/ DaysInYear y = 366.
Proof.
  unfold DaysInYear.
  destruct (y mod 4 =? 0), (y mod 100 =? 0), (y mod 400 =? 0); simpl; auto.
Qed.

Lemma DayFromYear_succ (y : Z) : DayFromYear (y + 1) = DayFromYear y + DaysInYear y.
Proof.
  unfold DayFromYear, DaysInYear.
  destruct (Z.eqb_spec (y mod 4) 0), (Z.eqb_spec (y mod 100) 0),
           (Z.eqb_spec (y mod 400) 0); cbn [negb];
    Z.div_mod_to_equations; lia.
Qed.

(** [YearFromTime t] is the year that contains [t]. *)
Lemma YearFromTime_spec (t : Z) :
  DayFromYear (YearFromTime t) <= Day t < DayFromYear (YearFromTime t + 1).
Proof.
  unfold YearFromTime. cbv zeta.
  set (d := Day t). set (y := 1970 + 400 * d / 146097).
  assert (Hy : 146097 * (y - 1970) <= 400 * d < 146097 * (y - 1970) + 146097).
  { subst y. Z.div_mod_to_equations. lia. }
  clearbody y d.
  destruct (Z.ltb_spec d (DayFromYear y)) as [H1 | H1].
  - replace (y - 1 + 1) with y by lia. split; [|exact H1].
    unfold DayFromYear in *. Z.div_mod_to_equations. lia.
  - destruct (Z.leb_spec (DayFromYear (y + 1)) d) as [H2 | H2].
    + split; [exact H2|].
      unfold DayFromYear in *. Z.div_mod_to_equations. lia.
    + split; assumption.
Qed.

Lemma DayWithinYear_range (t : Z) :
  0 <= DayWithinYear t < DaysInYear (YearFromTime t).
Proof.
  unfold DayWithinYear. pose proof (YearFromTime_spec t) as H.
  rewrite DayFromYear_succ in H. lia.
Qed.

Lemma InLeapYear_DaysInYear (t : Z) :
  DaysInYear (YearFromTime t) = 365 + InLeapYear t /\
  (InLeapYear t = 0 \/ InLeapYear t = 1).
Proof.
  unfold InLeapYear.
  destruct (DaysInYear_cases (YearFromTime t)) as [E | E]; rewrite E; simpl; lia.
Qed.

Lemma MonthFromTime_range (t : Z) : 0 <= MonthFromTime t <= 11.
Proof.
  unfold MonthFromTime. cbv zeta.
  repeat match goal with
         | |- context [if ?b then _ else _] => destruct b
         end; lia.
Qed.

(** The year, month and day of a time value make its day number. *)
Lemma MakeDay_of_time (t : Z) :
  MakeDay (YearFromTime t) (MonthFromTime t) (DateFromTime t) = Day t.
Proof.
  pose proof (DayWithinYear_range t) as Hd.
  pose proof (InLeapYear_DaysInYear t) as [Hl Hl01].
  pose proof (MonthFromTime_range t) as Hm.
  unfold MakeDay. cbv zeta.
  rewrite (Z.div_small _ 12), (Z.mod_small _ 12), Z.add_0_r by lia.
  fold (InLeapYear t). unfold DateFromTime.
  unfold DayWithinYear. lia.
Qed.

Lemma month_start_leap (m : Z) :
  0 <= m <= 11 -> month_start m 0 <= month_start m 1 <= month_start m 0 + 1.
Proof.
  intros H.
  assert (m = 0 \/ m = 1 \/ m = 2 \/ m = 3 \/ m = 4 \/ m = 5 \/ m = 6 \/ m = 7
          \/ m = 8 \/ m = 9 \/ m = 10 \/ m = 11) as Hc by lia.
  destruct Hc as [-> | [-> | [-> | [-> | [-> | [-> | [-> | [-> | [-> | [-> | [-> | ->]]]]]]]]]]];
    unfold month_start; simpl; lia.
Qed.

(** The day number of the first day of a year grows by 365 or 366 per
    year. *)
Lemma DayFromYear_diff (y k : Z) :
  0 <= k -> 365 * k <= DayFromYear y - DayFromYear (y - k) <= 366 * k.
Proof.
  intros Hk. revert y. pattern k. apply natlike_ind; [| |exact Hk].
  - intros y. replace (y - 0) with y by lia. lia.
  - intros j Hj IH y. specialize (IH (y - 1)).
    replace (y - Z.succ j) with (y - 1 - j) by lia.
    pose proof (DayFromYear_succ (y - 1)) as Hs.
    replace (y - 1 + 1) with y in Hs by lia.
    destruct (DaysInYear_cases (y - 1)); lia.
Qed.

(** Moving a date [k] years back moves its day number back by 365 to
    366 days per year, up to the one day of a 29th of February. *)
Lemma MakeDay_years_back (y m d k : Z) :
  0 <= m <= 11 -> 0 <= k ->
  365 * k - 1 <= MakeDay y m d - MakeDay (y - k) m d <= 366 * k + 1.
Proof.
  intros Hm Hk. unfold MakeDay. cbv zeta.
  rewrite !(Z.div_small m 12), !(Z.mod_small m 12), !Z.add_0_r by lia.
  pose proof (DayFromYear_diff y k Hk).
  pose proof (month_start_leap m Hm).
  destruct (DaysInYear y =? 366), (DaysInYear (y - k) =? 366); lia.
Qed.

Lemma month_cases (m : Z) :
  0 <= m <= 11 ->
  m = 0 \/ m = 1 \/ m = 2 \/ m = 3 \/ m = 4 \/ m = 5 \/ m = 6 \/ m = 7 \/ m = 8
  \/ m = 9 \/ m = 10 \/ m = 11.
Proof. lia. Qed.

(** The day within the year lies in the month that [MonthFromTime]
    names. *)
Lemma DayWithinYear_in_month (t : Z) :
  let m := MonthFromTime t in
  let l := InLeapYear t in
  month_start m l <= DayWithinYear t < month_start m l + month_length m l.
Proof.
  cbv zeta. pose proof (DayWithinYear_range t) as Hd.
  pose proof (InLeapYear_DaysInYear t) as [Hl Hl01].
  unfold MonthFromTime. cbv zeta.
  case_ltb; month_tables; lia.
Qed.

Lemma DateFromTime_range (t : Z) :
  1 <= DateFromTime t <= month_length (MonthFromTime t) (InLeapYear t).
Proof.
  pose proof (DayWithinYear_in_month t) as H. cbv zeta in H.
  unfold DateFromTime. lia.
Qed.

Lemma DayFromYear_lt (a b : Z) : a < b -> DayFromYear a < DayFromYear b.
Proof.
  intros H. pose proof (DayFromYear_diff b (b - a) ltac:(lia)) as Hd.
  replace (b - (b - a)) with a in Hd by lia. lia.
Qed.

(** The year of a time value is the only year that contains its day. *)
Lemma YearFromTime_unique (t y : Z) :
  DayFromYear y <= Day t < DayFromYear (y + 1) -> YearFromTime t = y.
Proof.
  intros H. pose proof (YearFromTime_spec t) as Hs.
  destruct (Z.lt_trichotomy (YearFromTime t) y) as [Hlt | [Heq | Hgt]];
    [exfalso | exact Heq | exfalso].
  - assert (DayFromYear (YearFromTime t + 1) <= DayFromYear y).
    { destruct (Z.eq_dec (YearFromTime t + 1) y) as [-> | Hne]; [lia|].
      apply Z.lt_le_incl, DayFromYear_lt. lia. }
    lia.
  - assert (DayFromYear (y + 1) <= DayFromYear (YearFromTime t)).
    { destruct (Z.eq_dec (y + 1) (YearFromTime t)) as [-> | Hne]; [lia|].
      apply Z.lt_le_incl, DayFromYear_lt. lia. }
    lia.
Qed.

(** The calendar date of a day made by [MakeDay] from a valid year,
    month and day of the month. *)
Lemma civil_of_MakeDay (t y m d : Z) :
  0 <= m <= 11 ->
  1 <= d <= month_length m (if DaysInYear y =? 366 then 1 else 0) ->
  Day t = MakeDay y m d ->
  YearFromTime t = y /\ MonthFromTime t = m /\ DateFromTime t = d.
Proof.
  intros Hm Hd Hday. unfold MakeDay in Hday. cbv zeta in Hday.
  rewrite (Z.div_small m 12), (Z.mod_small m 12), Z.add_0_r in Hday by lia.
  set (l := if DaysInYear y =? 366 then 1 else 0) in *.
  assert (Hl : DaysInYear y = 365 + l /\ (l = 0 \/ l = 1)).
  { subst l. destruct (DaysInYear_cases y) as [E | E]; rewrite E; simpl; lia. }
  assert (Hend : month_start m l + month_length m l <= 365 + l /\ 0 <= month_start m l).
  { destruct (month_cases m Hm)
      as [-> | [-> | [-> | [-> | [-> | [-> | [-> | [-> | [-> | [-> | [-> | ->]]]]]]]]]]];
      month_tables; lia. }
  assert (Hy : YearFromTime t = y).
  { apply YearFromTime_unique. rewrite DayFromYear_succ. lia. }
  assert (Hleap : InLeapYear t = l) by (unfold InLeapYear; rewrite Hy; reflexivity).
  assert (Hdw : DayWithinYear t = month_start m l + d - 1)
    by (unfold DayWithinYear; rewrite Hy; lia).
  assert (Hmonth : MonthFromTime t = m).
  { unfold MonthFromTime. cbv zeta. rewrite Hdw, Hleap.
    destruct (month_cases m Hm)
      as [-> | [-> | [-> | [-> | [-> | [-> | [-> | [-> | [-> | [-> | [-> | ->]]]]]]]]]]];
      month_tables; case_ltb; lia. }
  repeat split; try assumption.
  unfold DateFromTime. rewrite Hmonth, Hleap, Hdw. lia.
Qed.

(** [setFullYear] to [k] years before the current local year keeps the
    time of day and moves the date back by a whole number of days. *)
Lemma setFullYear_years_back (tza t0 k : Z) :
  0 <= k ->
  exists delta,
    365 * k - 1 <= delta <= 366 * k + 1 /\
    setFullYear tza (Some t0)
                (num_sub (getFullYear tza (Some t0)) k)
    = TimeClip (t0 - delta * msPerDay).
Proof.
  intros Hk. cbn [getFullYear num_sub option_map setFullYear].
  set (t := LocalTime tza t0).
  exists (MakeDay (YearFromTime t) (MonthFromTime t) (DateFromTime t)
          - MakeDay (YearFromTime t - k) (MonthFromTime t) (DateFromTime t)).
  split.
  - apply MakeDay_years_back; [apply MonthFromTime_range | exact Hk].
  - f_equal. rewrite MakeDay_of_time. unfold UTC, MakeDate.
    assert (Ht : t = Day t * msPerDay + TimeWithinDay t).
    { unfold Day, TimeWithinDay. rewrite Z.mul_comm. apply Z.div_mod.
      unfold msPerDay. lia. }
    assert (Ht0 : t0 = t - tza) by (subst t; unfold LocalTime; lia).
    lia.
Qed.

Lemma TimeClip_in_range (t : Z) :
  - 8640000000000000 <= t <= 8640000000000000 -> TimeClip t = Some t.
Proof.
  intros H. unfold TimeClip.
  destruct (Z.ltb_spec 8640000000000000 (Z.abs t)); [lia | reflexivity].
Qed.

Lemma TimeClip_Some (x y : Z) : TimeClip x = Some y -> TimeClip x = Some x.
Proof.
  unfold TimeClip. destruct (8640000000000000 <? Z.abs x); [discriminate|reflexivity].
Qed.

(** The two boundaries when the clock reads [t0] throughout. *)
Lemma birth_boundaries (h : Host) (t0 : Z) :
  (forall n, now h n = t0) -> - 8640000000000000 + 36601 * 86400000 <= t0 <= 8640000000000000 ->
  exists d18 d100,
    365 * 18 - 1 <= d18 <= 366 * 18 + 1 /\
    365 * 100 - 1 <= d100 <= 366 * 100 + 1 /\
    maxDate h = Some (t0 - d18 * msPerDay) /\
    minDate h = Some (t0 - d100 * msPerDay).
Proof.
  intros Hnow Ht0. unfold maxDate, minDate. rewrite !Hnow.
  destruct (setFullYear_years_back (LocalTZA h) t0 18) as (d18 & H18 & E18); [lia|].
  destruct (setFullYear_years_back (LocalTZA h) t0 100) as (d100 & H100 & E100); [lia|].
  exists d18, d100. rewrite E18, E100.
  repeat apply conj; try lia; apply TimeClip_in_range; unfold msPerDay; lia.
Qed.

(** The three range checks, in the order of the code. *)
Lemma validateBirthDate_order (h : Host) (value : jsstring) :
  value <> [] ->
  validateBirthDate h value =
    let birthDate := new_Date_string h value in
    if num_gt birthDate (Some (now h 0)) then Some msg_birth_future
    else if num_lt birthDate (minDate h) then Some msg_birth_invalid
    else if num_gt birthDate (maxDate h) then Some msg_birth_minor
    else None.
Proof.
  intros Hne. unfold validateBirthDate.
  destruct value; [contradiction|]. cbn [truthy negb]. reflexivity.
Qed.

(** In a host on UTC, at noon of 2026-11-02, with date-only values. *)
Example validateBirthDate_utc_boundaries :
  let h := clock_host 0 noon_2026_11_02 in
  validateBirthDate h (js "2008-11-02") = None /\
  validateBirthDate h (js "2008-11-03") = Some msg_birth_minor /\
  validateBirthDate h (js "1926-11-03") = None /\
  validateBirthDate h (js "1926-11-02") = Some msg_birth_invalid /\
  validateBirthDate h (js "2026-11-03") = Some msg_birth_future /\
  validateBirthDate h [] = Some msg_birth_required.
Proof. cbv zeta. repeat apply conj; vm_compute; reflexivity. Qed.

(** The boundaries carry the local time of day, while a date-only value
    is read as midnight UTC. *)
Lemma maxDate_value (h : Host) (t0 : Z) :
  (forall n, now h n = t0) ->
  maxDate h =
    TimeClip (UTC (LocalTZA h)
                  (MakeDate (MakeDay (YearFromTime (LocalTime (LocalTZA h) t0) - 18)
                                     (MonthFromTime (LocalTime (LocalTZA h) t0))
                                     (DateFromTime (LocalTime (LocalTZA h) t0)))
                            (TimeWithinDay (LocalTime (LocalTZA h) t0)))).
Proof.
  intros Hnow. unfold maxDate. rewrite !Hnow. reflexivity.
Qed.

(** With [b0] the midnight UTC of the local calendar day of [maxDate],
    the boundary is [b0] plus the local time of day minus the offset of
    the zone. *)
Lemma maxDate_time_of_day (h : Host) (t0 : Z) :
  (forall n, now h n = t0) -> - 8640000000000000 + 36601 * 86400000 <= t0 <= 8640000000000000 ->
  let t := LocalTime (LocalTZA h) t0 in
  let b0 := MakeDate (MakeDay (YearFromTime t - 18) (MonthFromTime t) (DateFromTime t)) 0 in
  maxDate h = Some (b0 + TimeWithinDay t - LocalTZA h).
Proof.
  intros Hnow Ht0. cbv zeta.
  destruct (birth_boundaries h t0 Hnow Ht0) as (d18 & d100 & _ & _ & Emax & _).
  rewrite (maxDate_value h t0 Hnow) in Emax |- *.
  rewrite (TimeClip_Some _ _ Emax). f_equal.
  unfold UTC, MakeDate. rewrite Z.add_0_r. reflexivity.
Qed.

(** Unless the local date is a 29th of February, [maxDate] is the same
    local calendar day and time of day, 18 years earlier. *)
Lemma maxDate_same_day (h : Host) (t0 : Z) :
  (forall n, now h n = t0) ->
  - 8640000000000000 + 36601 * 86400000 <= t0 <= 8640000000000000 ->
  let t := LocalTime (LocalTZA h) t0 in
  ~ (MonthFromTime t = 1 /\ DateFromTime t = 29) ->
  exists hi,
    maxDate h = Some hi /\
    YearFromTime (LocalTime (LocalTZA h) hi) = YearFromTime t - 18 /\
    MonthFromTime (LocalTime (LocalTZA h) hi) = MonthFromTime t /\
    DateFromTime (LocalTime (LocalTZA h) hi) = DateFromTime t /\
    TimeWithinDay (LocalTime (LocalTZA h) hi) = TimeWithinDay t.
Proof.
  intros Hnow Ht0. cbv zeta. intros Hfeb.
  pose proof (maxDate_time_of_day h t0 Hnow Ht0) as Hmax. cbv zeta in Hmax.
  set (t := LocalTime (LocalTZA h) t0) in *.
  set (day := MakeDay (YearFromTime t - 18) (MonthFromTime t) (DateFromTime t)) in *.
  exists (MakeDate day 0 + TimeWithinDay t - LocalTZA h). split; [exact Hmax|].
  assert (Hloc : LocalTime (LocalTZA h) (MakeDate day 0 + TimeWithinDay t - LocalTZA h)
                 = day * msPerDay + TimeWithinDay t)
    by (unfold LocalTime, MakeDate; lia).
  rewrite Hloc.
  assert (Htod : 0 <= TimeWithinDay t < msPerDay)
    by (unfold TimeWithinDay; apply Z.mod_pos_bound; reflexivity).
  assert (Hday : Day (day * msPerDay + TimeWithinDay t) = day).
  { unfold Day. symmetry. apply (Z.div_unique_pos _ _ day (TimeWithinDay t)); lia. }
  assert (Htod' : TimeWithinDay (day * msPerDay + TimeWithinDay t) = TimeWithinDay t).
  { unfold TimeWithinDay at 1. symmetry.
    apply (Z.mod_unique_pos _ _ day (TimeWithinDay t)); lia. }
  pose proof (MonthFromTime_range t) as Hm.
  pose proof (DateFromTime_range t) as Hd.
  destruct (civil_of_MakeDay (day * msPerDay + TimeWithinDay t)
                             (YearFromTime t - 18) (MonthFromTime t) (DateFromTime t))
    as (Hy' & Hm' & Hd'); [exact Hm | | exact Hday | auto].
  pose proof (InLeapYear_DaysInYear t) as [_ Hl].
  set (l' := if DaysInYear (YearFromTime t - 18) =? 366 then 1 else 0).
  assert (Hl' : l' = 0 \/ l' = 1) by (subst l'; destruct (_ =? _); auto).
  destruct (month_cases _ Hm)
    as [E | [E | [E | [E | [E | [E | [E | [E | [E | [E | [E | E]]]]]]]]]]];
    rewrite E in *; month_tables; lia.
Qed.

(** Hence, in a zone west of Greenwich late in the evening, the
    date-only value of the day after the calendar boundary is still
    accepted: at 20:00 of 2026-11-02 in a zone five hours behind UTC,
    [2008-11-03] is read as 19:00 of 2008-11-02, local time. *)
Example validateBirthDate_evening_west :
  let h := clock_host (-18000000) 1793667600000 in
  maxDate h = Some 1225674000000 /\
  Date_parse h (js "2008-11-03") = Some 1225670400000 /\
  validateBirthDate h (js "2008-11-03") = None /\
  validateBirthDate h (js "2008-11-04") = Some msg_birth_minor.
Proof. cbv zeta. repeat apply conj; vm_compute; reflexivity. Qed.

(** The day that lies 18 years before today is not after today, and not
    before the day that lies 100 years before today. *)
Lemma years_before_today_order (h : Host) :
  years_before_today h 100 <= years_before_today h 18 /\
  years_before_today h 18 < Day (LocalTime (LocalTZA h) (now h 0)).
Proof.
  unfold years_before_today. cbv zeta.
  set (t := LocalTime (LocalTZA h) (now h 0)).
  pose proof (MonthFromTime_range t) as Hm.
  pose proof (MakeDay_years_back (YearFromTime t) (MonthFromTime t) (DateFromTime t) 18
                                 Hm ltac:(lia)) as H18.
  pose proof (MakeDay_years_back (YearFromTime t - 18) (MonthFromTime t) (DateFromTime t) 82
                                 Hm ltac:(lia)) as H82.
  replace (YearFromTime t - 18 - 82) with (YearFromTime t - 100) in H82 by lia.
  rewrite (MakeDay_of_time t) in H18. lia.
Qed.

(** C5.  The three checks run in the order future, too old, too young,
    but the boundaries are not calendar days: [maxDate] carries the
    local time of day, while a date-only value is read as midnight
    UTC.  For the date of birth that lies exactly 18 years before the
    local date of today, which the specification accepts,
    [validateBirthDate] returns the under-age message as long as the
    local time of day has not reached the offset of the zone (the first
    hours of the day to the east of Greenwich).  For the day after, 17
    years and 364 days, which the specification rejects,
    [validateBirthDate] accepts once the local time of day has reached
    one day plus the offset (the last hours of the day to the west). *)
Theorem validateBirthDate_misjudges_boundary_days
        (h : Host) (value : jsstring) (t0 : Z) :
  value <> [] -> (forall n, now h n = t0) ->
  - 8640000000000000 + 36601 * 86400000 <= t0 <= 8640000000000000 ->
  - msPerDay < LocalTZA h < msPerDay ->
  let t := LocalTime (LocalTZA h) t0 in
  let birthday := years_before_today h 18 in
  (new_Date_string h value = Some (MakeDate birthday 0) ->
   spec_validateBirthDate h birthday = None /\
   (TimeWithinDay t < LocalTZA h ->
    validateBirthDate h value = Some msg_birth_minor)) /\
  (new_Date_string h value = Some (MakeDate (birthday + 1) 0) ->
   spec_validateBirthDate h (birthday + 1) = Some msg_birth_minor /\
   (msPerDay + LocalTZA h <= TimeWithinDay t ->
    validateBirthDate h value = None)).
Proof.
  intros Hne Hnow Hrange Htz. cbv zeta.
  pose proof (years_before_today_order h) as [Hlo Hhi].
  pose proof (maxDate_time_of_day h t0 Hnow Hrange) as Hmax. cbv zeta in Hmax.
  destruct (birth_boundaries h t0 Hnow Hrange) as (d18 & d100 & H18 & H100 & Hmax' & Hmin).
  rewrite Hmax in Hmax'. apply Some_inj in Hmax'.
  assert (Htod : 0 <= TimeWithinDay (LocalTime (LocalTZA h) t0) < msPerDay).
  { unfold TimeWithinDay. apply Z.mod_pos_bound. unfold msPerDay. lia. }
  assert (Eb : years_before_today h 18
               = MakeDay (YearFromTime (LocalTime (LocalTZA h) t0) - 18)
                         (MonthFromTime (LocalTime (LocalTZA h) t0))
                         (DateFromTime (LocalTime (LocalTZA h) t0)))
    by (unfold years_before_today; rewrite Hnow; reflexivity).
  rewrite (validateBirthDate_order h value Hne). cbv zeta.
  rewrite Hmax, Hmin, Hnow. unfold spec_validateBirthDate. cbv zeta.
  rewrite <- Eb in *.
  generalize dependent (years_before_today h 18). intros birthday Hlo Hhi Hmax'.
  generalize dependent (years_before_today h 100). intros oldest Hlo.
  generalize dependent (Day (LocalTime (LocalTZA h) (now h 0))). intros today Hhi.
  unfold MakeDate, msPerDay in *.
  split; intros ->; unfold num_gt, num_lt; (split; [case_ltb; first [lia | reflexivity]|]);
    intros Hearly; case_ltb; first [lia | reflexivity].
Qed.

Lemma validateBirthDate_misjudges_boundary_days_witness :
  let east := clock_host 7200000 1793572200000 in
  let west := clock_host (-18000000) 1793667600000 in
  (Date_parse east (js "2008-11-02") = Some (MakeDate (years_before_today east 18) 0) /\
   spec_validateBirthDate east (years_before_today east 18) = None /\
   validateBirthDate east (js "2008-11-02") = Some msg_birth_minor) /\
  (Date_parse west (js "2008-11-03") = Some (MakeDate (years_before_today west 18 + 1) 0) /\
   spec_validateBirthDate west (years_before_today west 18 + 1) = Some msg_birth_minor /\
   validateBirthDate west (js "2008-11-03") = None).
Proof.
  cbv zeta. split.
  - destruct (validateBirthDate_misjudges_boundary_days
                (clock_host 7200000 1793572200000) (js "2008-11-02") 1793572200000)
      as [H _]; [discriminate | reflexivity | lia | unfold msPerDay; cbn; lia |].
    destruct H as [Hspec Hcode]; [vm_compute; reflexivity|].
    split; [vm_compute; reflexivity|]. split; [exact Hspec|].
    apply Hcode. vm_compute. reflexivity.
  - destruct (validateBirthDate_misjudges_boundary_days
                (clock_host (-18000000) 1793667600000) (js "2008-11-03") 1793667600000)
      as [_ H]; [discriminate | reflexivity | lia | unfold msPerDay; cbn; lia |].
    destruct H as [Hspec Hcode]; [vm_compute; reflexivity|].
    split; [vm_compute; reflexivity|]. split; [exact Hspec|].
    apply Hcode. vm_compute. discriminate.
Defined.

(** The local dates of the two hosts of the example: both read 2 November
    2026, at 00:30 and at 20:00. *)
Example boundary_days_local_dates :
  let east := LocalTime 7200000 1793572200000 in
  let west := LocalTime (-18000000) 1793667600000 in
  (YearFromTime east, MonthFromTime east + 1, DateFromTime east) = (2026, 11, 2) /\
  TimeWithinDay east = 30 * 60000 /\
  (YearFromTime west, MonthFromTime west + 1, DateFromTime west) = (2026, 11, 2) /\
  TimeWithinDay west = 20 * 3600000.
Proof. cbv zeta. repeat split; vm_compute; reflexivity. Qed.

(** ** Maps *)

Section JSMapFacts.
Variable V : Type.
Implicit Types (m : JSMap V) (k : string) (v : V).

Lemma Map_get_set_same k v m : Map_get k (Map_set k v m) = Some v.
Proof.
  induction m as [|[k' v'] m IH]; simpl.
  - rewrite String.eqb_refl. reflexivity.
  - destruct (String.eqb k k') eqn:E; simpl; rewrite E; [reflexivity | exact IH].
Qed.

Lemma Map_get_set_other k k' v m :
  k <> k' -> Map_get k' (Map_set k v m) = Map_get k' m.
Proof.
  intros Hne. induction m as [|[k0 v0] m IH]; simpl.
  - destruct (String.eqb_spec k' k); [congruence | reflexivity].
  - destruct (String.eqb_spec k k0); simpl.
    + subst k0. destruct (String.eqb_spec k' k); [congruence | reflexivity].
    + rewrite IH. reflexivity.
Qed.

Lemma Map_get_delete_same k m : Map_get k (Map_delete k m) = None.
Proof.
  induction m as [|[k' v'] m IH]; simpl; [reflexivity|].
  destruct (String.eqb k k') eqn:E; simpl; [exact IH|].
  rewrite E. exact IH.
Qed.

Lemma Map_get_delete_other k k' m :
  k <> k' -> Map_get k' (Map_delete k m) = Map_get k' m.
Proof.
  intros Hne. induction m as [|[k0 v0] m IH]; simpl; [reflexivity|].
  destruct (String.eqb_spec k k0); simpl.
  - subst k0. destruct (String.eqb_spec k' k); [congruence | exact IH].
  - rewrite IH. reflexivity.
Qed.

Lemma Map_set_idempotent k v m : Map_set k v (Map_set k v m) = Map_set k v m.
Proof.
  induction m as [|[k' v'] m IH]; simpl.
  - rewrite String.eqb_refl. reflexivity.
  - destruct (String.eqb k k') eqn:E; simpl; rewrite E; [reflexivity|].
    rewrite IH. reflexivity.
Qed.

Lemma Map_delete_idempotent k m : Map_delete k (Map_delete k m) = Map_delete k m.
Proof.
  unfold Map_delete. induction m as [|[k' v'] m IH]; simpl; [reflexivity|].
  destruct (String.eqb k k') eqn:E; simpl; [exact IH|].
  rewrite E. simpl. rewrite IH. reflexivity.
Qed.

Lemma Map_keys_set k k' v m :
  In k' (Map_keys (Map_set k v m)) -> k' = k \/ In k' (Map_keys m).
Proof.
  unfold Map_keys. induction m as [|[k0 v0] m IH]; simpl.
  - intros [<- | []]. left. reflexivity.
  - destruct (String.eqb_spec k k0); simpl.
    + intros H. right. exact H.
    + intros [<- | H]; [right; left; reflexivity|].
      destruct (IH H) as [-> | H']; [left; reflexivity | right; right; exact H'].
Qed.

Lemma Map_keys_delete k k' m :
  In k' (Map_keys (Map_delete k m)) -> In k' (Map_keys m).
Proof.
  unfold Map_keys, Map_delete. rewrite !in_map_iff.
  intros (e & He & Hin). apply filter_In in Hin. exists e. tauto.
Qed.

Lemma Map_get_In_keys k m : In k (Map_keys m) <-> exists v, Map_get k m = Some v.
Proof.
  unfold Map_keys. induction m as [|[k' v'] m IH]; simpl.
  - split; [intros [] | intros [v Hv]; discriminate].
  - destruct (String.eqb_spec k k').
    + subst k'. split; [intros _; exists v'; reflexivity | intros _; left; reflexivity].
    + rewrite <- IH. split; [intros [E | H]; [congruence | exact H] | intros H; right; exact H].
Qed.
End JSMapFacts.

(** ** Validation of one field *)

Lemma validateField_unfold (h : Host) (f : string) (w : World) :
  validateField h f w =
    match Map_get f (validators (this w)) with
    | None => (Normal true, w)
    | Some v =>
        let w1 := record_call (CallValidator f) w in
        match validate v h (field_value h f) with
        | Throw e => (Throw e, w1)
        | Normal error =>
            if error_truthy error
            then (Normal false,
                  set_errors (Map_set f (match error with Some m => m | None => [] end)
                                      (errors (this w))) w1)
            else (Normal true, set_errors (Map_delete f (errors (this w))) w1)
        end
    end.
Proof.
  unfold validateField, field_value.
  destruct (Map_get f (validators (this w))) as [v|]; [|reflexivity].
  unfold bind, modify, lift, showError, clearError, ret. cbv zeta.
  destruct (validate v h _) as [error | e]; [|reflexivity].
  destruct (error_truthy error); reflexivity.
Qed.

(** [validateField] leaves the registry, the in-flight flag and the
    pending submissions as they are. *)
Lemma validateField_frame (h : Host) (f : string) (w : World) :
  let w' := snd (validateField h f w) in
  validators (this w') = validators (this w) /\
  isSubmitting (this w') = isSubmitting (this w) /\
  pending w' = pending w.
Proof.
  cbv zeta. rewrite validateField_unfold.
  destruct (Map_get f (validators (this w))) as [v|]; [|auto].
  cbv zeta. destruct (validate v h _) as [error | e]; [|auto].
  destruct (error_truthy error); auto.
Qed.

(** It only writes the error entry of its own field. *)
Lemma validateField_other (h : Host) (f g : string) (w : World) :
  f <> g -> error_of (snd (validateField h f w)) g = error_of w g.
Proof.
  intros Hne. unfold error_of. rewrite validateField_unfold.
  destruct (Map_get f (validators (this w))) as [v|]; [|reflexivity].
  cbv zeta. destruct (validate v h _) as [error | e]; [|reflexivity].
  destruct (error_truthy error); cbn [snd set_errors this errors].
  - apply Map_get_set_other. exact Hne.
  - apply Map_get_delete_other. exact Hne.
Qed.

(** The result and the entry written depend on the registry only. *)
Lemma validateField_same_registry (h : Host) (f : string) (w1 w2 : World) :
  validators (this w1) = validators (this w2) ->
  fst (validateField h f w1) = fst (validateField h f w2) /\
  (forall v ok, Map_get f (validators (this w1)) = Some v ->
                fst (validateField h f w1) = Normal ok ->
                error_of (snd (validateField h f w1)) f
                = error_of (snd (validateField h f w2)) f).
Proof.
  intros Hreg. unfold error_of. rewrite !validateField_unfold, <- Hreg.
  destruct (Map_get f (validators (this w1))) as [v|].
  - cbv zeta. destruct (validate v h _) as [error | e].
    + destruct (error_truthy error); cbn [fst snd set_errors this errors];
        (split; [reflexivity|]); intros _ _ _ _.
      * rewrite !Map_get_set_same. reflexivity.
      * rewrite !Map_get_delete_same. reflexivity.
    + split; [reflexivity|]. intros v0 ok _ H. discriminate H.
  - split; [reflexivity|]. intros v ok H. discriminate H.
Qed.

Lemma validateField_calls (h : Host) (f : string) (w : World) (v : RuleDescriptor) :
  Map_get f (validators (this w)) = Some v ->
  calls (snd (validateField h f w)) = calls w ++ [CallValidator f].
Proof.
  intros Hv. rewrite validateField_unfold, Hv. cbv zeta.
  destruct (validate v h _) as [error | e]; [|reflexivity].
  destruct (error_truthy error); reflexivity.
Qed.

Lemma validateField_throw_errors (h : Host) (f : string) (w : World) (e : exn) :
  fst (validateField h f w) = Throw e ->
  errors (this (snd (validateField h f w))) = errors (this w).
Proof.
  rewrite validateField_unfold.
  destruct (Map_get f (validators (this w))) as [v|]; [|discriminate].
  cbv zeta. destruct (validate v h _) as [error | e']; [|reflexivity].
  destruct (error_truthy error); discriminate.
Qed.

(** C9.  Calling [validateField] twice in succession on the same field,
    in the same state of the host, gives the same result both times,
    and the validator object (registry, error map, in-flight flag) after
    the second call is the one after the first call. *)
Theorem validateField_idempotent (h : Host) (fieldName : string) (w : World) :
  let first := validateField h fieldName w in
  let second := validateField h fieldName (snd first) in
  fst second = fst first /\
  this (snd second) = this (snd first) /\
  error_of (snd second) fieldName = error_of (snd first) fieldName.
Proof.
  cbv zeta.
  assert (H : fst (validateField h fieldName (snd (validateField h fieldName w)))
              = fst (validateField h fieldName w) /\
              this (snd (validateField h fieldName (snd (validateField h fieldName w))))
              = this (snd (validateField h fieldName w))).
  { rewrite (validateField_unfold h fieldName w).
    destruct (Map_get fieldName (validators (this w))) as [v|] eqn:Hv.
    - cbv zeta. destruct (validate v h (field_value h fieldName)) as [error | e] eqn:Hr.
      + destruct (error_truthy error) eqn:Ht; cbn [fst snd];
          rewrite validateField_unfold;
          cbn [this validators errors set_errors record_call];
          rewrite Hv; cbv zeta; rewrite Hr, Ht; cbn [fst snd this set_errors record_call
                                                     validators errors isSubmitting].
        * rewrite Map_set_idempotent. split; reflexivity.
        * rewrite Map_delete_idempotent. split; reflexivity.
      + cbn [fst snd]. rewrite validateField_unfold.
        cbn [this validators record_call]. rewrite Hv. cbv zeta. rewrite Hr.
        split; reflexivity.
    - cbn [fst snd]. rewrite validateField_unfold, Hv. split; reflexivity. }
  destruct H as [H1 H2]. repeat split; try assumption.
  unfold error_of. rewrite H2. reflexivity.
Qed.

(** With every field filled in correctly, and with a wrong e-mail. *)
Example validateField_twice :
  let h := filled_host "Abcdef1!" "Abcdef1!" in
  let w1 := snd (validateField h "cedula" init) in
  let w2 := snd (validateField h "cedula" w1) in
  fst (validateField h "cedula" init) = Normal true /\
  errors (this w2) = errors (this w1) /\
  calls w2 = calls w1 ++ [CallValidator "cedula"].
Proof. cbv zeta. repeat apply conj; vm_compute; reflexivity. Qed.

(** ** Validation of the whole form *)

Lemma validateForm_loop_cons (h : Host) (f : string) (keys : list string)
      (isValid : bool) (w : World) :
  validateForm_loop h (f :: keys) isValid w =
    match validateField h f w with
    | (Normal ok, w1) => validateForm_loop h keys (if negb ok then false else isValid) w1
    | (Throw e, w1) => (Throw e, w1)
    end.
Proof. reflexivity. Qed.

(** The loop, started in a state [w] that has the registry of [w0],
    against [validateField] run on [w0] for each key on its own. *)
Lemma validateForm_loop_spec (h : Host) (w0 : World) :
  forall keys isValid w,
    validators (this w) = validators (this w0) ->
    (forall f, In f keys -> In f (Map_keys (validators (this w0)))) ->
    match validateForm_loop h keys isValid w with
    | (Normal b, w') =>
        b = isValid && forallb (field_ok h w0) keys /\
        calls w' = calls w ++ map CallValidator keys /\
        (forall f, In f keys ->
                   error_of w' f = error_of (snd (validateField h f w0)) f) /\
        (forall g, ~ In g keys -> error_of w' g = error_of w g) /\
        (forall f, In f keys -> exists ok, fst (validateField h f w0) = Normal ok)
    | (Throw e, w') =>
        exists f, In f keys /\ fst (validateField h f w0) = Throw e
    end.
Proof.
  induction keys as [|f keys IH]; intros isValid w Hreg Hkeys.
  - cbn [validateForm_loop ret forallb map]. rewrite andb_true_r, app_nil_r.
    repeat split; try reflexivity; intros f [].
  - rewrite validateForm_loop_cons.
    destruct (validateField_same_registry h f w w0 Hreg) as [Hfst Hent].
    pose proof (validateField_frame h f w) as (Hv & _ & _).
    pose proof (fun g => validateField_other h f g w) as Hother.
    assert (Hin : In f (Map_keys (validators (this w0)))) by (apply Hkeys; left; reflexivity).
    apply Map_get_In_keys in Hin. destruct Hin as [v Hv0].
    assert (Hvw : Map_get f (validators (this w)) = Some v) by (rewrite Hreg; exact Hv0).
    pose proof (validateField_calls h f w v Hvw) as Hcalls.
    specialize (Hent v).
    destruct (validateField h f w) as [[ok | e] w1]; cbn [fst snd] in *.
    + specialize (Hent ok Hvw eq_refl).
      specialize (IH (if negb ok then false else isValid) w1).
      destruct (validateForm_loop h keys (if negb ok then false else isValid) w1)
        as [[b | e] w'].
      * destruct IH as (Hb & Hc & Hin & Hout & Hok).
        { rewrite Hv. exact Hreg. }
        { intros g Hg. apply Hkeys. right. exact Hg. }
        repeat split.
        -- rewrite Hb. cbn [forallb]. unfold field_ok at 2. rewrite <- Hfst.
           destruct ok, isValid; reflexivity.
        -- rewrite Hc, Hcalls, <- app_assoc. reflexivity.
        -- intros g [<- | Hg].
           ++ destruct (in_dec string_dec f keys) as [Hfk | Hfk].
              ** apply Hin. exact Hfk.
              ** rewrite (Hout f Hfk). exact Hent.
           ++ apply Hin. exact Hg.
        -- intros g Hg. rewrite Hout by (intros Hg'; apply Hg; right; exact Hg').
           apply (Hother g). intros ->. apply Hg. left. reflexivity.
        -- intros g [<- | Hg]; [exists ok; symmetry; exact Hfst | apply Hok; exact Hg].
      * destruct IH as (g & Hg & He).
        { rewrite Hv. exact Hreg. }
        { intros g Hg. apply Hkeys. right. exact Hg. }
        exists g. split; [right; exact Hg | exact He].
    + exists f. split; [left; reflexivity | symmetry; exact Hfst].
Qed.

(** C2.  [validateForm] calls the validate function of every registered
    field once, in registration order, whatever the results; when it
    returns, its result is the conjunction of the results of
    [validateField] run on each registered field on its own, and the
    stored error of each registered field is the one that
    [validateField] alone would have left.  It only fails to return when
    a validate function throws. *)
Theorem validateForm_is_conjunction (h : Host) (w : World) :
  let keys := Map_keys (validators (this w)) in
  match validateForm h w with
  | (Normal b, w') =>
      b = spec_validateForm h w /\
      calls w' = calls w ++ map CallValidator keys /\
      (forall f, In f keys ->
                 error_of w' f = error_of (snd (validateField h f w)) f) /\
      (forall f, In f keys -> exists ok, fst (validateField h f w) = Normal ok)
  | (Throw e, _) =>
      exists f, In f keys /\ fst (validateField h f w) = Throw e
  end.
Proof.
  cbv zeta. unfold validateForm, spec_validateForm.
  pose proof (validateForm_loop_spec h w (Map_keys (validators (this w))) true w
                                     eq_refl (fun f H => H)) as H.
  destruct (validateForm_loop h (Map_keys (validators (this w))) true w)
    as [[b | e] w'].
  - destruct H as (Hb & Hc & Hin & _ & Hok). repeat split; assumption.
  - exact H.
Qed.

(** With a weak password and an empty confirmation, both fields are
    reported by one pass over the form, and all the others are still
    validated. *)
Example validateForm_reports_all :
  let h := filled_host "abc" "" in
  fst (validateForm h init) = Normal false /\
  Map_keys (errors (this (snd (validateForm h init))))
  = ["password"; "confirmPassword"]%string /\
  error_of (snd (validateForm h init)) "password" = Some msg_password_short /\
  error_of (snd (validateForm h init)) "confirmPassword" = Some msg_confirm_required /\
  calls (snd (validateForm h init)) = map CallValidator (Map_keys (setupValidators [])).
Proof. cbv zeta. repeat apply conj; vm_compute; reflexivity. Qed.

(** The registry of the script, spelled out. *)
Lemma setupValidators_keys :
  Map_keys (setupValidators []) =
    ["fullName"; "email"; "phone"; "birthDate"; "cedula"; "password";
     "confirmPassword"; "website"; "salary"; "country"; "gender"; "interests";
     "cv"; "comments"; "terms"]%string.
Proof. reflexivity. Qed.

(** In a document that has the elements [password], [cv] and [terms],
    no validate function of the script throws. *)
Lemma setupValidators_no_throw (h : Host) (f : string) (v : RuleDescriptor)
      (value : jsstring) :
  getElementById h "password" <> None ->
  getElementById h "cv" <> None ->
  getElementById h "terms" <> None ->
  Map_get f (setupValidators []) = Some v ->
  exists r, validate v h value = Normal r.
Proof.
  intros Hp Hc Ht.
  let reg := eval cbv [setupValidators Map_set String.eqb Ascii.eqb Bool.eqb]
             in (setupValidators []) in
  change (setupValidators []) with reg.
  cbn [Map_get].
  repeat (destruct (String.eqb f _);
          [intros H; apply Some_inj in H; subst v; cbn [validate rule];
           try (eexists; reflexivity) | ]).
  - unfold validateConfirmPassword.
    destruct (getElementById h "password"); [|contradiction].
    destruct (negb (truthy value)); [eexists; reflexivity|].
    destruct (negb (jsstring_eqb value (el_value e))); eexists; reflexivity.
  - unfold validateFile.
    destruct (getElementById h "cv") as [el|]; [|contradiction].
    destruct (hd_error (el_files el)); [|eexists; reflexivity].
    destruct (_ && _); [eexists; reflexivity|].
    destruct (_ <? _); eexists; reflexivity.
  - unfold validateCheckbox.
    destruct (getElementById h "terms") as [el|]; [|contradiction].
    destruct (negb (el_checked el)); eexists; reflexivity.
  - discriminate.
Qed.

Lemma validateField_throw_inv (h : Host) (f : string) (w : World) (e : exn) :
  fst (validateField h f w) = Throw e ->
  exists v, Map_get f (validators (this w)) = Some v /\
            validate v h (field_value h f) = Throw e.
Proof.
  rewrite validateField_unfold.
  destruct (Map_get f (validators (this w))) as [v|]; [|discriminate].
  cbv zeta. destruct (validate v h (field_value h f)) as [error | e'] eqn:E.
  - destruct (error_truthy error); discriminate.
  - cbn [fst]. intros H. exists v. split; [reflexivity | congruence].
Qed.

(** With the registry of the script and such a document,
    [validateForm] returns. *)
Lemma validateForm_returns (h : Host) (w : World) :
  validators (this w) = setupValidators [] ->
  getElementById h "password" <> None ->
  getElementById h "cv" <> None ->
  getElementById h "terms" <> None ->
  exists b w', validateForm h w = (Normal b, w').
Proof.
  intros Hreg Hp Hc Ht. unfold validateForm.
  pose proof (validateForm_loop_spec h w (Map_keys (validators (this w))) true w
                                     eq_refl (fun f H => H)) as H.
  destruct (validateForm_loop h (Map_keys (validators (this w))) true w)
    as [[b | e] w'].
  - exists b, w'. reflexivity.
  - exfalso. destruct H as (f & _ & Hthrow).
    apply validateField_throw_inv in Hthrow. destruct Hthrow as (v & Hv & Hthrow).
    rewrite Hreg in Hv.
    destruct (setupValidators_no_throw h f v (field_value h f) Hp Hc Ht Hv) as [r Hr].
    congruence.
Qed.

(** ** What the operations keep *)

Lemma validateField_keys (h : Host) (f : string) (w : World) (k : string) :
  In k (Map_keys (errors (this (snd (validateField h f w))))) ->
  In k (Map_keys (errors (this w))) \/ In k (Map_keys (validators (this w))).
Proof.
  rewrite validateField_unfold.
  destruct (Map_get f (validators (this w))) as [v|] eqn:Hv; [|auto].
  cbv zeta. destruct (validate v h _) as [error | e]; [|auto].
  destruct (error_truthy error); cbn [snd set_errors this errors]; intros H.
  - apply Map_keys_set in H. destruct H as [-> | H]; [right | left; exact H].
    apply Map_get_In_keys. exists v. exact Hv.
  - left. apply Map_keys_delete in H. exact H.
Qed.

Lemma validateForm_loop_frame (h : Host) :
  forall keys isValid w,
    let w' := snd (validateForm_loop h keys isValid w) in
    validators (this w') = validators (this w) /\
    isSubmitting (this w') = isSubmitting (this w) /\
    pending w' = pending w /\
    (forall k, In k (Map_keys (errors (this w'))) ->
               In k (Map_keys (errors (this w))) \/
               In k (Map_keys (validators (this w)))).
Proof.
  induction keys as [|f keys IH]; intros isValid w; cbv zeta.
  - cbn [validateForm_loop ret snd]. auto.
  - rewrite validateForm_loop_cons.
    pose proof (validateField_frame h f w) as (Hv & Hs & Hp).
    pose proof (validateField_keys h f w) as Hk.
    destruct (validateField h f w) as [[ok | e] w1]; cbn [fst snd] in *.
    + specialize (IH (if negb ok then false else isValid) w1). cbv zeta in IH.
      destruct IH as (Hv' & Hs' & Hp' & Hk').
      repeat split; try congruence.
      intros k H. destruct (Hk' k H) as [H1 | H1].
      * apply Hk. exact H1.
      * right. rewrite <- Hv. exact H1.
    + auto.
Qed.

(** The body of [handleSubmit] up to the suspension, spelled out. *)
Lemma try_block_unfold (h : Host) (w : World) :
  try_block h w =
    let w1 := set_isSubmitting true w in
    if submitButton h then
      match validateForm h w1 with
      | (Normal ok, w2) =>
          if negb ok then (Normal false, record_call CallFocusFirstError w2)
          else (Normal true,
                set_pending (S (pending w2)) (record_call CallTransport w2))
      | (Throw e, w2) => (Throw e, w2)
      end
    else (Throw TypeError, w1).
Proof.
  unfold try_block, bind, modify, lift, ret. cbv zeta.
  destruct (submitButton h); [|reflexivity].
  destruct (validateForm h (set_isSubmitting true w)) as [[ok | e] w2]; [|reflexivity].
  destruct ok; reflexivity.
Qed.

(** ** Invariant of the runs *)

Lemma inv_init (reg : JSMap RuleDescriptor) : reachable_inv reg (init_with reg).
Proof.
  unfold reachable_inv, init_with. cbn. repeat split. intros k [].
Qed.

Lemma inv_validateField (reg : JSMap RuleDescriptor) (h : Host) (f : string) (w : World) :
  reachable_inv reg w -> reachable_inv reg (snd (validateField h f w)).
Proof.
  intros (Hreg & Hkeys & Hpend).
  pose proof (validateField_frame h f w) as (Hv & Hs & Hp).
  pose proof (validateField_keys h f w) as Hk.
  unfold reachable_inv. rewrite Hv, Hs, Hp. repeat split; try assumption.
  intros k H. destruct (Hk k H) as [H1 | H1]; [apply Hkeys; exact H1|].
  rewrite Hreg in H1. exact H1.
Qed.

Lemma inv_validateForm (reg : JSMap RuleDescriptor) (h : Host) (w : World) :
  reachable_inv reg w -> reachable_inv reg (snd (validateForm h w)).
Proof.
  intros (Hreg & Hkeys & Hpend). unfold validateForm.
  pose proof (validateForm_loop_frame h (Map_keys (validators (this w))) true w)
    as (Hv & Hs & Hp & Hk).
  unfold reachable_inv. rewrite Hv, Hs, Hp. repeat split; try assumption.
  intros k H. destruct (Hk k H) as [H1 | H1]; [apply Hkeys; exact H1|].
  rewrite Hreg in H1. exact H1.
Qed.

Lemma inv_clearAllErrors (reg : JSMap RuleDescriptor) (w : World) :
  reachable_inv reg w -> reachable_inv reg (snd (clearAllErrors w)).
Proof.
  intros (Hreg & Hkeys & Hpend). unfold reachable_inv. cbn.
  repeat split; try assumption. intros k [].
Qed.

Lemma inv_handleSubmit (reg : JSMap RuleDescriptor) (h : Host) (w : World) :
  reachable_inv reg w -> reachable_inv reg (handleSubmit h w).
Proof.
  intros Hinv. unfold handleSubmit.
  destruct (isSubmitting (this w)) eqn:Hs; [exact Hinv|].
  rewrite try_block_unfold. cbv zeta.
  assert (H1 : validators (this (set_isSubmitting true w)) = reg /\
               (forall k, In k (Map_keys (errors (this (set_isSubmitting true w)))) ->
                          In k (Map_keys reg)) /\
               pending (set_isSubmitting true w) = 0%nat).
  { destruct Hinv as (Hreg & Hkeys & Hpend). rewrite Hs in Hpend.
    cbn. repeat split; assumption. }
  destruct (submitButton h).
  - pose proof (validateForm_loop_frame
                  h (Map_keys (validators (this (set_isSubmitting true w)))) true
                  (set_isSubmitting true w)) as (Hv & Hsub & Hp & Hk).
    fold (validateForm h (set_isSubmitting true w)) in Hv, Hsub, Hp, Hk.
    cbn [isSubmitting this set_isSubmitting] in Hsub.
    destruct H1 as (Hreg & Hkeys & Hpend).
    assert (Hkeys2 : forall k,
               In k (Map_keys (errors (this (snd (validateForm h (set_isSubmitting true w))))))
               -> In k (Map_keys reg)).
    { intros k H. destruct (Hk k H) as [H1 | H1]; [apply Hkeys; exact H1|].
      rewrite Hreg in H1. exact H1. }
    rewrite Hreg in Hv. rewrite Hpend in Hp.
    destruct (validateForm h (set_isSubmitting true w)) as [[ok | e] w2];
      cbn [snd] in *.
    + destruct ok; cbn [negb]; unfold reachable_inv; cbn; repeat split;
        try assumption. rewrite Hp, Hsub. reflexivity.
    + unfold reachable_inv. cbn. repeat split; assumption.
  - destruct H1 as (Hreg & Hkeys & Hpend). unfold reachable_inv. cbn.
    repeat split; assumption.
Qed.

Lemma inv_resume (reg : JSMap RuleDescriptor) (ok : bool) (w : World) :
  reachable_inv reg w -> reachable_inv reg (handleSubmit_resume ok w).
Proof.
  intros Hinv. unfold handleSubmit_resume.
  destruct (pending w) as [|n] eqn:Hp; [exact Hinv|].
  destruct Hinv as (Hreg & Hkeys & Hpend). rewrite Hp in Hpend.
  destruct (isSubmitting (this w)); [|discriminate Hpend].
  assert (n = 0%nat) by congruence. subst n.
  unfold reachable_inv. destruct ok; cbn; repeat split; assumption.
Qed.

Lemma inv_step (reg : JSMap RuleDescriptor) (h : Host) (e : Event) (w : World) :
  reachable_inv reg w -> reachable_inv reg (step h e w).
Proof.
  intros Hinv. destruct e as [name | name rc | | ok | | f | |]; cbn [step].
  - destruct (_ && _); [apply inv_validateField|]; exact Hinv.
  - destruct rc; [|exact Hinv].
    destruct (Map_has name _); [apply inv_validateField|]; exact Hinv.
  - apply inv_handleSubmit. exact Hinv.
  - apply inv_resume. exact Hinv.
  - apply inv_clearAllErrors. exact Hinv.
  - apply inv_validateField. exact Hinv.
  - apply inv_validateForm. exact Hinv.
  - apply inv_clearAllErrors, inv_clearAllErrors. exact Hinv.
Qed.

Lemma inv_run (reg : JSMap RuleDescriptor) (es : list (Host * Event)) :
  forall w, reachable_inv reg w -> reachable_inv reg (run es w).
Proof.
  induction es as [|[h e] es IH]; intros w Hinv; cbn [run]; [exact Hinv|].
  apply IH, inv_step. exact Hinv.
Qed.

(** ** Re-entrancy of the submission *)

(** C3.  In every state reached from the initial one by any sequence of
    events, at most one submission is pending, one is pending exactly
    when the in-flight flag is set, and a submit attempt made while the
    flag is set changes nothing: no validator is called, the state is
    the same, and the transport is not called. *)
Theorem submit_reentrancy (reg : JSMap RuleDescriptor) (es : list (Host * Event)) :
  let w := run es (init_with reg) in
  (pending w <= 1)%nat /\
  (isSubmitting (this w) = true <-> pending w = 1%nat) /\
  (forall h, isSubmitting (this w) = true -> step h EvSubmit w = w) /\
  (forall h, pending (step h EvSubmit w) <= 1)%nat.
Proof.
  cbv zeta.
  pose proof (inv_run reg es _ (inv_init reg)) as Hinv.
  assert (Hpend : forall w, reachable_inv reg w ->
                            (pending w <= 1)%nat /\
                            (isSubmitting (this w) = true <-> pending w = 1%nat)).
  { intros w (_ & _ & Hp). rewrite Hp.
    destruct (isSubmitting (this w)); split; try lia; split; congruence. }
  destruct (Hpend _ Hinv) as [H1 H2].
  repeat split; try assumption; try apply H2.
  - intros h Hs. cbn [step]. unfold handleSubmit. rewrite Hs. reflexivity.
  - intros h. apply Hpend, inv_step. exact Hinv.
Qed.

Lemma submit_reentrancy_witness :
  let h := filled_host "Abcdef1!" "Abcdef1!" in
  let w := run [(h, EvSubmit)] init in
  isSubmitting (this w) = true /\ pending w = 1%nat /\
  calls (step h EvSubmit w) = calls w /\
  calls w = map CallValidator (Map_keys (setupValidators [])) ++ [CallTransport].
Proof.
  cbv zeta.
  assert (Hs : isSubmitting (this (run [(filled_host "Abcdef1!" "Abcdef1!", EvSubmit)] init))
               = true) by (vm_compute; reflexivity).
  destruct (submit_reentrancy (setupValidators [])
                              [(filled_host "Abcdef1!" "Abcdef1!", EvSubmit)])
    as (_ & Hiff & Hnoop & _).
  split; [exact Hs|]. split; [apply Hiff; exact Hs|].
  split; [rewrite (Hnoop _ Hs); reflexivity|].
  vm_compute. reflexivity.
Defined.

(** A second submit after the first one has settled is a new
    submission. *)
Example submit_after_settle :
  let h := filled_host "Abcdef1!" "Abcdef1!" in
  let w := run [(h, EvSubmit); (h, EvSubmit); (h, EvSettle true); (h, EvSubmit)] init in
  isSubmitting (this w) = true /\ pending w = 1%nat /\
  length (filter (fun c => match c with CallTransport => true | _ => false end) (calls w))
  = 2%nat.
Proof. cbv zeta. repeat apply conj; vm_compute; reflexivity. Qed.

(** ** The confirmation of the password *)

Lemma jsstring_eqb_eq (a b : jsstring) : jsstring_eqb a b = true <-> a = b.
Proof.
  revert b. induction a as [|x a IH]; intros [|y b]; simpl;
    try (split; [discriminate | discriminate]); [tauto|].
  rewrite andb_true_iff, N.eqb_eq, IH.
  split; [intros [-> ->]; reflexivity | intros H; injection H; auto].
Qed.

Lemma truthy_nonempty (s : jsstring) : truthy s = true <-> s <> [].
Proof.
  destruct s; simpl; split; congruence.
Qed.

Lemma validateConfirmPassword_accepts (h : Host) (value : jsstring) :
  validateConfirmPassword h value = Normal None <->
  exists el, getElementById h "password" = Some el /\
             value <> [] /\ value = el_value el.
Proof.
  unfold validateConfirmPassword.
  destruct (getElementById h "password") as [el|].
  - destruct (truthy value) eqn:Ht; cbn [negb].
    + destruct (jsstring_eqb value (el_value el)) eqn:E; cbn [negb].
      * apply jsstring_eqb_eq in E. apply truthy_nonempty in Ht.
        split; [intros _; exists el; auto | reflexivity].
      * split; [discriminate|]. intros (el' & Hel & _ & Hv).
        apply Some_inj in Hel. subst el'. apply jsstring_eqb_eq in Hv. congruence.
    + split; [discriminate|]. intros (_ & _ & Hne & _).
      apply truthy_nonempty in Hne. congruence.
  - split; [discriminate|]. intros (el & Hel & _). discriminate Hel.
Qed.

Lemma Map_get_confirmPassword :
  exists v, Map_get "confirmPassword" (setupValidators []) = Some v /\
            validate v = validateConfirmPassword.
Proof. eexists. split; reflexivity. Qed.

(** C8.  The confirm-password validator accepts a value exactly when it
    is not empty and equals the value that the password element holds
    when the validator runs; [validateField] on the confirm field
    fails or passes accordingly; and [validateField] on any other
    field, the password field included, whether called directly or by
    an input or change event, leaves the stored error of the confirm
    field as it is. *)
Theorem confirmPassword_no_cascade :
  (forall h value,
      validateConfirmPassword h value = Normal None <->
      exists el, getElementById h "password" = Some el /\
                 value <> [] /\ value = el_value el) /\
  (forall h w el,
      validators (this w) = setupValidators [] ->
      getElementById h "password" = Some el ->
      fst (validateField h "confirmPassword" w)
      = Normal (truthy (field_value h "confirmPassword")
                && jsstring_eqb (field_value h "confirmPassword") (el_value el))) /\
  (forall h f w,
      f <> "confirmPassword"%string ->
      error_of (snd (validateField h f w)) "confirmPassword"
      = error_of w "confirmPassword") /\
  (forall h name rc w,
      name <> "confirmPassword"%string ->
      error_of (step h (EvInput name) w) "confirmPassword" = error_of w "confirmPassword" /\
      error_of (step h (EvChange name rc) w) "confirmPassword" = error_of w "confirmPassword" /\
      error_of (step h (ApiValidateField name) w) "confirmPassword"
      = error_of w "confirmPassword").
Proof.
  split; [exact validateConfirmPassword_accepts|].
  split; [|split].
  - intros h w el Hreg Hel. rewrite validateField_unfold, Hreg.
    destruct Map_get_confirmPassword as (v & -> & Hv). cbv zeta. rewrite Hv.
    unfold validateConfirmPassword. rewrite Hel.
    destruct (truthy (field_value h "confirmPassword")); cbn [negb andb];
      [|reflexivity].
    destruct (jsstring_eqb (field_value h "confirmPassword") (el_value el));
      reflexivity.
  - intros h f w Hne. apply validateField_other. exact Hne.
  - intros h name rc w Hne. cbn [step]. repeat split.
    + destruct (_ && _); [apply validateField_other; exact Hne | reflexivity].
    + destruct rc; [|reflexivity].
      destruct (Map_has name _); [apply validateField_other; exact Hne | reflexivity].
    + apply validateField_other. exact Hne.
Qed.

(** The confirm field is validated while it equals the password; the
    password is then changed and validated: the confirm field keeps its
    absence of error, although it no longer matches, until it is
    validated again. *)
Lemma confirmPassword_no_cascade_witness :
  let h0 := filled_host "Abcdef1!" "Abcdef1!" in
  let h1 := filled_host "Changed2?" "Abcdef1!" in
  let w := run [(h0, EvInput "confirmPassword"); (h1, EvInput "password")] init in
  error_of w "confirmPassword" = None /\
  error_of w "confirmPassword"
  = error_of (run [(h0, EvInput "confirmPassword")] init) "confirmPassword" /\
  fst (validateField h1 "confirmPassword" w) = Normal false /\
  error_of (snd (validateField h1 "confirmPassword" w)) "confirmPassword"
  = Some msg_confirm_mismatch.
Proof.
  cbv zeta.
  destruct confirmPassword_no_cascade as (_ & _ & _ & Hstep).
  split; [vm_compute; reflexivity|].
  split.
  - cbn [run].
    destruct (Hstep (filled_host "Changed2?" "Abcdef1!") "password"%string true
                    (step (filled_host "Abcdef1!" "Abcdef1!")
                          (EvInput "confirmPassword") init)) as (H & _).
    + discriminate.
    + exact H.
  - split; vm_compute; reflexivity.
Defined.

(** ** Fields outside the registry *)

(** C10.  For a field name that the registry does not hold,
    [validateField] returns [true] and changes nothing; and in every
    state reached from the initial one by any sequence of events, every
    key of the error map is a key of the registry. *)
Theorem unregistered_field_ignored :
  (forall h fieldName w,
      Map_get fieldName (validators (this w)) = None ->
      validateField h fieldName w = (Normal true, w)) /\
  (forall reg es k,
      In k (Map_keys (errors (this (run es (init_with reg))))) ->
      In k (Map_keys reg)).
Proof.
  split.
  - intros h f w Hnone. rewrite validateField_unfold, Hnone. reflexivity.
  - intros reg es k Hk.
    destruct (inv_run reg es _ (inv_init reg)) as (_ & Hkeys & _).
    apply Hkeys. exact Hk.
Qed.

Lemma unregistered_field_ignored_witness :
  let h := filled_host "abc" "" in
  validateField h "nickname" init = (Normal true, init) /\
  Map_keys (errors (this (run [(h, ApiValidateField "nickname"); (h, ApiValidateForm)] init)))
  = ["password"; "confirmPassword"]%string /\
  In "password"%string (Map_keys (setupValidators [])).
Proof.
  cbv zeta. destruct unregistered_field_ignored as (H1 & H2).
  split; [apply H1; reflexivity|].
  assert (E : Map_keys (errors (this (run [(filled_host "abc" "", ApiValidateField "nickname");
                                           (filled_host "abc" "", ApiValidateForm)] init)))
              = ["password"; "confirmPassword"]%string) by (vm_compute; reflexivity).
  split; [exact E|].
  apply (H2 (setupValidators [])
            [(filled_host "abc" "", ApiValidateField "nickname");
             (filled_host "abc" "", ApiValidateForm)]).
  fold init. rewrite E. left. reflexivity.
Defined.

(** ** Values that do not parse *)

(** The salary validator reports a value that does not parse. *)
Lemma validateSalary_not_a_number (value : jsstring) :
  value <> [] -> isNaN (parseFloat value) = true ->
  validateSalary value = Some msg_salary_nan.
Proof.
  intros Hne Hnan. unfold validateSalary. rewrite Hnan.
  destruct value; [contradiction | reflexivity].
Qed.

(** C4 fails on the birth date: a value that is not empty and does not
    parse as a date gives an invalid [Date], every comparison with it is
    false, and [validateBirthDate] accepts the value. *)
Theorem validateBirthDate_accepts_unparseable (h : Host) (value : jsstring) :
  value <> [] -> Date_parse h value = None ->
  validateBirthDate h value = None.
Proof.
  intros Hne Hparse. rewrite (validateBirthDate_order h value Hne).
  unfold new_Date_string. rewrite Hparse. cbv zeta. unfold num_gt, num_lt.
  destruct (maxDate h); reflexivity.
Qed.

Lemma validateBirthDate_accepts_unparseable_witness :
  validateBirthDate (clock_host 0 noon_2026_11_02) (js "abc") = None /\
  validateBirthDate (clock_host 0 noon_2026_11_02) (js "2008-13-45") = None /\
  validateSalary (js "abc") = Some msg_salary_nan.
Proof.
  split; [|split].
  - apply validateBirthDate_accepts_unparseable; [discriminate | reflexivity].
  - apply validateBirthDate_accepts_unparseable; [discriminate | reflexivity].
  - apply validateSalary_not_a_number; [discriminate | reflexivity].
Defined.

(** ** The matcher and the patterns *)

Lemma last_unit_app (prev : option N) (a b : jsstring) :
  last_unit prev (a ++ b) = last_unit (last_unit prev a) b.
Proof. revert prev. induction a as [|c a IH]; intros prev; simpl; [reflexivity | apply IH]. Qed.

Lemma rmatch_Star_loop (r : regex) (prev : option N) (s : jsstring)
      (k : option N -> jsstring -> bool) :
  rmatch (Star r) prev s k = star_loop (rmatch r) k (length s) prev s.
Proof. reflexivity. Qed.

(** The loop on [Star r] is correct as soon as the matcher of [r] is. *)
Lemma star_loop_spec (r : regex) (k : option N -> jsstring -> bool) :
  (forall prev s k',
      rmatch r prev s k' = true <->
      exists s1 s2, s = s1 ++ s2 /\ matches r prev s1 s2 /\
                    k' (last_unit prev s1) s2 = true) ->
  forall fuel prev s,
    (length s <= fuel)%nat ->
    (star_loop (rmatch r) k fuel prev s = true <->
     exists s1 s2, s = s1 ++ s2 /\ matches (Star r) prev s1 s2 /\
                   k (last_unit prev s1) s2 = true).
Proof.
  intros Hr. induction fuel as [|fuel IH]; intros prev s Hlen.
  - destruct s; [|simpl in Hlen; lia]. simpl. split.
    + intros Hk. exists [], []. repeat split; [constructor | exact Hk].
    + intros (s1 & s2 & Hs & Hm & Hk).
      symmetry in Hs. apply app_eq_nil in Hs. destruct Hs; subst. exact Hk.
  - simpl. rewrite orb_true_iff, Hr. split.
    + intros [(s1 & s2 & Hs & Hm & Hk) | Hk].
      * apply andb_true_iff in Hk. destruct Hk as [Hlt Hk].
        apply Nat.ltb_lt in Hlt. subst s. rewrite length_app in Hlt, Hlen.
        apply IH in Hk; [|lia].
        destruct Hk as (s3 & s4 & Hs & Hm' & Hk). subst s2.
        exists (s1 ++ s3), s4. rewrite app_assoc, last_unit_app.
        repeat split; [|exact Hk].
        constructor; [destruct s1; [simpl in Hlt; lia | discriminate] | exact Hm | exact Hm'].
      * exists [], s. repeat split; [constructor | exact Hk].
    + intros (s1 & s2 & Hs & Hm & Hk). inversion Hm; subst.
      * right. exact Hk.
      * left. exists s0, (s3 ++ s2). rewrite <- app_assoc. repeat split; [assumption|].
        apply andb_true_iff. split.
        -- apply Nat.ltb_lt. rewrite !length_app. destruct s0; [congruence | simpl; lia].
        -- apply IH.
           ++ rewrite <- app_assoc, !length_app in Hlen. rewrite length_app.
              destruct s0; [congruence | simpl in Hlen; lia].
           ++ exists s3, s2. rewrite last_unit_app in Hk. repeat split; assumption.
Qed.

(** The backtracking matcher finds a match exactly when there is one:
    [rmatch r prev s k] holds if and only if [r] matches a prefix of
    [s] after which the continuation holds. *)
Lemma rmatch_spec (r : regex) :
  forall prev s k,
    rmatch r prev s k = true <->
    exists s1 s2, s = s1 ++ s2 /\ matches r prev s1 s2 /\
                  k (last_unit prev s1) s2 = true.
Proof.
  induction r as [p | | r1 IH1 r2 IH2 | r1 IH1 r2 IH2 | r IH | | | ]; intros prev s k.
  - simpl. split.
    + destruct s as [|c s']; [discriminate|]. intros H. apply andb_true_iff in H.
      destruct H as [Hp Hk]. exists [c], s'. repeat split; [constructor; exact Hp | exact Hk].
    + intros (s1 & s2 & Hs & Hm & Hk). inversion Hm; subst. simpl in *.
      apply andb_true_iff. split; assumption.
  - simpl. split.
    + intros Hk. exists [], s. repeat split; [constructor | exact Hk].
    + intros (s1 & s2 & Hs & Hm & Hk). inversion Hm; subst. exact Hk.
  - simpl. rewrite IH1. split.
    + intros (s1 & s2 & Hs & Hm & Hk). apply IH2 in Hk.
      destruct Hk as (s3 & s4 & Hs' & Hm' & Hk). subst.
      exists (s1 ++ s3), s4. rewrite app_assoc, last_unit_app.
      repeat split; [constructor; assumption | exact Hk].
    + intros (s1 & s2 & Hs & Hm & Hk). inversion Hm; subst.
      exists s0, (s3 ++ s2). rewrite <- app_assoc. repeat split; [assumption|].
      apply IH2. exists s3, s2. rewrite last_unit_app in Hk. repeat split; assumption.
  - simpl. rewrite orb_true_iff, IH1, IH2. split.
    + intros [(s1 & s2 & Hs & Hm & Hk) | (s1 & s2 & Hs & Hm & Hk)];
        exists s1, s2; repeat split; try assumption; [apply MAltL | apply MAltR]; assumption.
    + intros (s1 & s2 & Hs & Hm & Hk). inversion Hm; subst; [left | right];
        exists s1, s2; repeat split; assumption.
  - rewrite rmatch_Star_loop. apply star_loop_spec; [exact IH | lia].
  - simpl. split.
    + destruct prev; [discriminate|]. intros Hk. exists [], s.
      repeat split; [constructor | exact Hk].
    + intros (s1 & s2 & Hs & Hm & Hk). inversion Hm; subst. exact Hk.
  - simpl. split.
    + destruct s; [|discriminate]. intros Hk. exists [], [].
      repeat split; [constructor | exact Hk].
    + intros (s1 & s2 & Hs & Hm & Hk). inversion Hm; subst. exact Hk.
  - simpl. rewrite andb_true_iff. split.
    + intros [Hx Hk]. exists [], s. repeat split; [constructor; exact Hx | exact Hk].
    + intros (s1 & s2 & Hs & Hm & Hk). inversion Hm; subst. split; assumption.
Qed.

Lemma matches_Class (p : N -> bool) (prev : option N) (s rest : jsstring) :
  matches (Class p) prev s rest <-> exists c, s = [c] /\ p c = true.
Proof.
  split.
  - intros H. inversion H; subst. eexists; split; [reflexivity | assumption].
  - intros (c & -> & Hp). constructor. exact Hp.
Qed.

Lemma matches_Seq (r1 r2 : regex) (prev : option N) (s rest : jsstring) :
  matches (Seq r1 r2) prev s rest <->
  exists a b, s = a ++ b /\ matches r1 prev a (b ++ rest) /\
              matches r2 (last_unit prev a) b rest.
Proof.
  split.
  - intros H. inversion H; subst. exists s1, s2. repeat split; assumption.
  - intros (a & b & -> & H1 & H2). constructor; assumption.
Qed.

Lemma matches_Alt (r1 r2 : regex) (prev : option N) (s rest : jsstring) :
  matches (Alt r1 r2) prev s rest <-> matches r1 prev s rest \/ matches r2 prev s rest.
Proof.
  split.
  - intros H. inversion H; subst; [left | right]; assumption.
  - intros [H | H]; [apply MAltL | apply MAltR]; exact H.
Qed.

Lemma matches_Empty (prev : option N) (s rest : jsstring) :
  matches Empty prev s rest <-> s = [].
Proof.
  split.
  - intros H. inversion H. reflexivity.
  - intros ->. constructor.
Qed.

Lemma matches_Eol (prev : option N) (s rest : jsstring) :
  matches Eol prev s rest <-> s = [] /\ rest = [].
Proof.
  split.
  - intros H. inversion H. split; reflexivity.
  - intros [-> ->]. constructor.
Qed.

Lemma matches_WordBoundary (prev : option N) (s rest : jsstring) :
  matches WordBoundary prev s rest <->
  s = [] /\ xorb (is_word prev) (is_word (hd_error rest)) = true.
Proof.
  split.
  - intros H. inversion H; subst. split; [reflexivity | assumption].
  - intros [-> H]. constructor. exact H.
Qed.

Lemma matches_Opt (r : regex) (prev : option N) (s rest : jsstring) :
  matches (Opt r) prev s rest <-> matches r prev s rest \/ s = [].
Proof. unfold Opt. rewrite matches_Alt, matches_Empty. reflexivity. Qed.

Lemma matches_Lit (c : N) (prev : option N) (s rest : jsstring) :
  matches (Lit c) prev s rest <-> s = [c].
Proof.
  unfold Lit. rewrite matches_Class. split.
  - intros (c' & -> & H). apply N.eqb_eq in H. subst. reflexivity.
  - intros ->. exists c. split; [reflexivity | apply N.eqb_refl].
Qed.

Lemma matches_Word (w : jsstring) :
  forall prev s rest, matches (Word w) prev s rest <-> s = w.
Proof.
  induction w as [|c w IH]; intros prev s rest; simpl.
  - apply matches_Empty.
  - rewrite matches_Seq. split.
    + intros (a & b & -> & Ha & Hb). apply matches_Lit in Ha. apply IH in Hb.
      subst. reflexivity.
    + intros ->. exists [c], w. repeat split; [apply matches_Lit | apply IH]; reflexivity.
Qed.

Lemma matches_Star_Class (p : N -> bool) (s : jsstring) :
  forall prev rest, matches (Star (Class p)) prev s rest <-> forallb p s = true.
Proof.
  intros prev rest. split.
  - intros H. remember (Star (Class p)) as r eqn:Er.
    induction H; try discriminate.
    + reflexivity.
    + injection Er as ->. apply matches_Class in H0. destruct H0 as (c & -> & Hc).
      simpl. rewrite Hc. apply IHmatches2. reflexivity.
  - revert prev. induction s as [|c s IH]; intros prev H.
    + constructor.
    + simpl in H. apply andb_true_iff in H. destruct H as [Hc Hs].
      change (c :: s) with ([c] ++ s). constructor.
      * discriminate.
      * constructor. exact Hc.
      * apply IH. exact Hs.
Qed.

Lemma matches_Plus_Class (p : N -> bool) (prev : option N) (s rest : jsstring) :
  matches (Plus (Class p)) prev s rest <-> s <> [] /\ forallb p s = true.
Proof.
  unfold Plus. rewrite matches_Seq. split.
  - intros (a & b & -> & Ha & Hb). apply matches_Class in Ha.
    destruct Ha as (c & -> & Hc). apply matches_Star_Class in Hb.
    split; [discriminate | simpl; rewrite Hc; exact Hb].
  - intros [Hne H]. destruct s as [|c s]; [congruence|].
    simpl in H. apply andb_true_iff in H. destruct H as [Hc Hs].
    exists [c], s. repeat split.
    + constructor. exact Hc.
    + apply matches_Star_Class. exact Hs.
Qed.

Lemma matches_Exactly_Class (p : N -> bool) (n : nat) :
  forall prev s rest,
    matches (Exactly n (Class p)) prev s rest <-> length s = n /\ forallb p s = true.
Proof.
  induction n as [|n IH]; intros prev s rest; simpl.
  - rewrite matches_Empty. split.
    + intros ->. split; reflexivity.
    + intros [H _]. destruct s; [reflexivity | discriminate].
  - rewrite matches_Seq. split.
    + intros (a & b & -> & Ha & Hb). apply matches_Class in Ha.
      destruct Ha as (c & -> & Hc). apply IH in Hb. destruct Hb as [Hl Hb].
      simpl. rewrite Hc, Hl. split; [reflexivity | exact Hb].
    + intros [Hl H]. destruct s as [|c s]; [discriminate|].
      simpl in H, Hl. apply andb_true_iff in H. destruct H as [Hc Hs].
      exists [c], s. repeat split.
      * constructor. exact Hc.
      * apply IH. split; [lia | exact Hs].
Qed.

Lemma matches_UpTo_Class (p : N -> bool) (n : nat) :
  forall prev s rest,
    matches (UpTo n (Class p)) prev s rest <-> (length s <= n)%nat /\ forallb p s = true.
Proof.
  induction n as [|n IH]; intros prev s rest; simpl.
  - rewrite matches_Empty. split.
    + intros ->. split; [simpl; lia | reflexivity].
    + intros [H _]. destruct s; [reflexivity | simpl in H; lia].
  - rewrite matches_Opt, matches_Seq. split.
    + intros [(a & b & -> & Ha & Hb) | ->].
      * apply matches_Class in Ha. destruct Ha as (c & -> & Hc).
        apply IH in Hb. destruct Hb as [Hl Hb].
        simpl. rewrite Hc. split; [lia | exact Hb].
      * split; [simpl; lia | reflexivity].
    + intros [Hl H]. destruct s as [|c s]; [right; reflexivity | left].
      simpl in H, Hl. apply andb_true_iff in H. destruct H as [Hc Hs].
      exists [c], s. repeat split.
      * constructor. exact Hc.
      * apply IH. split; [lia | exact Hs].
Qed.

Lemma forallb_app_true (A : Type) (f : A -> bool) (a b : list A) :
  forallb f (a ++ b) = true <-> forallb f a = true /\ forallb f b = true.
Proof. rewrite forallb_app. apply andb_true_iff. Qed.

Lemma matches_Between_Class (p : N -> bool) (lo hi : nat) (prev : option N)
      (s rest : jsstring) :
  (lo <= hi)%nat ->
  (matches (Between lo hi (Class p)) prev s rest <->
   (lo <= length s <= hi)%nat /\ forallb p s = true).
Proof.
  intros Hle. unfold Between. rewrite matches_Seq. split.
  - intros (a & b & -> & Ha & Hb). apply matches_Exactly_Class in Ha.
    apply matches_UpTo_Class in Hb. destruct Ha as [Hla Ha], Hb as [Hlb Hb].
    rewrite length_app. split; [lia | apply forallb_app_true; split; assumption].
  - intros [Hl H]. exists (firstn lo s), (skipn lo s).
    rewrite <- (firstn_skipn lo s) in H. apply forallb_app_true in H.
    destruct H as [Ha Hb]. rewrite firstn_skipn. repeat split.
    + apply matches_Exactly_Class. split; [apply firstn_length_le; lia | exact Ha].
    + apply matches_UpTo_Class. split; [rewrite length_skipn; lia | exact Hb].
Qed.

(** A pattern that starts with [^] is tried at the start of the input
    only. *)
Lemma test_anchored_spec (r : regex) (s : jsstring) :
  test (Seq Bol r) s = true <->
  exists s1 s2, s = s1 ++ s2 /\ matches r None s1 s2.
Proof.
  rewrite test_anchored, rmatch_spec. split.
  - intros (s1 & s2 & Hs & Hm & _). exists s1, s2. split; assumption.
  - intros (s1 & s2 & Hs & Hm). exists s1, s2. repeat split; assumption.
Qed.

(** A pattern of one class is found when some code unit is in the
    class. *)
Lemma test_Class (p : N -> bool) (s : jsstring) : test (Class p) s = existsb p s.
Proof.
  unfold test. generalize (@None N) as prev.
  induction s as [|c s IH]; intros prev; simpl; [reflexivity|].
  rewrite andb_true_r, IH. reflexivity.
Qed.

Ltac inv_matches :=
  repeat match goal with
         | H : matches (Plus (Class _)) _ _ _ |- _ =>
             apply matches_Plus_Class in H; destruct H as [? ?]
         | H : matches (Star (Class _)) _ _ _ |- _ => apply matches_Star_Class in H
         | H : matches (Between _ _ (Class _)) _ _ _ |- _ =>
             apply matches_Between_Class in H; [destruct H as [? ?] | lia]
         | H : matches (Exactly _ (Class _)) _ _ _ |- _ =>
             apply matches_Exactly_Class in H; destruct H as [? ?]
         | H : matches (Lit _) _ _ _ |- _ => apply matches_Lit in H
         | H : matches (Word _) _ _ _ |- _ => apply matches_Word in H
         | H : matches (Opt _) _ _ _ |- _ => apply matches_Opt in H; destruct H as [H | H]
         | H : matches (Class _) _ _ _ |- _ =>
             apply matches_Class in H; destruct H as (? & ? & ?)
         | H : matches (Alt _ _) _ _ _ |- _ => apply matches_Alt in H; destruct H as [H | H]
         | H : matches (Seq _ _) _ _ _ |- _ =>
             apply matches_Seq in H; destruct H as (? & ? & ? & ? & ?)
         | H : matches Eol _ _ _ |- _ => apply matches_Eol in H; destruct H as [? ?]
         | H : matches WordBoundary _ _ _ |- _ =>
             apply matches_WordBoundary in H; destruct H as [? ?]
         | H : matches Empty _ _ _ |- _ => apply matches_Empty in H
         end.

(** *** Blank values *)

Lemma trimStart_nil (s : jsstring) : trimStart s = [] <-> forallb isWhiteSpace s = true.
Proof.
  induction s as [|c s IH]; simpl; [tauto|].
  destruct (isWhiteSpace c); simpl; [exact IH | split; discriminate].
Qed.

Lemma trim_nil (s : jsstring) : trim s = [] <-> forallb isWhiteSpace s = true.
Proof.
  rewrite <- trimStart_nil. unfold trim, trimEnd. split.
  - intros H. apply (f_equal (@rev N)) in H. rewrite rev_involutive in H. simpl in H.
    apply trimStart_nil in H. rewrite forallb_rev in H.
    destruct (trimStart s) as [|c r] eqn:E; [reflexivity|].
    apply trimStart_head in E. simpl in H. rewrite E in H. discriminate.
  - intros ->. reflexivity.
Qed.

Lemma truthy_trim_iff (s : jsstring) :
  truthy (trim s) = false <-> forallb isWhiteSpace s = true.
Proof.
  rewrite <- trim_nil. destruct (trim s); simpl; split; congruence.
Qed.

(** *** Email *)

Lemma test_emailPattern (s : jsstring) :
  test emailPattern s = true <->
  exists a b c,
    s = a ++ [64%N] ++ b ++ [46%N] ++ c /\
    a <> [] /\ b <> [] /\ c <> [] /\
    forallb isEmailChar a = true /\ forallb isEmailChar b = true /\
    forallb isEmailChar c = true.
Proof.
  unfold emailPattern. cbn [Cat]. rewrite test_anchored_spec. split.
  - intros (s1 & s2 & -> & Hm). inv_matches. subst.
    rewrite !app_nil_r. do 3 eexists. split; [reflexivity | repeat split; eassumption].
  - intros (a & b & c & -> & Ha & Hb & Hc & Fa & Fb & Fc).
    exists (a ++ [64%N] ++ b ++ [46%N] ++ c), []. split; [rewrite app_nil_r; reflexivity|].
    apply matches_Seq. exists a, ([64%N] ++ b ++ [46%N] ++ c). repeat split.
    { apply matches_Plus_Class. split; assumption. }
    apply matches_Seq. exists [64%N], (b ++ [46%N] ++ c). repeat split.
    { apply matches_Lit. reflexivity. }
    apply matches_Seq. exists b, ([46%N] ++ c). repeat split.
    { apply matches_Plus_Class. split; assumption. }
    apply matches_Seq. exists [46%N], c. repeat split.
    { apply matches_Lit. reflexivity. }
    apply matches_Seq. exists c, []. repeat split; [rewrite app_nil_r; reflexivity | |].
    { apply matches_Plus_Class. split; assumption. }
    apply matches_Eol. split; reflexivity.
Qed.

Lemma isEmailChar_not_space (s : jsstring) :
  forallb isEmailChar s = true -> existsb isWhiteSpace s = false /\ filter (N.eqb 64) s = [].
Proof.
  induction s as [|c s IH]; cbn [forallb existsb filter]; [split; reflexivity|].
  intros H. apply andb_true_iff in H. destruct H as [Hc Hs].
  destruct (IH Hs) as [H1 H2]. unfold isEmailChar in Hc.
  apply negb_true_iff, orb_false_iff in Hc. destruct Hc as [Hw Ha].
  rewrite Hw, H1. rewrite N.eqb_sym, Ha. split; [reflexivity | exact H2].
Qed.

(** X1.  [validateEmail] accepts a value exactly when it is a local
    part, the sign [@], a domain, a dot and a last label, the three
    parts being non-empty and free of white space and of [@].  The
    required-field message is returned exactly for the values made of
    white space only (the empty one included), and every other
    rejected value gets the invalid-address message.  The pattern is
    applied to the value as typed, not to the trimmed one: an accepted
    value holds no white space at all, and exactly one [@]. *)
Theorem validateEmail_accepts (value : jsstring) :
  (validateEmail value = None <->
   exists local domain tld,
     value = local ++ [64%N] ++ domain ++ [46%N] ++ tld /\
     local <> [] /\ domain <> [] /\ tld <> [] /\
     forallb isEmailChar local = true /\ forallb isEmailChar domain = true /\
     forallb isEmailChar tld = true) /\
  (validateEmail value = Some msg_email_required <-> forallb isWhiteSpace value = true) /\
  (validateEmail value = None ->
   existsb isWhiteSpace value = false /\ length (filter (N.eqb 64) value) = 1%nat) /\
  (validateEmail value <> None -> forallb isWhiteSpace value = false ->
   validateEmail value = Some msg_email_invalid).
Proof.
  assert (Hacc : validateEmail value = None <-> test emailPattern value = true).
  { unfold validateEmail. destruct (truthy (trim value)) eqn:Et; simpl.
    - destruct (test emailPattern value); simpl; split; congruence.
    - split; [discriminate|]. intros Ht. exfalso.
      apply truthy_trim_iff in Et. apply test_emailPattern in Ht.
      destruct Ht as (a & b & c & -> & Ha & _ & _ & Fa & _).
      destruct a as [|x a]; [congruence|]. simpl in Et, Fa.
      apply andb_true_iff in Et, Fa. destruct Et as [Et _], Fa as [Fa _].
      unfold isEmailChar in Fa. rewrite Et in Fa. discriminate. }
  split; [|split; [|split]].
  - rewrite Hacc. apply test_emailPattern.
  - unfold validateEmail. rewrite <- truthy_trim_iff.
    destruct (truthy (trim value)); simpl.
    + destruct (test emailPattern value); simpl; split; discriminate.
    + split; reflexivity.
  - intros H. apply Hacc, test_emailPattern in H.
    destruct H as (a & b & c & -> & _ & _ & _ & Fa & Fb & Fc).
    apply isEmailChar_not_space in Fa, Fb, Fc.
    destruct Fa as [Wa Aa], Fb as [Wb Ab], Fc as [Wc Ac].
    rewrite !existsb_app, !filter_app, Wa, Wb, Wc, Aa, Ab, Ac. split; reflexivity.
  - unfold validateEmail. destruct (truthy (trim value)) eqn:Et; simpl.
    + destruct (test emailPattern value); simpl; [congruence | reflexivity].
    + apply truthy_trim_iff in Et. congruence.
Qed.

(** *** Telephone *)

Lemma test_ecuadorianPattern (s : jsstring) :
  test ecuadorianPattern s = true <->
  exists prefix d ds,
    s = prefix ++ d :: ds /\
    In prefix [[]; js "+593"; js "593"; js "0"] /\
    in_range 50 57 d = true /\ length ds = 8%nat /\ forallb isDigit ds = true.
Proof.
  unfold ecuadorianPattern. cbn [Cat]. rewrite test_anchored_spec. split.
  - intros (s1 & s2 & -> & Hm). inv_matches; subst; rewrite !app_nil_r;
      do 3 eexists; (split; [reflexivity|]); (split; [cbn [In]; tauto|]);
      repeat split; assumption.
  - intros (prefix & d & ds & -> & Hp & Hd & Hl & Hds).
    exists (prefix ++ d :: ds), []. split; [rewrite app_nil_r; reflexivity|].
    apply matches_Seq. exists prefix, (d :: ds). repeat split.
    { apply matches_Opt. cbn [In] in Hp.
      destruct Hp as [<- | [<- | [<- | [<- | []]]]];
        [right; reflexivity | left ..];
        rewrite !matches_Alt, !matches_Word; tauto. }
    apply matches_Seq. exists [d], ds. repeat split.
    { constructor. exact Hd. }
    apply matches_Seq. exists ds, []. repeat split; [rewrite app_nil_r; reflexivity | |].
    { apply matches_Exactly_Class. split; assumption. }
    apply matches_Eol. split; reflexivity.
Qed.

Lemma remove_all_nil_blank (value : jsstring) :
  forallb isWhiteSpace value = true -> remove_all isPhoneNoise value = [].
Proof.
  induction value as [|c s IH]; cbn [forallb remove_all filter]; [reflexivity|].
  intros H. apply andb_true_iff in H. destruct H as [Hc Hs].
  unfold isPhoneNoise at 1. rewrite Hc. simpl. apply IH. exact Hs.
Qed.

(** X2.  [validatePhone] accepts a value exactly when, once white
    space, hyphens and parentheses are removed, it is one of the
    prefixes [+593], [593], [0] or none, then a digit from 2 to 9, then
    eight digits.  The required-field message is returned exactly for
    the values made of white space only.  An accepted value has 9, 10,
    12 or 13 code units left after the removal, and two values that
    differ by the removed characters only are accepted or rejected
    together. *)
Theorem validatePhone_accepts (value : jsstring) :
  (validatePhone value = None <->
   exists prefix d ds,
     remove_all isPhoneNoise value = prefix ++ d :: ds /\
     In prefix [[]; js "+593"; js "593"; js "0"] /\
     in_range 50 57 d = true /\ length ds = 8%nat /\ forallb isDigit ds = true) /\
  (validatePhone value = Some msg_phone_required <-> forallb isWhiteSpace value = true) /\
  (validatePhone value = None ->
   In (length (remove_all isPhoneNoise value)) [9; 10; 12; 13]%nat) /\
  (forall value' : jsstring,
      remove_all isPhoneNoise value' = remove_all isPhoneNoise value ->
      (validatePhone value' = None <-> validatePhone value = None)).
Proof.
  assert (Hacc : forall v, validatePhone v = None <->
                           test ecuadorianPattern (remove_all isPhoneNoise v) = true).
  { intros v. unfold validatePhone. destruct (truthy (trim v)) eqn:Et; simpl.
    - destruct (test ecuadorianPattern _); simpl; split; congruence.
    - split; [discriminate|]. intros Ht. exfalso.
      apply truthy_trim_iff, remove_all_nil_blank in Et. rewrite Et in Ht.
      vm_compute in Ht. discriminate. }
  split; [|split; [|split]].
  - rewrite Hacc. apply test_ecuadorianPattern.
  - unfold validatePhone. rewrite <- truthy_trim_iff.
    destruct (truthy (trim value)); simpl.
    + destruct (test ecuadorianPattern _); simpl; split; discriminate.
    + split; reflexivity.
  - intros H. apply Hacc, test_ecuadorianPattern in H.
    destruct H as (prefix & d & ds & -> & Hp & _ & Hl & _).
    rewrite length_app. cbn [length]. rewrite Hl. cbn [In] in *.
    destruct Hp as [<- | [<- | [<- | [<- | []]]]]; vm_compute; tauto.
  - intros value' E. rewrite !Hacc, E. reflexivity.
Qed.

(** *** Web site *)

Lemma last_unit_nonempty (p q : option N) (s : jsstring) :
  (1 <= length s)%nat -> last_unit p s = last_unit q s.
Proof. destruct s; [simpl; lia | reflexivity]. Qed.

Lemma test_urlPattern (s : jsstring) :
  test urlPattern s = true <->
  exists scheme www host tld path,
    s = scheme ++ js "://" ++ www ++ host ++ [46%N] ++ tld ++ path /\
    (scheme = js "http" \/ scheme = js "https") /\
    (www = [] \/ www = js "www.") /\
    (1 <= length host <= 256)%nat /\ forallb isHostChar host = true /\
    (1 <= length tld <= 6)%nat /\ forallb isTldChar tld = true /\
    xorb (is_word (last_unit None tld)) (is_word (hd_error path)) = true /\
    forallb isPathChar path = true.
Proof.
  unfold urlPattern. cbn [Cat]. rewrite test_anchored_spec. split.
  - intros (s1 & s2 & -> & Hm). inv_matches; subst; rewrite ?app_nil_r in *;
      match goal with
      | Hx : xorb (is_word (last_unit ?p ?t)) _ = true, Ht : (1 <= length ?t <= 6)%nat
        |- exists _ _ _ _ _,
          js "http" ++ ?o ++ js "://" ++ ?w ++ ?h ++ [46%N] ++ ?t ++ [] ++ ?q = _ /\ _ =>
          rewrite (last_unit_nonempty p None t) in Hx by lia;
          exists (js "http" ++ o), w, h, t, q
      end;
      (split; [rewrite <- app_assoc; reflexivity|]);
      (split; [first [left; apply app_nil_r | right; reflexivity]|]);
      (split; [first [left; reflexivity | right; reflexivity]|]);
      repeat split; first [assumption | lia].
  - intros (scheme & www & host & tld & path & -> & Hs & Hw & Hlh & Hh & Hlt & Ht & Hx & Hp).
    exists (scheme ++ js "://" ++ www ++ host ++ [46%N] ++ tld ++ path), [].
    split; [rewrite app_nil_r; reflexivity|].
    assert (Es : exists o, scheme = js "http" ++ o /\ (o = [115%N] \/ o = [])).
    { destruct Hs as [-> | ->];
        [exists []; split; [symmetry; apply app_nil_r | right; reflexivity]
        | exists [115%N]; split; [reflexivity | left; reflexivity]]. }
    destruct Es as (o & -> & Ho). rewrite <- app_assoc.
    apply matches_Seq. eexists _, _. split; [reflexivity|]. split.
    { apply matches_Word. reflexivity. }
    apply matches_Seq. eexists _, _. split; [reflexivity|]. split.
    { apply matches_Opt. rewrite matches_Lit. tauto. }
    apply matches_Seq. eexists _, _. split; [reflexivity|]. split.
    { apply matches_Word. reflexivity. }
    apply matches_Seq. eexists _, _. split; [reflexivity|]. split.
    { apply matches_Opt. rewrite matches_Word. tauto. }
    apply matches_Seq. eexists _, _. split; [reflexivity|]. split.
    { apply matches_Between_Class; [lia | split; assumption]. }
    apply matches_Seq. eexists _, _. split; [reflexivity|]. split.
    { apply matches_Lit. reflexivity. }
    apply matches_Seq. eexists _, _. split; [reflexivity|]. split.
    { apply matches_Between_Class; [lia | split; assumption]. }
    apply matches_Seq. exists [], path. split; [reflexivity|]. split.
    { apply matches_WordBoundary. split; [reflexivity|].
      rewrite app_nil_r. rewrite (last_unit_nonempty _ None tld) by lia. exact Hx. }
    apply matches_Seq. exists path, []. split; [symmetry; apply app_nil_r|]. split.
    { apply matches_Star_Class. exact Hp. }
    apply matches_Eol. split; reflexivity.
Qed.

Ltac class_arith H :=
  unfold isPathChar, isHostChar, isTldChar, isAlnum, isLower, isUpper, isDigit,
    one_of, in_range in H;
  cbn [existsb] in H;
  repeat rewrite ?orb_true_iff, ?andb_true_iff, ?N.leb_le, ?N.eqb_eq, ?orb_false_r in H.

Lemma printable_not_space (c : N) : (33 <= c <= 126)%N -> isWhiteSpace c = false.
Proof.
  intros H. unfold isWhiteSpace, one_of, in_range. cbn [existsb].
  repeat match goal with
         | |- context [N.eqb ?a ?b] => destruct (N.eqb_spec a b); [lia|]
         end.
  destruct (N.leb_spec 8192 c); [lia|]. reflexivity.
Qed.

Lemma isPathChar_not_space (c : N) : isPathChar c = true -> isWhiteSpace c = false.
Proof. intros H. apply printable_not_space. class_arith H. lia. Qed.

Lemma isHostChar_not_space (c : N) : isHostChar c = true -> isWhiteSpace c = false.
Proof. intros H. apply printable_not_space. class_arith H. lia. Qed.

Lemma isTldChar_not_space (c : N) : isTldChar c = true -> isWhiteSpace c = false.
Proof. intros H. apply printable_not_space. class_arith H. lia. Qed.

Lemma forallb_not_space (p : N -> bool) (s : jsstring) :
  (forall c, p c = true -> isWhiteSpace c = false) ->
  forallb p s = true -> existsb isWhiteSpace s = false.
Proof.
  intros Hp. induction s as [|c s IH]; cbn [forallb existsb]; [reflexivity|].
  intros H. apply andb_true_iff in H. destruct H as [Hc Hs].
  rewrite (Hp c Hc), (IH Hs). reflexivity.
Qed.

(** X4.  [validateWebsite] accepts a value exactly when it is made of
    white space only (the field is optional) or has the shape of the
    pattern: [http] or [https], [://], an optional [www.], 1 to 256
    host characters, a dot, 1 to 6 characters of a last label that ends
    at a word boundary, and path characters up to the end.  A value
    that is accepted and not blank starts with [http://] or [https://]
    and holds no white space, so that a URL typed with a space before
    or after it is rejected; every rejected value gets the one message
    of the validator. *)
Theorem validateWebsite_accepts (value : jsstring) :
  (validateWebsite value = None <->
   forallb isWhiteSpace value = true \/
   exists scheme www host tld path,
     value = scheme ++ js "://" ++ www ++ host ++ [46%N] ++ tld ++ path /\
     (scheme = js "http" \/ scheme = js "https") /\
     (www = [] \/ www = js "www.") /\
     (1 <= length host <= 256)%nat /\ forallb isHostChar host = true /\
     (1 <= length tld <= 6)%nat /\ forallb isTldChar tld = true /\
     xorb (is_word (last_unit None tld)) (is_word (hd_error path)) = true /\
     forallb isPathChar path = true) /\
  (validateWebsite value = None -> forallb isWhiteSpace value = false ->
   existsb isWhiteSpace value = false /\
   (starts_with (js "http://") value = true \/
    starts_with (js "https://") value = true)) /\
  (validateWebsite value <> None -> validateWebsite value = Some msg_website_invalid).
Proof.
  assert (Hacc : validateWebsite value = None <->
                 forallb isWhiteSpace value = true \/ test urlPattern value = true).
  { unfold validateWebsite. rewrite <- truthy_trim_iff.
    destruct (truthy (trim value)); simpl; [|tauto].
    destruct (test urlPattern value); simpl; split;
      solve [tauto | discriminate | intros [H | H]; discriminate]. }
  split; [|split].
  - rewrite Hacc, test_urlPattern. reflexivity.
  - intros H Hb. apply Hacc in H. destruct H as [H | H]; [congruence|].
    apply test_urlPattern in H.
    destruct H as (scheme & www & host & tld & path & -> & Hs & Hw & _ & Hh & _ & Ht & _ & Hp).
    split.
    + apply (forallb_not_space _ _ isHostChar_not_space) in Hh.
      apply (forallb_not_space _ _ isTldChar_not_space) in Ht.
      apply (forallb_not_space _ _ isPathChar_not_space) in Hp.
      rewrite !existsb_app, Hh, Ht, Hp.
      destruct Hs as [-> | ->], Hw as [-> | ->]; reflexivity.
    + destruct Hs as [-> | ->]; [left | right]; reflexivity.
  - unfold validateWebsite. destruct (truthy (trim value)); simpl; [|congruence].
    destruct (test urlPattern value); simpl; congruence.
Qed.

(** *** Password *)

Lemma existsb_in_range (lo hi : N) (s : jsstring) :
  existsb (in_range lo hi) s = true <-> exists c, In c s /\ (lo <= c <= hi)%N.
Proof.
  rewrite existsb_exists. unfold in_range.
  split; intros (c & Hin & H); exists c; (split; [exact Hin|]).
  - apply andb_true_iff in H. rewrite !N.leb_le in H. exact H.
  - apply andb_true_iff. rewrite !N.leb_le. exact H.
Qed.

Lemma one_of_In (l : list N) (c : N) : one_of l c = true <-> In c l.
Proof.
  unfold one_of. rewrite existsb_exists. split.
  - intros (x & Hin & H). apply N.eqb_eq in H. subst. exact Hin.
  - intros H. exists c. split; [exact H | apply N.eqb_refl].
Qed.

Lemma existsb_one_of (l : list N) (s : jsstring) :
  existsb (one_of l) s = true <-> exists c, In c s /\ In c l.
Proof.
  rewrite existsb_exists.
  split; intros (c & Hin & H); exists c; (split; [exact Hin|]); apply one_of_In; exact H.
Qed.

(** X3.  [validatePassword] runs its six checks in a fixed order and
    returns the message of the first that fails: not empty, at least 8
    code units, at least one of [a-z], one of [A-Z], one digit, and one
    of the thirty special characters.  It accepts exactly the values
    that pass all of them. *)
Theorem validatePassword_checks (value : jsstring) :
  validatePassword value =
    (if negb (truthy value) then Some msg_password_required
     else if (length value <? 8)%nat then Some msg_password_short
     else if negb (existsb isLower value) then Some msg_password_lower
     else if negb (existsb isUpper value) then Some msg_password_upper
     else if negb (existsb isDigit value) then Some msg_password_digit
     else if negb (existsb (one_of specialChars) value) then Some msg_password_symbol
     else None) /\
  (validatePassword value = None <->
   (8 <= length value)%nat /\
   (exists c, In c value /\ (97 <= c <= 122)%N) /\
   (exists c, In c value /\ (65 <= c <= 90)%N) /\
   (exists c, In c value /\ (48 <= c <= 57)%N) /\
   (exists c, In c value /\ In c specialChars)).
Proof.
  assert (E : validatePassword value =
    (if negb (truthy value) then Some msg_password_required
     else if (length value <? 8)%nat then Some msg_password_short
     else if negb (existsb isLower value) then Some msg_password_lower
     else if negb (existsb isUpper value) then Some msg_password_upper
     else if negb (existsb isDigit value) then Some msg_password_digit
     else if negb (existsb (one_of specialChars) value) then Some msg_password_symbol
     else None)).
  { unfold validatePassword. rewrite !test_Class. reflexivity. }
  split; [exact E|]. rewrite E.
  rewrite <- (existsb_in_range 97 122), <- (existsb_in_range 65 90),
    <- (existsb_in_range 48 57), <- existsb_one_of.
  change (in_range 97 122) with isLower. change (in_range 65 90) with isUpper.
  change (in_range 48 57) with isDigit.
  destruct value as [|c0 value]; [simpl; split; [discriminate | lia]|].
  cbn [truthy negb].
  destruct (Nat.ltb_spec (length (c0 :: value)) 8) as [Hlen | Hlen];
    [split; [discriminate | lia]|].
  destruct (existsb isLower (c0 :: value)); cbn [negb];
    [|split; [discriminate | intros (_ & H1 & _); discriminate]].
  destruct (existsb isUpper (c0 :: value)); cbn [negb];
    [|split; [discriminate | intros (_ & _ & H1 & _); discriminate]].
  destruct (existsb isDigit (c0 :: value)); cbn [negb];
    [|split; [discriminate | intros (_ & _ & _ & H1 & _); discriminate]].
  destruct (existsb (one_of specialChars) (c0 :: value)); cbn [negb];
    [|split; [discriminate | intros (_ & _ & _ & _ & H1); discriminate]].
  split; [intros _; repeat split; [exact Hlen | ..]; reflexivity | reflexivity].
Qed.

(** ** The identity number: every input, and typing errors *)

Lemma trim_idempotent (s : jsstring) : trim (trim s) = trim s.
Proof.
  apply trim_same_length.
  destruct (trim s) as [|c r] eqn:E; [reflexivity|].
  assert (Hc : isWhiteSpace c = false) by (apply (trim_head s c r E)).
  unfold trim. cbn [trimStart]. rewrite Hc.
  unfold trimEnd. destruct (rev (c :: r)) as [|x l] eqn:Er.
  - apply (f_equal (@length N)) in Er. rewrite length_rev in Er. discriminate.
  - assert (Hx : isWhiteSpace x = false).
    { apply (trim_last s (rev l) x). rewrite E.
      rewrite <- (rev_involutive (c :: r)), Er. reflexivity. }
    cbn [trimStart]. rewrite Hx, <- Er, rev_involutive. reflexivity.
Qed.

Lemma validateCedula_ten_digits (s : jsstring) :
  length s = 10%nat -> validateCedula s = None -> forallb isDigit s = true.
Proof.
  intros Hlen H. destruct (forallb isDigit s) eqn:E; [reflexivity|].
  exfalso. exact (validateCedula_not_digits s Hlen E H).
Qed.

(** X7.  [validateCedula] on any string: the value is trimmed first,
    so white space around the number changes nothing; the
    required-field message is returned for a blank value, the
    ten-digit message when the trimmed value is not made of ten digits,
    the province message when its first two digits are not in 1..24,
    the invalid-number message when the tenth digit is not the
    verifier of the first nine, and nothing otherwise. *)
Theorem validateCedula_every_input (value : jsstring) :
  let cedula := trim value in
  let ds := map digit_val cedula in
  let ten_digits := Nat.eqb (length cedula) 10 && forallb isDigit cedula in
  validateCedula value = validateCedula cedula /\
  validateCedula value
  = (if forallb isWhiteSpace value then Some msg_cedula_required
     else if negb ten_digits then Some msg_cedula_length
     else if (spec_province ds <? 1) || (24 <? spec_province ds)
          then Some msg_cedula_province
     else if negb (spec_verifier ds =? nth 9 ds 0) then Some msg_cedula_invalid
     else None) /\
  (validateCedula value = None ->
   length cedula = 10%nat /\ forallb isDigit cedula = true /\
   1 <= spec_province ds <= 24 /\ spec_verifier ds = nth 9 ds 0).
Proof.
  cbv zeta.
  assert (E1 : validateCedula value = validateCedula (trim value)).
  { unfold validateCedula. rewrite trim_idempotent. reflexivity. }
  assert (E2 : validateCedula value
  = (if forallb isWhiteSpace value then Some msg_cedula_required
     else if negb (Nat.eqb (length (trim value)) 10 && forallb isDigit (trim value))
          then Some msg_cedula_length
     else if (spec_province (map digit_val (trim value)) <? 1)
             || (24 <? spec_province (map digit_val (trim value)))
          then Some msg_cedula_province
     else if negb (spec_verifier (map digit_val (trim value))
                   =? nth 9 (map digit_val (trim value)) 0)
          then Some msg_cedula_invalid
     else None)).
  { destruct (forallb isWhiteSpace value) eqn:Ew.
    - apply truthy_trim_iff in Ew. unfold validateCedula. rewrite Ew. reflexivity.
    - destruct (Nat.eqb (length (trim value)) 10 && forallb isDigit (trim value)) eqn:Et;
        cbn [negb].
      + apply andb_true_iff in Et. destruct Et as [Hl Hd]. apply Nat.eqb_eq in Hl.
        rewrite E1. apply (validateCedula_digits _ Hl Hd).
      + unfold validateCedula.
        destruct (truthy (trim value)) eqn:Ett;
          [|apply truthy_trim_iff in Ett; congruence].
        cbn [negb]. rewrite test_cedulaPattern, Et. reflexivity. }
  split; [exact E1 | split; [exact E2|]].
  rewrite E2. destruct (forallb isWhiteSpace value); [discriminate|].
  destruct (Nat.eqb (length (trim value)) 10 && forallb isDigit (trim value)) eqn:Et;
    cbn [negb]; [|discriminate].
  apply andb_true_iff in Et. destruct Et as [Hl Hd]. apply Nat.eqb_eq in Hl.
  destruct (Z.ltb_spec (spec_province (map digit_val (trim value))) 1);
    destruct (Z.ltb_spec 24 (spec_province (map digit_val (trim value))));
    cbn [orb]; try discriminate.
  destruct (Z.eqb_spec (spec_verifier (map digit_val (trim value)))
                       (nth 9 (map digit_val (trim value)) 0)); cbn [negb];
    [|discriminate].
  intros _. repeat split; try assumption; lia.
Qed.

Lemma spec_adjust_injective (x x' k : Z) :
  0 <= x <= 9 -> 0 <= x' <= 9 -> k = 1 \/ k = 2 ->
  (spec_adjust (x * k) - spec_adjust (x' * k)) mod 10 = 0 -> x = x'.
Proof.
  intros Hx Hx' Hk. unfold spec_adjust.
  destruct (Z.ltb_spec 9 (x * k)) as [H1 | H1], (Z.ltb_spec 9 (x' * k)) as [H2 | H2];
    intros H; apply Z.mod_divide in H; try lia;
    destruct H as [q H]; destruct Hk; subst k; lia.
Qed.

Lemma spec_verifier_residue (ds ds' : list Z) :
  spec_verifier ds = spec_verifier ds' ->
  (spec_checksum ds - spec_checksum ds') mod 10 = 0.
Proof.
  unfold spec_verifier. cbv zeta.
  generalize (spec_checksum ds) (spec_checksum ds'). intros a b.
  destruct (Z.eqb_spec (a mod 10) 0), (Z.eqb_spec (b mod 10) 0); intros H;
    pose proof (Z.mod_pos_bound a 10 ltac:(lia));
    pose proof (Z.mod_pos_bound b 10 ltac:(lia));
    rewrite Zminus_mod; try lia;
    [replace (a mod 10) with 0 by lia; replace (b mod 10) with 0 by lia; reflexivity|].
  replace (a mod 10) with (b mod 10) by lia. rewrite Z.sub_diag. reflexivity.
Qed.

Lemma spec_checksum_subst (da db : list Z) (x x' : Z) :
  (length da < 9)%nat ->
  spec_checksum (da ++ x :: db) - spec_checksum (da ++ x' :: db)
  = spec_adjust (x * nth (length da) coefficients 0)
    - spec_adjust (x' * nth (length da) coefficients 0).
Proof.
  intros H. unfold spec_checksum.
  do 9 (destruct da as [|? da];
        [cbn [app length nth coefficients firstn combine map fold_right fst snd]; lia|]).
  cbn [length] in H. lia.
Qed.

Lemma spec_checksum_last (da db db' : list Z) :
  length da = 9%nat -> spec_checksum (da ++ db) = spec_checksum (da ++ db').
Proof.
  intros H. unfold spec_checksum.
  rewrite !firstn_app, H, Nat.sub_diag. cbn [firstn]. reflexivity.
Qed.

Lemma digit_val_range (c : N) : isDigit c = true -> 0 <= digit_val c <= 9.
Proof. rewrite isDigit_range. unfold digit_val. lia. Qed.

Lemma coefficients_cases (i : nat) :
  (i < 9)%nat -> nth i coefficients 0 = 1 \/ nth i coefficients 0 = 2.
Proof.
  intros H. do 9 (destruct i as [|i]; [cbn; tauto|]). lia.
Qed.

(** X8.  The check digit catches every mistyped digit: if a string
    of ten code units is accepted, the string obtained by replacing
    one of its code units by a different one is rejected. *)
Theorem validateCedula_detects_single_digit_errors (a b : jsstring) (c c' : N) :
  (length a + length b = 9)%nat -> c <> c' ->
  validateCedula (a ++ c :: b) = None ->
  validateCedula (a ++ c' :: b) <> None.
Proof.
  intros Hlen Hne Hacc Hacc'.
  assert (Hl : length (a ++ c :: b) = 10%nat) by (rewrite length_app; cbn [length]; lia).
  assert (Hl' : length (a ++ c' :: b) = 10%nat) by (rewrite length_app; cbn [length]; lia).
  pose proof (validateCedula_ten_digits _ Hl Hacc) as Hd.
  pose proof (validateCedula_ten_digits _ Hl' Hacc') as Hd'.
  rewrite (validateCedula_digits _ Hl Hd) in Hacc.
  rewrite (validateCedula_digits _ Hl' Hd') in Hacc'. cbv zeta in Hacc, Hacc'.
  destruct (_ || _) in Hacc; [discriminate|].
  destruct (_ || _) in Hacc'; [discriminate|].
  destruct (Z.eqb_spec (spec_verifier (map digit_val (a ++ c :: b)))
                       (nth 9 (map digit_val (a ++ c :: b)) 0)) as [Hv|]; [|discriminate].
  destruct (Z.eqb_spec (spec_verifier (map digit_val (a ++ c' :: b)))
                       (nth 9 (map digit_val (a ++ c' :: b)) 0)) as [Hv'|]; [|discriminate].
  clear Hacc Hacc'.
  apply forallb_app_true in Hd, Hd'. cbn [forallb] in Hd, Hd'.
  destruct Hd as [_ Hd], Hd' as [_ Hd'].
  apply andb_true_iff in Hd, Hd'. destruct Hd as [Hc _], Hd' as [Hc' _].
  apply digit_val_range in Hc, Hc'.
  assert (Hx : digit_val c <> digit_val c') by (unfold digit_val; lia).
  rewrite map_app in Hv, Hv'. cbn [map] in Hv, Hv'.
  assert (Hla : length (map digit_val a) = length a) by apply length_map.
  destruct (Nat.eq_dec (length a) 9) as [H9 | H9].
  - rewrite app_nth2 in Hv, Hv' by lia. rewrite Hla, H9 in Hv, Hv'. cbn [Nat.sub nth] in Hv, Hv'.
    unfold spec_verifier in Hv, Hv'.
    rewrite (spec_checksum_last _ _ (digit_val c' :: map digit_val b)) in Hv by lia.
    congruence.
  - assert (Hn : nth 9 (map digit_val a ++ digit_val c :: map digit_val b) 0
                 = nth 9 (map digit_val a ++ digit_val c' :: map digit_val b) 0).
    { rewrite !app_nth2 by lia. rewrite Hla.
      destruct (9 - length a)%nat as [|k] eqn:Ek; [lia | reflexivity]. }
    assert (Hs : spec_verifier (map digit_val a ++ digit_val c :: map digit_val b)
                 = spec_verifier (map digit_val a ++ digit_val c' :: map digit_val b))
      by congruence.
    apply spec_verifier_residue in Hs. rewrite spec_checksum_subst in Hs by lia.
    apply spec_adjust_injective in Hs; try assumption.
    + contradiction.
    + apply coefficients_cases. lia.
Qed.

Lemma validateCedula_detects_single_digit_errors_witness :
  validateCedula (js "1712345675") = None /\
  validateCedula (js "1712945675") <> None.
Proof.
  split; [reflexivity|].
  apply (validateCedula_detects_single_digit_errors (js "1712") (js "45675") 51 57);
    [reflexivity | discriminate | reflexivity].
Defined.

Lemma spec_verifier_range (ds : list Z) : 0 <= spec_verifier ds <= 9.
Proof.
  unfold spec_verifier. cbv zeta.
  pose proof (Z.mod_pos_bound (spec_checksum ds) 10 ltac:(lia)).
  destruct (Z.eqb_spec (spec_checksum ds mod 10) 0); lia.
Qed.

(** X9.  Nine digits whose first two form a province code in 1..24
    are completed to an accepted number by exactly one tenth code
    unit: the digit of the verifier. *)
Theorem cedula_check_digit (p : jsstring) :
  length p = 9%nat -> forallb isDigit p = true ->
  1 <= spec_province (map digit_val p) <= 24 ->
  let c := (48 + Z.to_N (spec_verifier (map digit_val p)))%N in
  isDigit c = true /\
  validateCedula (p ++ [c]) = None /\
  (forall c', validateCedula (p ++ [c']) = None -> c' = c).
Proof.
  intros Hlen Hd Hprov. cbv zeta.
  pose proof (spec_verifier_range (map digit_val p)) as Hr.
  set (v := spec_verifier (map digit_val p)) in *.
  assert (Hc : isDigit (48 + Z.to_N v) = true) by (apply isDigit_range; lia).
  assert (Hval : forall x, isDigit x = true ->
             validateCedula (p ++ [x])
             = if negb (v =? digit_val x) then Some msg_cedula_invalid else None).
  { intros x Hx.
    rewrite validateCedula_digits;
      [|rewrite length_app; cbn [length]; lia
       |apply forallb_app_true; split; [exact Hd | cbn [forallb]; rewrite Hx; reflexivity]].
    cbv zeta. rewrite map_app. cbn [map].
    assert (Hlm : length (map digit_val p) = 9%nat) by (rewrite length_map; exact Hlen).
    assert (Hp : spec_province (map digit_val p ++ [digit_val x])
                 = spec_province (map digit_val p)).
    { unfold spec_province. rewrite !app_nth1 by lia. reflexivity. }
    assert (Hv : spec_verifier (map digit_val p ++ [digit_val x]) = v).
    { unfold v, spec_verifier.
      rewrite (spec_checksum_last _ [digit_val x] []) by exact Hlm.
      rewrite app_nil_r. reflexivity. }
    rewrite Hp, Hv, app_nth2 by lia. rewrite Hlm. cbn [Nat.sub nth].
    destruct (Z.ltb_spec (spec_province (map digit_val p)) 1); [lia|].
    destruct (Z.ltb_spec 24 (spec_province (map digit_val p))); [lia|].
    reflexivity. }
  split; [exact Hc | split].
  - rewrite (Hval _ Hc). unfold digit_val.
    replace (Z.of_N (48 + Z.to_N v) - 48) with v by lia.
    rewrite Z.eqb_refl. reflexivity.
  - intros c' Hacc.
    assert (Hc' : isDigit c' = true).
    { assert (H : forallb isDigit (p ++ [c']) = true).
      { apply validateCedula_ten_digits; [rewrite length_app; cbn [length]; lia | exact Hacc]. }
      apply forallb_app_true in H. destruct H as [_ H]. cbn [forallb] in H.
      rewrite andb_true_r in H. exact H. }
    rewrite (Hval _ Hc') in Hacc.
    destruct (Z.eqb_spec v (digit_val c')) as [E|]; [|discriminate].
    unfold digit_val in E. apply isDigit_range in Hc'. lia.
Qed.

Lemma cedula_check_digit_witness :
  let p := js "171234567" in
  let c := (48 + Z.to_N (spec_verifier (map digit_val p)))%N in
  c = 53%N /\
  isDigit c = true /\
  validateCedula (p ++ [c]) = None /\
  (forall c', validateCedula (p ++ [c']) = None -> c' = c).
Proof.
  split; [reflexivity|].
  apply (cedula_check_digit (js "171234567")); [reflexivity | reflexivity | cbn; lia].
Defined.

(** ** Text after the number of the salary *)

Lemma take_digits_app (s t : jsstring) :
  forallb isDigit s = true ->
  match t with c :: _ => isDigit c = false | [] => True end ->
  take_digits (s ++ t) = (s, t).
Proof.
  intros Hs Ht. induction s as [|c s IH]; cbn [app take_digits].
  - destruct t as [|c t]; [reflexivity|]. cbn [take_digits]. rewrite Ht. reflexivity.
  - cbn [forallb] in Hs. apply andb_prop in Hs. destruct Hs as [Hc Hs].
    rewrite Hc, (IH Hs). reflexivity.
Qed.

Lemma trimStart_blank_app (ws r : jsstring) :
  forallb isWhiteSpace ws = true -> trimStart (ws ++ r) = trimStart r.
Proof.
  induction ws as [|c ws IH]; cbn [forallb app trimStart]; [reflexivity|].
  intros H. apply andb_prop in H. destruct H as [Hc Hs]. rewrite Hc. apply IH. exact Hs.
Qed.

Lemma parseFloat_leading_integer (ws s t : jsstring) :
  forallb isWhiteSpace ws = true -> s <> [] -> forallb isDigit s = true ->
  ends_number t = true ->
  parseFloat (ws ++ s ++ t) = parseFloat s.
Proof.
  intros Hws Hne Hd Ht. unfold parseFloat.
  rewrite (trimStart_blank_app _ _ Hws).
  rewrite (trimStart_digits s Hd), (StrDecimalLiteral_digits false s Hne Hd).
  destruct s as [|c s]; [contradiction|].
  assert (Hc : isDigit c = true) by (cbn [forallb] in Hd; apply andb_prop in Hd; tauto).
  cbn [app trimStart]. rewrite (digit_not_space _ Hc).
  assert (Hsign : strip_sign (c :: s ++ t) = (false, c :: s ++ t)).
  { unfold strip_sign. apply isDigit_range in Hc.
    destruct (N.eqb_spec c 45); [lia|]. destruct (N.eqb_spec c 43); [lia|]. reflexivity. }
  assert (Hinf : starts_with (js "Infinity") (c :: s ++ t) = false).
  { change (js "Infinity") with [73; 110; 102; 105; 110; 105; 116; 121]%N.
    cbn [starts_with]. apply isDigit_range in Hc.
    destruct (N.eqb_spec 73 c); [lia | reflexivity]. }
  unfold StrDecimalLiteral_prefix. rewrite Hsign, Hinf.
  change (c :: s ++ t) with ((c :: s) ++ t).
  rewrite (take_digits_app (c :: s) t Hd).
  - destruct t as [|x t].
    + cbn [exponent_part length Z.of_nat]. rewrite app_nil_r. reflexivity.
    + unfold ends_number in Ht. apply negb_true_iff in Ht.
      apply orb_false_iff in Ht. destruct Ht as [Ht He].
      apply orb_false_iff in Ht. destruct Ht as [_ Hdot].
      rewrite Hdot. cbn [exponent_part]. rewrite He.
      cbn [length Z.of_nat]. rewrite app_nil_r. reflexivity.
  - destruct t as [|x t]; [exact I|]. unfold ends_number in Ht.
    apply negb_true_iff in Ht. apply orb_false_iff in Ht. destruct Ht as [Ht _].
    apply orb_false_iff in Ht. tauto.
Qed.

(** X10.  [validateSalary] reads the number at the start of the value
    and ignores what follows: white space before a run of digits, and
    any text after it that does not start with a digit, a dot or an
    exponent indicator, do not change the result, which is the one for
    the run of digits alone.  Digits grouped by commas are therefore
    read up to the first comma. *)
Theorem validateSalary_reads_leading_integer (ws s t : jsstring) :
  forallb isWhiteSpace ws = true -> s <> [] -> forallb isDigit s = true ->
  ends_number t = true ->
  validateSalary (ws ++ s ++ t) = validateSalary s /\
  validateSalary (ws ++ s ++ t)
  = (if digits_value s <=? 1000000 then None else Some msg_salary_high).
Proof.
  intros Hws Hne Hd Ht.
  assert (E : validateSalary (ws ++ s ++ t) = validateSalary s).
  { unfold validateSalary. rewrite (parseFloat_leading_integer ws s t Hws Hne Hd Ht).
    destruct s as [|c s]; [contradiction|].
    destruct ws; reflexivity. }
  split; [exact E|]. rewrite E. apply (validateSalary_integers s Hne Hd).
Qed.

Lemma validateSalary_reads_leading_integer_witness :
  validateSalary (js " 1,000,000,000") = validateSalary (js "1") /\
  validateSalary (js " 1,000,000,000") = None.
Proof.
  apply (validateSalary_reads_leading_integer (js " ") (js "1") (js ",000,000,000"));
    [reflexivity | discriminate | reflexivity | reflexivity].
Defined.

(** ** The eighteenth birthday and the time zone *)

(** X11.  The upper boundary of [validateBirthDate] carries the local
    time of day, while a date-only value is read as midnight UTC.  For
    a value read as midnight UTC of the calendar day that lies 18
    years before the local date, the validator accepts exactly when
    the local time of day has reached the offset of the zone from UTC:
    always to the west of Greenwich, and not during the first hours of
    the day to the east.  For the day after, it accepts exactly when
    the local time of day has reached one day plus the offset: never to
    the east, and during the last hours of the day to the west. *)
Theorem validateBirthDate_birthday_and_zone (h : Host) (value : jsstring) (t0 : Z) :
  value <> [] -> (forall n, now h n = t0) ->
  - 8640000000000000 + 36601 * 86400000 <= t0 <= 8640000000000000 ->
  - msPerDay < LocalTZA h < msPerDay ->
  let t := LocalTime (LocalTZA h) t0 in
  let birthday :=
    MakeDate (MakeDay (YearFromTime t - 18) (MonthFromTime t) (DateFromTime t)) 0 in
  (new_Date_string h value = Some birthday ->
   validateBirthDate h value
   = if LocalTZA h <=? TimeWithinDay t then None else Some msg_birth_minor) /\
  (new_Date_string h value = Some (birthday + msPerDay) ->
   validateBirthDate h value
   = if msPerDay + LocalTZA h <=? TimeWithinDay t then None else Some msg_birth_minor).
Proof.
  intros Hne Hnow Hrange Htz. cbv zeta.
  pose proof (maxDate_time_of_day h t0 Hnow Hrange) as Hmax. cbv zeta in Hmax.
  destruct (birth_boundaries h t0 Hnow Hrange) as (d18 & d100 & H18 & H100 & Hmax' & Hmin).
  rewrite Hmax in Hmax'. apply Some_inj in Hmax'.
  assert (Htod : 0 <= TimeWithinDay (LocalTime (LocalTZA h) t0) < msPerDay).
  { unfold TimeWithinDay. apply Z.mod_pos_bound. unfold msPerDay. lia. }
  rewrite (validateBirthDate_order h value Hne). cbv zeta.
  rewrite Hmax, Hmin, Hnow. unfold msPerDay in *.
  split; intros ->; unfold num_gt, num_lt; case_ltb;
    destruct (Z.leb_spec (LocalTZA h) (TimeWithinDay (LocalTime (LocalTZA h) t0)));
    destruct (Z.leb_spec (86400000 + LocalTZA h) (TimeWithinDay (LocalTime (LocalTZA h) t0)));
    first [lia | reflexivity].
Qed.

Lemma validateBirthDate_birthday_and_zone_witness :
  let h := clock_host 7200000 1793572200000 in
  Date_parse h (js "2008-11-02") = Some 1225584000000 /\
  validateBirthDate h (js "2008-11-02") = Some msg_birth_minor /\
  validateBirthDate (clock_host (-18000000) 1793667600000) (js "2008-11-03") = None.
Proof.
  cbv zeta. split; [vm_compute; reflexivity|]. split.
  - destruct (validateBirthDate_birthday_and_zone
                (clock_host 7200000 1793572200000) (js "2008-11-02") 1793572200000)
      as [H _]; [discriminate | reflexivity | lia | unfold msPerDay; cbn; lia |].
    rewrite H; vm_compute; reflexivity.
  - destruct (validateBirthDate_birthday_and_zone
                (clock_host (-18000000) 1793667600000) (js "2008-11-03") 1793667600000)
      as [_ H]; [discriminate | reflexivity | lia | unfold msPerDay; cbn; lia |].
    rewrite H; vm_compute; reflexivity.
Defined.

(** ** The boundary on a 29th of February *)

Lemma DaysInYear_leap_minus_18 (y : Z) :
  DaysInYear y = 366 -> DaysInYear (y - 18) = 365.
Proof.
  unfold DaysInYear.
  destruct (Z.eqb_spec (y mod 4) 0) as [H4 | H4]; cbn [negb]; [|discriminate].
  intros _. destruct (Z.eqb_spec ((y - 18) mod 4) 0) as [H | H]; cbn [negb]; [|reflexivity].
  exfalso. apply Z.mod_divide in H4, H; try lia.
  destruct H4 as [a Ha], H as [b Hb]. lia.
Qed.

Lemma february_29_leap (l : Z) : 29 <= month_length 1 l -> l <= 1 -> l = 1.
Proof. cbv [month_length nth Z.to_nat Pos.to_nat Pos.iter_op Nat.add]. lia. Qed.

Lemma MakeDay_february_29 (y : Z) :
  DaysInYear y = 365 -> MakeDay y 1 29 = MakeDay y 2 1.
Proof.
  intros H. unfold MakeDay. cbv zeta.
  change (1 / 12) with 0. change (2 / 12) with 0.
  change (1 mod 12) with 1. change (2 mod 12) with 2.
  rewrite !Z.add_0_r, H. change (365 =? 366) with false. cbv iota.
  cbv [month_start nth Z.to_nat Pos.to_nat Pos.iter_op Nat.add]. lia.
Qed.

Lemma first_of_march_exists (y : Z) :
  1 <= 1 <= month_length 2 (if DaysInYear y =? 366 then 1 else 0).
Proof.
  cbv [month_length nth Z.to_nat Pos.to_nat Pos.iter_op Nat.add].
  destruct (DaysInYear y =? 366); lia.
Qed.

Lemma local_day_and_time (day tod : Z) :
  0 <= tod < msPerDay ->
  Day (day * msPerDay + tod) = day /\ TimeWithinDay (day * msPerDay + tod) = tod.
Proof.
  intros H. unfold msPerDay in *. split.
  - unfold Day, msPerDay. symmetry. apply (Z.div_unique_pos _ _ day tod); lia.
  - unfold TimeWithinDay, msPerDay. symmetry. apply (Z.mod_unique_pos _ _ day tod); lia.
Qed.

(** X23.  On a 29th of February (local date) the upper boundary of
    [validateBirthDate] is the 1st of March of the year 18 years
    before, at the same time of day: that year has no 29th of
    February.  A value read as midnight UTC of that 1st of March is
    therefore accepted, in a zone at or west of Greenwich, although
    the person is one day short of 18 years. *)
Theorem validateBirthDate_on_leap_day (h : Host) (value : jsstring) (t0 : Z) :
  value <> [] -> (forall n, now h n = t0) ->
  - 8640000000000000 + 36601 * 86400000 <= t0 <= 8640000000000000 ->
  - msPerDay < LocalTZA h <= 0 ->
  let t := LocalTime (LocalTZA h) t0 in
  MonthFromTime t = 1 -> DateFromTime t = 29 ->
  let first_of_march := MakeDate (MakeDay (YearFromTime t - 18) 2 1) 0 in
  (exists hi,
      maxDate h = Some hi /\
      YearFromTime (LocalTime (LocalTZA h) hi) = YearFromTime t - 18 /\
      MonthFromTime (LocalTime (LocalTZA h) hi) = 2 /\
      DateFromTime (LocalTime (LocalTZA h) hi) = 1 /\
      TimeWithinDay (LocalTime (LocalTZA h) hi) = TimeWithinDay t) /\
  (new_Date_string h value = Some first_of_march -> validateBirthDate h value = None).
Proof.
  intros Hne Hnow Ht0 Htz. cbv zeta. intros Hfeb H29.
  pose proof (maxDate_time_of_day h t0 Hnow Ht0) as Hmax. cbv zeta in Hmax.
  destruct (birth_boundaries h t0 Hnow Ht0) as (d18 & d100 & H18 & H100 & Hmax' & Hmin).
  assert (Htod : 0 <= TimeWithinDay (LocalTime (LocalTZA h) t0) < msPerDay)
    by (unfold TimeWithinDay; apply Z.mod_pos_bound; reflexivity).
  pose proof (DateFromTime_range (LocalTime (LocalTZA h) t0)) as Hd.
  rewrite Hfeb, H29 in Hd.
  pose proof (InLeapYear_DaysInYear (LocalTime (LocalTZA h) t0)) as [Hl Hl01].
  assert (Hleap : InLeapYear (LocalTime (LocalTZA h) t0) = 1)
    by (apply february_29_leap; lia).
  assert (Hnl : DaysInYear (YearFromTime (LocalTime (LocalTZA h) t0) - 18) = 365)
    by (apply DaysInYear_leap_minus_18; lia).
  rewrite Hfeb, H29, (MakeDay_february_29 _ Hnl) in Hmax.
  destruct (local_day_and_time
              (MakeDay (YearFromTime (LocalTime (LocalTZA h) t0) - 18) 2 1)
              (TimeWithinDay (LocalTime (LocalTZA h) t0)) Htod) as [Hday Htod'].
  split.
  - eexists. split; [exact Hmax|].
    replace (LocalTime (LocalTZA h)
               (MakeDate (MakeDay (YearFromTime (LocalTime (LocalTZA h) t0) - 18) 2 1) 0
                + TimeWithinDay (LocalTime (LocalTZA h) t0) - LocalTZA h))
      with (MakeDay (YearFromTime (LocalTime (LocalTZA h) t0) - 18) 2 1 * msPerDay
            + TimeWithinDay (LocalTime (LocalTZA h) t0))
      by (unfold LocalTime at 3, MakeDate; lia).
    destruct (civil_of_MakeDay _ _ 2 1 ltac:(lia) (first_of_march_exists _) Hday)
      as (Hy' & Hm' & Hd').
    auto.
  - intros Hb. rewrite (validateBirthDate_order h value Hne). cbv zeta.
    rewrite Hmax in Hmax'. apply Some_inj in Hmax'.
    rewrite Hb, Hmax, Hmin, Hnow. unfold num_gt, num_lt.
    revert Hmax' Htod Htz H18 H100 Ht0. unfold MakeDate, msPerDay.
    generalize (MakeDay (YearFromTime (LocalTime (LocalTZA h) t0) - 18) 2 1).
    generalize (TimeWithinDay (LocalTime (LocalTZA h) t0)).
    intros tod day Hmax' Htod Htz H18 H100 Ht0.
    case_ltb; first [lia | reflexivity].
Qed.

(** At 10:00 of 2024-02-29 in a zone five hours behind UTC: the
    boundary is 2006-03-01, 10:00 local time, and 2006-03-01 is
    accepted. *)
Lemma validateBirthDate_on_leap_day_witness :
  let h := clock_host (-18000000) 1709218800000 in
  maxDate h = Some 1141225200000 /\
  validateBirthDate h (js "2006-03-01") = None.
Proof.
  cbv zeta.
  destruct (validateBirthDate_on_leap_day
              (clock_host (-18000000) 1709218800000) (js "2006-03-01") 1709218800000)
    as [_ H]; [discriminate | reflexivity | lia | unfold msPerDay; cbn; lia
              | vm_compute; reflexivity | vm_compute; reflexivity |].
  split; [vm_compute; reflexivity|].
  apply H. vm_compute. reflexivity.
Defined.

(** ** The result of a validation and the stored errors *)

Lemma Map_get_all_None (V : Type) (m : JSMap V) :
  (forall k, Map_get k m = None) -> m = [].
Proof.
  destruct m as [|[k v] m]; [reflexivity|]. intros H. specialize (H k).
  cbn [Map_get] in H. rewrite String.eqb_refl in H. discriminate.
Qed.

(** [validateField] returns [true] exactly when it leaves no error for
    the field, and the error it stores is the message of the validate
    function. *)
Lemma validateField_result (h : Host) (f : string) (w : World) (v : RuleDescriptor) :
  Map_get f (validators (this w)) = Some v ->
  match validate v h (field_value h f) with
  | Normal (Some m) =>
      fst (validateField h f w) = Normal (negb (truthy m)) /\
      error_of (snd (validateField h f w)) f = (if truthy m then Some m else None)
  | Normal None =>
      fst (validateField h f w) = Normal true /\
      error_of (snd (validateField h f w)) f = None
  | Throw e =>
      fst (validateField h f w) = Throw e /\
      errors (this (snd (validateField h f w))) = errors (this w)
  end.
Proof.
  intros Hv. unfold error_of. rewrite validateField_unfold, Hv. cbv zeta.
  destruct (validate v h (field_value h f)) as [[m|] | e];
    cbn [error_truthy]; [destruct (truthy m)| |];
    cbn [fst snd set_errors this errors negb];
    rewrite ?Map_get_set_same, ?Map_get_delete_same; split; reflexivity.
Qed.

(** X12.  After [validateField] on a registered field has returned,
    the result is [true] exactly when no error is stored for the field,
    and a stored error is the non-empty message that the validate
    function returned.  If the validate function throws, the error map
    is left as it was.  In all cases the entries of the other fields
    are untouched. *)
Theorem validateField_result_matches_error (h : Host) (fieldName : string) (w : World) :
  In fieldName (Map_keys (validators (this w))) ->
  let w' := snd (validateField h fieldName w) in
  (forall ok, fst (validateField h fieldName w) = Normal ok ->
              (ok = true <-> error_of w' fieldName = None) /\
              (forall m, error_of w' fieldName = Some m ->
                         m <> [] /\
                         exists v, Map_get fieldName (validators (this w)) = Some v /\
                                   validate v h (field_value h fieldName) = Normal (Some m))) /\
  (forall e, fst (validateField h fieldName w) = Throw e ->
             errors (this w') = errors (this w)) /\
  (forall g, g <> fieldName -> error_of w' g = error_of w g).
Proof.
  intros Hin. cbv zeta. apply Map_get_In_keys in Hin. destruct Hin as [v Hv].
  pose proof (validateField_result h fieldName w v Hv) as H.
  split; [|split].
  - intros ok Hok.
    destruct (validate v h (field_value h fieldName)) as [[m|] | e] eqn:Hr;
      destruct H as [H1 H2]; rewrite H1 in Hok; [| |discriminate];
      apply (f_equal (fun c => match c with Normal b => b | Throw _ => ok end)) in Hok;
      subst ok; rewrite H2.
    + destruct m as [|c m]; cbn [truthy negb].
      * split; [tauto | discriminate].
      * split; [split; discriminate|]. intros m' Hm. apply Some_inj in Hm. subst m'.
        split; [discriminate | exists v; split; [exact Hv | exact Hr]].
    + split; [tauto | discriminate].
  - intros e He. apply validateField_throw_errors with (e := e). exact He.
  - intros g Hg. apply validateField_other. congruence.
Qed.

Lemma validateField_result_matches_error_witness :
  let h := filled_host "abc" "" in
  let w' := snd (validateField h "password" init) in
  (forall ok, fst (validateField h "password" init) = Normal ok ->
              (ok = true <-> error_of w' "password" = None) /\
              (forall m, error_of w' "password" = Some m ->
                         m <> [] /\
                         exists v, Map_get "password" (validators (this init)) = Some v /\
                                   validate v h (field_value h "password") = Normal (Some m))) /\
  (forall e, fst (validateField h "password" init) = Throw e ->
             errors (this w') = errors (this init)) /\
  (forall g, g <> "password"%string -> error_of w' g = error_of init g).
Proof.
  apply (validateField_result_matches_error (filled_host "abc" "") "password" init).
  vm_compute. tauto.
Defined.

(** ** The form after [validateForm] *)

Lemma forallb_false_exists (A : Type) (f : A -> bool) (l : list A) :
  forallb f l = false -> exists x, In x l /\ f x = false.
Proof.
  induction l as [|a l IH]; cbn [forallb]; [discriminate|].
  destruct (f a) eqn:Ha; cbn [andb]; intros H.
  - destruct (IH H) as (x & Hin & Hx). exists x. split; [right; exact Hin | exact Hx].
  - exists a. split; [left; reflexivity | exact Ha].
Qed.

Lemma field_ok_error (h : Host) (w : World) (f : string) (ok : bool) :
  In f (Map_keys (validators (this w))) ->
  fst (validateField h f w) = Normal ok ->
  field_ok h w f = ok /\
  (error_of (snd (validateField h f w)) f = None <-> ok = true).
Proof.
  intros Hin Hok. unfold field_ok. rewrite Hok. split; [reflexivity|].
  apply Map_get_In_keys in Hin. destruct Hin as [v Hv].
  pose proof (validateField_result h f w v Hv) as H.
  destruct (validate v h (field_value h f)) as [[m|] | e];
    destruct H as [H1 H2]; rewrite H1 in Hok; [| |discriminate];
    apply (f_equal (fun c => match c with Normal b => b | Throw _ => ok end)) in Hok;
    subst ok; rewrite H2.
  - destruct (truthy m); cbn [negb]; split; congruence.
  - tauto.
Qed.

(** X15.  After [validateForm] has returned, in a state whose stored
    errors all belong to registered fields, [isValid()] is the value it
    returned, [getErrors()] is empty exactly when it returned [true],
    and the fields that have an error are exactly the registered
    fields whose validation fails: errors of earlier passes do not
    survive. *)
Theorem validateForm_isValid (h : Host) (w : World) :
  (forall k, In k (Map_keys (errors (this w))) -> In k (Map_keys (validators (this w)))) ->
  forall b, fst (validateForm h w) = Normal b ->
    let w' := snd (validateForm h w) in
    isValid w' = b /\
    (b = true <-> getErrors w' = []) /\
    (forall f, error_of w' f <> None <->
               In f (Map_keys (validators (this w))) /\ field_ok h w f = false).
Proof.
  intros Hsub b Hb. cbv zeta.
  unfold validateForm in *.
  pose proof (validateForm_loop_spec h w (Map_keys (validators (this w))) true w
                                     eq_refl (fun f H => H)) as H.
  destruct (validateForm_loop h (Map_keys (validators (this w))) true w)
    as [[b' | e] w']; cbn [fst snd] in *; [|discriminate].
  apply (f_equal (fun c => match c with Normal x => x | Throw _ => b end)) in Hb. subst b'.
  destruct H as (Hconj & _ & Hin & Hout & Hok). cbn [andb] in Hconj.
  assert (Herr : forall f, error_of w' f <> None <->
                           In f (Map_keys (validators (this w))) /\ field_ok h w f = false).
  { intros f. destruct (in_dec string_dec f (Map_keys (validators (this w)))) as [Hf | Hf].
    - rewrite (Hin f Hf). destruct (Hok f Hf) as [ok Hfok].
      destruct (field_ok_error h w f ok Hf Hfok) as [-> Hiff].
      split.
      + intros Hne. split; [exact Hf|]. destruct ok; [|reflexivity].
        exfalso. apply Hne, Hiff. reflexivity.
      + intros [_ ->] Hnone. apply Hiff in Hnone. discriminate.
    - rewrite (Hout f Hf). split; [|tauto]. intros Hne. exfalso. apply Hne.
      unfold error_of. destruct (Map_get f (errors (this w))) as [m|] eqn:Em; [|reflexivity].
      exfalso. apply Hf, Hsub, Map_get_In_keys. exists m. exact Em. }
  assert (Hempty : b = true <-> errors (this w') = []).
  { split.
    - intros ->. apply Map_get_all_None. intros k.
      destruct (Map_get k (errors (this w'))) as [m|] eqn:Em; [|reflexivity].
      exfalso. assert (Hne : error_of w' k <> None) by (unfold error_of; congruence).
      apply Herr in Hne. destruct Hne as [Hk Hfalse].
      symmetry in Hconj. rewrite forallb_forall in Hconj.
      rewrite (Hconj k Hk) in Hfalse. discriminate.
    - intros Hnil. destruct b; [reflexivity | exfalso].
      symmetry in Hconj. apply forallb_false_exists in Hconj.
      destruct Hconj as (f & Hf & Hfalse).
      assert (Hne : error_of w' f <> None) by (apply Herr; split; assumption).
      apply Hne. unfold error_of. rewrite Hnil. reflexivity. }
  split; [|split; [exact Hempty | exact Herr]].
  unfold isValid, Map_size. destruct b.
  - rewrite (proj1 Hempty eq_refl). reflexivity.
  - destruct (errors (this w')) as [|x m]; [|reflexivity].
    destruct Hempty as [_ Hempty]. discriminate (Hempty eq_refl).
Qed.

Lemma validateForm_isValid_witness :
  let h := filled_host "abc" "" in
  let w' := snd (validateForm h init) in
  isValid w' = false /\
  (false = true <-> getErrors w' = []) /\
  (forall f, error_of w' f <> None <->
             In f (Map_keys (validators (this init))) /\ field_ok h init f = false).
Proof.
  apply (validateForm_isValid (filled_host "abc" "") init).
  - cbn. intros k [].
  - vm_compute. reflexivity.
Defined.

(** ** An exception in a validate function *)

Lemma validateForm_loop_throw (h : Host) (w0 : World) :
  forall keys isValid w e,
    validators (this w) = validators (this w0) ->
    (forall f, In f keys -> In f (Map_keys (validators (this w0)))) ->
    fst (validateForm_loop h keys isValid w) = Throw e ->
    let w' := snd (validateForm_loop h keys isValid w) in
    exists before f after,
      keys = before ++ f :: after /\
      fst (validateField h f w0) = Throw e /\
      (forall g, In g before -> exists ok, fst (validateField h g w0) = Normal ok) /\
      calls w' = calls w ++ map CallValidator (before ++ [f]) /\
      (forall g, In g before ->
                 error_of w' g = error_of (snd (validateField h g w0)) g) /\
      (forall g, ~ In g before -> error_of w' g = error_of w g).
Proof.
  induction keys as [|f keys IH]; intros isValid w e Hreg Hkeys; cbv zeta.
  - cbn [validateForm_loop ret fst]. discriminate.
  - rewrite validateForm_loop_cons.
    destruct (validateField_same_registry h f w w0 Hreg) as [Hfst Hent].
    pose proof (validateField_frame h f w) as (Hv & _ & _).
    pose proof (fun g => validateField_other h f g w) as Hother.
    pose proof (validateField_throw_errors h f w) as Hthrow.
    assert (Hin : In f (Map_keys (validators (this w0)))) by (apply Hkeys; left; reflexivity).
    apply Map_get_In_keys in Hin. destruct Hin as [v Hv0].
    assert (Hvw : Map_get f (validators (this w)) = Some v) by (rewrite Hreg; exact Hv0).
    pose proof (validateField_calls h f w v Hvw) as Hcalls.
    specialize (Hent v).
    destruct (validateField h f w) as [[ok | e1] w1]; cbn [fst snd] in *.
    + specialize (Hent ok Hvw eq_refl). intros He.
      specialize (IH (if negb ok then false else isValid) w1 e).
      cbv zeta in IH.
      destruct IH as (before & f' & after & Hk & Hf' & Hbefore & Hc & Hin & Hout).
      { rewrite Hv. exact Hreg. }
      { intros g Hg. apply Hkeys. right. exact Hg. }
      { exact He. }
      exists (f :: before), f', after. repeat split.
      * rewrite Hk. reflexivity.
      * exact Hf'.
      * intros g [<- | Hg]; [exists ok; symmetry; exact Hfst | apply Hbefore; exact Hg].
      * rewrite Hc, Hcalls, <- app_assoc. reflexivity.
      * intros g [<- | Hg].
        -- destruct (in_dec string_dec f before) as [Hfb | Hfb].
           ++ apply Hin. exact Hfb.
           ++ rewrite (Hout f Hfb). exact Hent.
        -- apply Hin. exact Hg.
      * intros g Hg. rewrite Hout by (intros Hg'; apply Hg; right; exact Hg').
        apply (Hother g). intros ->. apply Hg. left. reflexivity.
    + intros He. apply (f_equal (fun c => match c with Throw x => x | Normal _ => e end)) in He.
      subst e1. exists [], f, keys. repeat split.
      * symmetry. exact Hfst.
      * intros g [].
      * exact Hcalls.
      * intros g [].
      * intros g _. unfold error_of. rewrite (Hthrow e eq_refl). reflexivity.
Qed.

(** X16.  When a validate function throws, [validateForm] stops
    there: the fields registered before the one that throws have been
    validated and hold the errors of their own validation, the field
    that throws has been called, and the error entries of all the
    other fields are as they were before the call. *)
Theorem validateForm_stops_at_exception (h : Host) (w : World) (e : exn) :
  fst (validateForm h w) = Throw e ->
  let w' := snd (validateForm h w) in
  exists before f after,
    Map_keys (validators (this w)) = before ++ f :: after /\
    fst (validateField h f w) = Throw e /\
    (forall g, In g before -> exists ok, fst (validateField h g w) = Normal ok) /\
    calls w' = calls w ++ map CallValidator (before ++ [f]) /\
    (forall g, In g before ->
               error_of w' g = error_of (snd (validateField h g w)) g) /\
    (forall g, ~ In g before -> error_of w' g = error_of w g).
Proof.
  intros He. unfold validateForm in *.
  apply (validateForm_loop_throw h w _ true w e eq_refl (fun f H => H) He).
Qed.

Lemma validateForm_stops_at_exception_witness :
  let h := clock_host 0 noon_2026_11_02 in
  let w' := snd (validateForm h init) in
  exists before f after,
    Map_keys (validators (this init)) = before ++ f :: after /\
    fst (validateField h f init) = Throw TypeError /\
    (forall g, In g before -> exists ok, fst (validateField h g init) = Normal ok) /\
    calls w' = calls init ++ map CallValidator (before ++ [f]) /\
    (forall g, In g before ->
               error_of w' g = error_of (snd (validateField h g init)) g) /\
    (forall g, ~ In g before -> error_of w' g = error_of init g).
Proof.
  apply (validateForm_stops_at_exception (clock_host 0 noon_2026_11_02) init TypeError).
  vm_compute. reflexivity.
Defined.

(** On an empty document the field of the confirmation throws: the six
    fields before it have been validated, the eight after it have
    not. *)
Example validateForm_without_password_field :
  let h := clock_host 0 noon_2026_11_02 in
  fst (validateForm h init) = Throw TypeError /\
  calls (snd (validateForm h init))
  = map CallValidator
        ["fullName"; "email"; "phone"; "birthDate"; "cedula"; "password";
         "confirmPassword"]%string /\
  Map_keys (errors (this (snd (validateForm h init))))
  = ["fullName"; "email"; "phone"; "birthDate"; "cedula"; "password"]%string.
Proof. cbv zeta. repeat apply conj; vm_compute; reflexivity. Qed.

(** ** Submission *)

Lemma validateField_set_isSubmitting (h : Host) (f : string) (b : bool) (w : World) :
  validateField h f (set_isSubmitting b w)
  = (fst (validateField h f w), set_isSubmitting b (snd (validateField h f w))).
Proof.
  rewrite !validateField_unfold. cbn [this validators set_isSubmitting].
  destruct (Map_get f (validators (this w))) as [v|]; [|reflexivity].
  cbv zeta. destruct (validate v h (field_value h f)) as [error | e]; [|reflexivity].
  destruct (error_truthy error); reflexivity.
Qed.

Lemma validateForm_loop_set_isSubmitting (h : Host) (b : bool) :
  forall keys isValid w,
    validateForm_loop h keys isValid (set_isSubmitting b w)
    = (fst (validateForm_loop h keys isValid w),
       set_isSubmitting b (snd (validateForm_loop h keys isValid w))).
Proof.
  induction keys as [|f keys IH]; intros isValid w.
  - reflexivity.
  - rewrite !validateForm_loop_cons, validateField_set_isSubmitting.
    destruct (validateField h f w) as [[ok | e] w1]; cbn [fst snd]; [apply IH | reflexivity].
Qed.

Lemma validateForm_set_isSubmitting (h : Host) (b : bool) (w : World) :
  validateForm h (set_isSubmitting b w)
  = (fst (validateForm h w), set_isSubmitting b (snd (validateForm h w))).
Proof. unfold validateForm. apply validateForm_loop_set_isSubmitting. Qed.

Lemma validateForm_frame (h : Host) (w : World) :
  let w' := snd (validateForm h w) in
  validators (this w') = validators (this w) /\
  isSubmitting (this w') = isSubmitting (this w) /\
  pending w' = pending w.
Proof.
  cbv zeta. unfold validateForm.
  pose proof (validateForm_loop_frame h (Map_keys (validators (this w))) true w) as H.
  cbv zeta in H. tauto.
Qed.

(** What [handleSubmit] does when no submission is in flight. *)
Lemma handleSubmit_idle (h : Host) (w : World) :
  isSubmitting (this w) = false ->
  let r := validateForm h w in
  let w' := handleSubmit h w in
  validators (this w') = validators (this w) /\
  (if submitButton h then
     errors (this w') = errors (this (snd r)) /\
     match fst r with
     | Normal true =>
         isSubmitting (this w') = true /\ pending w' = S (pending w) /\
         calls w' = calls (snd r) ++ [CallTransport]
     | Normal false =>
         isSubmitting (this w') = false /\ pending w' = pending w /\
         calls w' = calls (snd r) ++ [CallFocusFirstError]
     | Throw _ =>
         isSubmitting (this w') = false /\ pending w' = pending w /\
         calls w' = calls (snd r) ++ [CallAlert]
     end
   else
     errors (this w') = errors (this w) /\
     isSubmitting (this w') = false /\ pending w' = pending w /\
     calls w' = calls w ++ [CallAlert]).
Proof.
  intros Hs. cbv zeta. unfold handleSubmit. rewrite Hs, try_block_unfold. cbv zeta.
  destruct (submitButton h).
  - rewrite validateForm_set_isSubmitting.
    pose proof (validateForm_frame h w) as (Hv & _ & Hp). cbv zeta in Hv, Hp.
    destruct (validateForm h w) as [[[|] | e] w2]; cbn in *; repeat split; congruence.
  - cbn. repeat split; reflexivity.
Qed.

Lemma validateForm_loop_calls (h : Host) :
  forall keys isValid w,
    exists ks, calls (snd (validateForm_loop h keys isValid w))
               = calls w ++ map CallValidator ks.
Proof.
  induction keys as [|f keys IH]; intros isValid w.
  - exists []. cbn. rewrite app_nil_r. reflexivity.
  - rewrite validateForm_loop_cons.
    assert (Hf : exists ks, calls (snd (validateField h f w)) = calls w ++ map CallValidator ks).
    { rewrite validateField_unfold.
      destruct (Map_get f (validators (this w))) as [v|];
        [|exists []; cbn; rewrite app_nil_r; reflexivity].
      exists [f]. cbv zeta. destruct (validate v h (field_value h f)) as [error | e];
        [destruct (error_truthy error)|]; reflexivity. }
    destruct Hf as [ks1 H1].
    destruct (validateField h f w) as [[ok | e] w1]; cbn [fst snd] in *.
    + destruct (IH (if negb ok then false else isValid) w1) as [ks2 H2].
      exists (ks1 ++ ks2). rewrite H2, H1, map_app, app_assoc. reflexivity.
    + exists ks1. exact H1.
Qed.

Lemma transport_calls_validators (l : list Call) (ks : list string) (c : Call) :
  length (filter is_transport (l ++ map CallValidator ks ++ [c]))
  = (length (filter is_transport l) + (if is_transport c then 1 else 0))%nat.
Proof.
  rewrite !filter_app, !length_app.
  assert (H : filter is_transport (map CallValidator ks) = []).
  { induction ks as [|k ks IH]; [reflexivity | exact IH]. }
  rewrite H. cbn [filter length]. destruct (is_transport c); reflexivity.
Qed.

(** X17.  [handleSubmit], when no submission is in flight: the
    transport is called, once, exactly when the submit button exists
    and [validateForm] returns [true]; the in-flight flag is then left
    set and one more submission is pending.  In every other case the
    flag is reset before the function returns: after a failed
    validation the first invalid field is focused, after an exception
    of a validate function or without a submit button the alert is
    shown.  The errors are those that [validateForm] left, and the
    registry is unchanged. *)
Theorem handleSubmit_outcome (h : Host) (w : World) :
  isSubmitting (this w) = false ->
  let r := validateForm h w in
  let w' := handleSubmit h w in
  let submitted :=
    submitButton h && match fst r with Normal true => true | _ => false end in
  isSubmitting (this w') = submitted /\
  pending w' = (pending w + (if submitted then 1 else 0))%nat /\
  transport_calls w' = (transport_calls w + (if submitted then 1 else 0))%nat /\
  validators (this w') = validators (this w) /\
  (submitButton h = true ->
   errors (this w') = errors (this (snd r)) /\
   calls w' = calls (snd r) ++
              [match fst r with
               | Normal true => CallTransport
               | Normal false => CallFocusFirstError
               | Throw _ => CallAlert
               end]) /\
  (submitButton h = false ->
   errors (this w') = errors (this w) /\ calls w' = calls w ++ [CallAlert]).
Proof.
  intros Hs. cbv zeta.
  pose proof (handleSubmit_idle h w Hs) as H. cbv zeta in H. destruct H as [Hv H].
  destruct (validateForm_loop_calls h (Map_keys (validators (this w))) true w) as [ks Hks].
  fold (validateForm h w) in Hks. unfold transport_calls.
  destruct (submitButton h); cbn [andb].
  - destruct H as [He H].
    destruct (fst (validateForm h w)) as [[|] | e]; destruct H as (H1 & H2 & H3);
      rewrite H1, H2, H3, Hks, <- app_assoc, transport_calls_validators; cbn [is_transport];
      repeat split; try assumption; try discriminate; lia.
  - destruct H as (He & H1 & H2 & H3). rewrite H1, H2, H3.
    rewrite <- (app_nil_l [CallAlert]).
    change (@nil Call) with (map CallValidator []) at 1.
    rewrite transport_calls_validators. cbn [is_transport].
    repeat split; try assumption; try discriminate; lia.
Qed.

Lemma handleSubmit_outcome_witness :
  let h := filled_host "abc" "" in
  let r := validateForm h init in
  let w' := handleSubmit h init in
  let submitted :=
    submitButton h && match fst r with Normal true => true | _ => false end in
  isSubmitting (this w') = submitted /\
  pending w' = (pending init + (if submitted then 1 else 0))%nat /\
  transport_calls w' = (transport_calls init + (if submitted then 1 else 0))%nat /\
  validators (this w') = validators (this init) /\
  (submitButton h = true ->
   errors (this w') = errors (this (snd r)) /\
   calls w' = calls (snd r) ++
              [match fst r with
               | Normal true => CallTransport
               | Normal false => CallFocusFirstError
               | Throw _ => CallAlert
               end]) /\
  (submitButton h = false ->
   errors (this w') = errors (this init) /\ calls w' = calls init ++ [CallAlert]).
Proof.
  apply (handleSubmit_outcome (filled_host "abc" "") init). reflexivity.
Defined.

(** An invalid form is not sent; a valid one is, once. *)
Example handleSubmit_invalid_then_valid :
  let bad := filled_host "abc" "" in
  let good := filled_host "Abcdef1!" "Abcdef1!" in
  let w1 := handleSubmit bad init in
  let w2 := handleSubmit good w1 in
  isSubmitting (this w1) = false /\ transport_calls w1 = 0%nat /\
  Map_keys (errors (this w1)) = ["password"; "confirmPassword"]%string /\
  last (calls w1) CallAlert = CallFocusFirstError /\
  isSubmitting (this w2) = true /\ transport_calls w2 = 1%nat /\
  errors (this w2) = [].
Proof. cbv zeta. repeat apply conj; vm_compute; reflexivity. Qed.

(** ** Settlement of a submission *)

Lemma handleSubmit_calls_grow (h : Host) (w : World) :
  isSubmitting (this w) = false ->
  (length (calls w) < length (calls (handleSubmit h w)))%nat.
Proof.
  intros Hs. pose proof (handleSubmit_idle h w Hs) as H. cbv zeta in H.
  destruct H as [_ H].
  destruct (validateForm_loop_calls h (Map_keys (validators (this w))) true w) as [ks Hks].
  fold (validateForm h w) in Hks.
  destruct (submitButton h).
  - destruct H as [_ H].
    destruct (fst (validateForm h w)) as [[|] | e]; destruct H as (_ & _ & ->);
      rewrite Hks, !length_app; cbn [length]; lia.
  - destruct H as (_ & _ & _ & ->). rewrite length_app. cbn [length]. lia.
Qed.

(** X18.  When the pending submission settles, in any state reached
    from the initial one, the in-flight flag is reset and nothing is
    pending any more; the success message is shown after a fulfilment
    and the alert after a rejection; the errors are untouched; and the
    next submit attempt is processed again. *)
Theorem settle_releases_guard (reg : JSMap RuleDescriptor) (es : list (Host * Event))
        (h : Host) (ok : bool) :
  let w := run es (init_with reg) in
  let w' := step h (EvSettle ok) w in
  isSubmitting (this w') = false /\ pending w' = 0%nat /\
  validators (this w') = reg /\ errors (this w') = errors (this w) /\
  calls w' = calls w ++ (if isSubmitting (this w)
                         then [if ok then CallSuccessMessage else CallAlert]
                         else []) /\
  (forall h', (length (calls w') < length (calls (step h' EvSubmit w')))%nat).
Proof.
  cbv zeta.
  pose proof (inv_run reg es _ (inv_init reg)) as (Hreg & _ & Hpend).
  set (w := run es (init_with reg)) in *.
  assert (H : isSubmitting (this (step h (EvSettle ok) w)) = false /\
              pending (step h (EvSettle ok) w) = 0%nat /\
              validators (this (step h (EvSettle ok) w)) = reg /\
              errors (this (step h (EvSettle ok) w)) = errors (this w) /\
              calls (step h (EvSettle ok) w)
              = calls w ++ (if isSubmitting (this w)
                            then [if ok then CallSuccessMessage else CallAlert]
                            else [])).
  { cbn [step]. unfold handleSubmit_resume.
    destruct (isSubmitting (this w)) eqn:Hs; rewrite Hpend.
    - destruct ok; cbn; repeat split; assumption.
    - rewrite app_nil_r. repeat split; assumption. }
  destruct H as (H1 & H2 & H3 & H4 & H5). repeat split; try assumption.
  intros h'. cbn [step]. apply handleSubmit_calls_grow. exact H1.
Qed.

(** ** What no event changes *)

Lemma handleSubmit_validators (h : Host) (w : World) :
  validators (this (handleSubmit h w)) = validators (this w).
Proof.
  destruct (isSubmitting (this w)) eqn:Hs.
  - unfold handleSubmit. rewrite Hs. reflexivity.
  - apply (handleSubmit_idle h w Hs).
Qed.

Lemma step_validators (h : Host) (e : Event) (w : World) :
  validators (this (step h e w)) = validators (this w).
Proof.
  destruct e as [name | name rc | | ok | | f | |]; cbn [step].
  - destruct (_ && _); [apply validateField_frame | reflexivity].
  - destruct rc; [|reflexivity].
    destruct (Map_has name _); [apply validateField_frame | reflexivity].
  - apply handleSubmit_validators.
  - unfold handleSubmit_resume. destruct (pending w); [reflexivity|].
    destruct ok; reflexivity.
  - reflexivity.
  - apply validateField_frame.
  - apply validateForm_frame.
  - reflexivity.
Qed.

(** X19.  No event and no call of the public methods changes the
    registry: after any run it is the one built by the constructor,
    with the fifteen fields of [setupValidators] in their order.  The
    in-flight flag and the number of pending submissions are only
    changed by a submit attempt and by the settlement of a
    submission. *)
Theorem registry_is_fixed :
  (forall h e w, validators (this (step h e w)) = validators (this w)) /\
  (forall es w, validators (this (run es w)) = validators (this w)) /\
  (forall es,
      Map_keys (validators (this (run es init)))
      = ["fullName"; "email"; "phone"; "birthDate"; "cedula"; "password";
         "confirmPassword"; "website"; "salary"; "country"; "gender"; "interests";
         "cv"; "comments"; "terms"]%string) /\
  (forall h e w,
      match e with
      | EvSubmit | EvSettle _ => True
      | _ => isSubmitting (this (step h e w)) = isSubmitting (this w) /\
             pending (step h e w) = pending w
      end).
Proof.
  assert (Hrun : forall es w, validators (this (run es w)) = validators (this w)).
  { induction es as [|[h e] es IH]; intros w; cbn [run]; [reflexivity|].
    rewrite IH. apply step_validators. }
  split; [exact step_validators|]. split; [exact Hrun|]. split.
  - intros es. rewrite Hrun. reflexivity.
  - intros h e w. destruct e as [name | name rc | | ok | | f | |]; cbn [step]; try exact I.
    + destruct (_ && _); [|split; reflexivity].
      pose proof (validateField_frame h name w) as H. cbv zeta in H. tauto.
    + destruct rc; [|split; reflexivity].
      destruct (Map_has name _); [|split; reflexivity].
      pose proof (validateField_frame h name w) as H. cbv zeta in H. tauto.
    + split; reflexivity.
    + pose proof (validateField_frame h f w) as H. cbv zeta in H. tauto.
    + pose proof (validateForm_frame h w) as H. cbv zeta in H. tauto.
    + split; reflexivity.
Qed.

(** ** Reset *)

(** X20.  A reset, by the event of the form or by [reset()], empties
    the error map, so that [isValid()] holds, and changes nothing else:
    the registry, the in-flight flag and the pending submission stay.
    A submission that was in flight is not cancelled: when it settles
    after the reset, its success message or alert is still shown. *)
Theorem reset_clears_errors_only (h : Host) (w : World) :
  let w1 := step h EvReset w in
  getErrors w1 = [] /\ isValid w1 = true /\
  step h ApiReset w = w1 /\ step h EvReset w1 = w1 /\
  validators (this w1) = validators (this w) /\
  isSubmitting (this w1) = isSubmitting (this w) /\
  pending w1 = pending w /\ calls w1 = calls w /\
  (forall ok n, pending w = S n ->
     let w2 := step h (EvSettle ok) w1 in
     pending w2 = n /\ isSubmitting (this w2) = false /\
     calls w2 = calls w ++ [if ok then CallSuccessMessage else CallAlert]).
Proof.
  cbv zeta. cbn [step]. unfold clearAllErrors, modify, getErrors, isValid.
  cbn [snd set_errors this errors validators isSubmitting pending calls Map_size length Nat.eqb].
  do 8 (split; [reflexivity|]).
  intros ok n Hp. unfold handleSubmit_resume. cbn [pending set_errors]. rewrite Hp.
  destruct ok; cbn; repeat split; reflexivity.
Qed.

(** ** Submissions and success messages over a run *)

Lemma filter_validators (p : Call -> bool) (ks : list string) :
  (forall k, p (CallValidator k) = false) -> filter p (map CallValidator ks) = [].
Proof.
  intros Hp. induction ks as [|k ks IH]; [reflexivity|].
  cbn [map filter]. rewrite Hp. exact IH.
Qed.

Lemma validateField_calls_validators (h : Host) (f : string) (w : World) :
  exists ks, calls (snd (validateField h f w)) = calls w ++ map CallValidator ks.
Proof.
  rewrite validateField_unfold.
  destruct (Map_get f (validators (this w))) as [v|];
    [|exists []; cbn; rewrite app_nil_r; reflexivity].
  exists [f]. cbv zeta. destruct (validate v h (field_value h f)) as [error | e];
    [destruct (error_truthy error)|]; reflexivity.
Qed.

(** The effect of one event on the three counts. *)
Lemma step_counts (h : Host) (e : Event) (w : World) :
  let w' := step h e w in
  (transport_calls w' = transport_calls w /\ success_calls w' = success_calls w /\
   pending w' = pending w) \/
  (transport_calls w' = S (transport_calls w) /\ success_calls w' = success_calls w /\
   pending w' = S (pending w)) \/
  (transport_calls w' = transport_calls w /\ success_calls w' <= S (success_calls w) /\
   S (pending w') = pending w /\ success_calls w <= success_calls w')%nat.
Proof.
  cbv zeta. unfold transport_calls, success_calls.
  assert (Hval : forall w1 ks,
             calls w1 = calls w ++ map CallValidator ks -> pending w1 = pending w ->
             length (filter is_transport (calls w1)) = length (filter is_transport (calls w)) /\
             length (filter is_success (calls w1)) = length (filter is_success (calls w)) /\
             pending w1 = pending w).
  { intros w1 ks Hc Hp. rewrite Hc, !filter_app, !filter_validators by reflexivity.
    rewrite !app_nil_r. auto. }
  assert (Hone : forall w1 ks c,
             calls w1 = calls w ++ map CallValidator ks ++ [c] ->
             length (filter is_transport (calls w1))
             = (length (filter is_transport (calls w)) + if is_transport c then 1 else 0)%nat /\
             length (filter is_success (calls w1))
             = (length (filter is_success (calls w)) + if is_success c then 1 else 0)%nat).
  { intros w1 ks c Hc. rewrite Hc, !filter_app, !filter_validators by reflexivity.
    rewrite !length_app. cbn [app filter]. destruct c; cbn; auto. }
  destruct e as [name | name rc | | ok | | f | |]; cbn [step].
  - left. destruct (_ && _); [|auto].
    destruct (validateField_calls_validators h name w) as [ks Hks].
    apply (Hval _ ks Hks). apply validateField_frame.
  - left. destruct rc; [|auto]. destruct (Map_has name _); [|auto].
    destruct (validateField_calls_validators h name w) as [ks Hks].
    apply (Hval _ ks Hks). apply validateField_frame.
  - destruct (isSubmitting (this w)) eqn:Hs.
    + left. unfold handleSubmit. rewrite Hs. auto.
    + pose proof (handleSubmit_idle h w Hs) as H. cbv zeta in H. destruct H as [_ H].
      destruct (validateForm_loop_calls h (Map_keys (validators (this w))) true w)
        as [ks Hks].
      fold (validateForm h w) in Hks.
      destruct (submitButton h).
      * destruct H as [_ H].
        destruct (fst (validateForm h w)) as [[|] | ex]; destruct H as (_ & Hp & Hc);
          rewrite Hks, <- app_assoc in Hc; destruct (Hone _ _ _ Hc) as [H1 H2];
          cbn [is_transport is_success] in H1, H2; rewrite H1, H2, Hp;
          [right; left | left | left]; repeat split; lia.
      * destruct H as (_ & _ & Hp & Hc).
        change (calls w ++ [CallAlert]) with (calls w ++ map CallValidator [] ++ [CallAlert])
          in Hc.
        destruct (Hone _ _ _ Hc) as [H1 H2]. cbn [is_transport is_success] in H1, H2.
        left. rewrite H1, H2, Hp. repeat split; lia.
  - unfold handleSubmit_resume. destruct (pending w) as [|n] eqn:Hp; [left; auto|].
    right; right. destruct ok; cbn [calls pending finally_block set_isSubmitting set_pending
                                      record_call catch_block];
      rewrite !filter_app, !length_app; cbn; repeat split; lia.
  - left. auto.
  - left. destruct (validateField_calls_validators h f w) as [ks Hks].
    apply (Hval _ ks Hks). apply validateField_frame.
  - left. destruct (validateForm_loop_calls h (Map_keys (validators (this w))) true w)
      as [ks Hks].
    fold (validateForm h w) in Hks. apply (Hval _ ks Hks). apply validateForm_frame.
  - left. auto.
Qed.

Lemma validateForm_true_no_errors (h : Host) (w : World) :
  (forall k, In k (Map_keys (errors (this w))) -> In k (Map_keys (validators (this w)))) ->
  fst (validateForm h w) = Normal true ->
  errors (this (snd (validateForm h w))) = [].
Proof.
  intros Hsub Hb. unfold validateForm in *.
  pose proof (validateForm_loop_spec h w (Map_keys (validators (this w))) true w
                                     eq_refl (fun f H => H)) as H.
  destruct (validateForm_loop h (Map_keys (validators (this w))) true w)
    as [[b | e] w']; cbn [fst snd] in *; [|discriminate].
  apply (f_equal (fun c => match c with Normal x => x | Throw _ => true end)) in Hb. subst b.
  destruct H as (Hconj & _ & Hin & Hout & Hok). cbn [andb] in Hconj.
  symmetry in Hconj. rewrite forallb_forall in Hconj.
  apply Map_get_all_None. intros k.
  destruct (in_dec string_dec k (Map_keys (validators (this w)))) as [Hk | Hk].
  - change (error_of w' k = None). rewrite (Hin k Hk).
    destruct (Hok k Hk) as [ok Hfok].
    destruct (field_ok_error h w k ok Hk Hfok) as [E Hiff].
    apply Hiff. rewrite <- E. apply Hconj. exact Hk.
  - change (error_of w' k = None). rewrite (Hout k Hk). unfold error_of.
    destruct (Map_get k (errors (this w))) as [m|] eqn:Em; [|reflexivity].
    exfalso. apply Hk, Hsub, Map_get_In_keys. exists m. exact Em.
Qed.

(** X24.  In every run from the initial state, each success message
    answers a transport call of its own: the success messages shown
    and the submissions still pending never outnumber the calls of
    the transport.  And a submit attempt that calls the transport was
    made with no submission in flight, on a form for which
    [validateForm] returned [true], and leaves [isValid()] true. *)
Theorem success_needs_transport (reg : JSMap RuleDescriptor) (es : list (Host * Event)) :
  let w := run es (init_with reg) in
  (success_calls w + pending w <= transport_calls w)%nat /\
  (forall h,
      let w' := step h EvSubmit w in
      transport_calls w' <> transport_calls w ->
      transport_calls w' = S (transport_calls w) /\
      isSubmitting (this w) = false /\ submitButton h = true /\
      fst (validateForm h w) = Normal true /\
      isValid w' = true /\ isSubmitting (this w') = true).
Proof.
  cbv zeta. split.
  - assert (H : forall es w,
               (success_calls w + pending w <= transport_calls w)%nat ->
               (success_calls (run es w) + pending (run es w)
                <= transport_calls (run es w))%nat).
    { clear es. induction es as [|[h e] es IH]; intros w Hw; cbn [run]; [exact Hw|].
      apply IH. pose proof (step_counts h e w) as Hs. cbv zeta in Hs. lia. }
    apply H. cbn. lia.
  - intros h Hne.
    pose proof (inv_run reg es _ (inv_init reg)) as (Hreg & Hkeys & _).
    set (w := run es (init_with reg)) in *. cbn [step] in *.
    destruct (isSubmitting (this w)) eqn:Hs.
    { exfalso. apply Hne. unfold handleSubmit. rewrite Hs. reflexivity. }
    pose proof (handleSubmit_idle h w Hs) as H. cbv zeta in H. destruct H as [_ H].
    destruct (validateForm_loop_calls h (Map_keys (validators (this w))) true w) as [ks Hks].
    fold (validateForm h w) in Hks.
    assert (Hcount : forall ks0 c,
               calls (handleSubmit h w) = calls w ++ map CallValidator ks0 ++ [c] ->
               transport_calls (handleSubmit h w)
               = (transport_calls w + if is_transport c then 1 else 0)%nat).
    { intros ks0 c Hc. unfold transport_calls. rewrite Hc, !filter_app, filter_validators
        by reflexivity.
      rewrite !length_app. cbn [app filter]. destruct c; cbn; lia. }
    destruct (submitButton h).
    + destruct H as [He H].
      destruct (fst (validateForm h w)) as [[|] | ex] eqn:Hr; destruct H as (Hsub & _ & Hc);
        rewrite Hks, <- app_assoc in Hc; pose proof (Hcount _ _ Hc) as Ht;
        cbn [is_transport] in Ht; try (exfalso; lia).
      repeat split; try assumption; try lia.
      unfold isValid. rewrite He, validateForm_true_no_errors; [reflexivity | | exact Hr].
      intros k Hk. rewrite Hreg. apply Hkeys. exact Hk.
    + destruct H as (_ & _ & _ & Hc).
      change (calls w ++ [CallAlert]) with (calls w ++ map CallValidator [] ++ [CallAlert])
        in Hc.
      specialize (Hcount _ _ Hc). cbn [is_transport] in Hcount. exfalso. lia.
Qed.

(** A run with a rejected form, an accepted one, a second attempt
    while it is in flight, and its fulfilment. *)
Example success_needs_transport_run :
  let bad := filled_host "abc" "" in
  let good := filled_host "Abcdef1!" "Abcdef1!" in
  let w := run [(bad, EvSubmit); (good, EvSubmit); (good, EvSubmit);
                (good, EvSettle true)] init in
  transport_calls w = 1%nat /\ success_calls w = 1%nat /\ pending w = 0%nat.
Proof. cbv zeta. repeat apply conj; vm_compute; reflexivity. Qed.

(** ** The listeners of the form *)

Lemma validateField_again (h : Host) (f : string) (w : World) :
  this (snd (validateField h f (snd (validateField h f w))))
  = this (snd (validateField h f w)).
Proof.
  rewrite (validateField_unfold h f w).
  destruct (Map_get f (validators (this w))) as [v|] eqn:Hv.
  - cbv zeta. destruct (validate v h (field_value h f)) as [error | e] eqn:Hr.
    + destruct (error_truthy error) eqn:Ht; cbn [fst snd];
        rewrite validateField_unfold;
        cbn [this validators errors set_errors record_call];
        rewrite Hv; cbv zeta; rewrite Hr, Ht;
        cbn [fst snd this set_errors record_call validators errors isSubmitting].
      * rewrite Map_set_idempotent. reflexivity.
      * rewrite Map_delete_idempotent. reflexivity.
    + cbn [fst snd]. rewrite validateField_unfold.
      cbn [this validators record_call]. rewrite Hv. cbv zeta. rewrite Hr. reflexivity.
  - cbn [fst snd]. rewrite validateField_unfold, Hv. reflexivity.
Qed.

(** X25.  The listeners installed by [bindEvents]: an input event
    whose target has no name, or a name that is not registered, and a
    change event that does not come from a radio button or a check
    box, change nothing; the other input and change events have the
    effect of [validateField] on the field the target names; and when
    both events arrive for one action of the user, as they do for a
    click on a check box, the validator object after the second is
    the one after the first. *)
Theorem listeners_validate_their_field (h : Host) (name : string) (w : World) :
  (name = ""%string -> step h (EvInput name) w = w) /\
  (Map_get name (validators (this w)) = None ->
   step h (EvInput name) w = w /\ step h (EvChange name true) w = w) /\
  step h (EvChange name false) w = w /\
  (Map_get name (validators (this w)) <> None ->
   step h (EvChange name true) w = snd (validateField h name w) /\
   (name <> ""%string ->
    step h (EvInput name) w = snd (validateField h name w) /\
    this (step h (EvChange name true) (step h (EvInput name) w))
    = this (step h (EvInput name) w))).
Proof.
  cbn [step]. unfold Map_has. split; [|split; [|split; [reflexivity|]]].
  - intros ->. reflexivity.
  - intros ->. rewrite andb_false_r. split; reflexivity.
  - intros Hreg.
    destruct (Map_get name (validators (this w))) as [v|] eqn:Hv; [|contradiction].
    split; [reflexivity|]. intros Hne.
    destruct (String.eqb_spec name "") as [E | _]; [contradiction|].
    cbn [negb andb]. split; [reflexivity|].
    pose proof (validateField_frame h name w) as (Hval & _ & _).
    rewrite Hval, Hv. apply validateField_again.
Qed.

(** ** Groups of check boxes and radio buttons *)

Lemma digits_value_snoc (acc : Z) (d : jsstring) :
  fold_left (fun a c => 10 * a + digit_val c) d acc
  = acc * 10 ^ Z.of_nat (length d) + digits_value d.
Proof.
  unfold digits_value. revert acc. induction d as [|c d IH]; intros acc.
  - cbn [fold_left length]. change (Z.of_nat 0) with 0. rewrite Z.pow_0_r. lia.
  - cbn [fold_left length]. rewrite IH, (IH (10 * 0 + digit_val c)).
    rewrite Nat2Z.inj_succ, Z.pow_succ_r by lia. ring.
Qed.

Lemma digits_value_cons (c : N) (d : jsstring) :
  digits_value (c :: d) = digit_val c * 10 ^ Z.of_nat (length d) + digits_value d.
Proof.
  unfold digits_value at 1. cbn [fold_left]. rewrite digits_value_snoc. ring.
Qed.

Lemma decimal_digits_spec :
  forall fuel n acc,
    (N.to_nat n < fuel)%nat -> forallb isDigit acc = true ->
    forallb isDigit (decimal_digits fuel n acc) = true /\
    digits_value (decimal_digits fuel n acc)
    = Z.of_N n * 10 ^ Z.of_nat (length acc) + digits_value acc.
Proof.
  induction fuel as [|fuel IH]; intros n acc Hn Hacc; [lia|].
  cbn [decimal_digits].
  assert (Hmod : (n mod 10 < 10)%N) by (apply N.mod_lt; discriminate).
  assert (Hd : isDigit (48 + n mod 10) = true).
  { apply isDigit_range. revert Hmod. generalize (n mod 10)%N. intros m Hm. lia. }
  assert (Hv : digit_val (48 + n mod 10) = Z.of_N (n mod 10)).
  { unfold digit_val. generalize (n mod 10)%N. intros m. lia. }
  assert (Hacc' : forallb isDigit ((48 + n mod 10)%N :: acc) = true).
  { cbn [forallb]. rewrite Hd, Hacc. reflexivity. }
  destruct (N.ltb_spec n 10) as [Hlt | Hge].
  - split; [exact Hacc'|]. rewrite digits_value_cons, Hv, N.mod_small by exact Hlt.
    reflexivity.
  - destruct (IH (n / 10)%N ((48 + n mod 10)%N :: acc)) as [H1 H2].
    + assert (n / 10 < n)%N by (apply N.div_lt; lia). lia.
    + exact Hacc'.
    + split; [exact H1|]. rewrite H2, digits_value_cons, Hv. cbn [length].
      rewrite Nat2Z.inj_succ, Z.pow_succ_r by lia.
      rewrite (N.div_mod n 10) at 3 by discriminate.
      rewrite N2Z.inj_add, N2Z.inj_mul. change (Z.of_N 10) with 10. ring.
Qed.

Lemma nat_to_jsstring_spec (n : nat) :
  forallb isDigit (nat_to_jsstring n) = true /\
  digits_value (nat_to_jsstring n) = Z.of_nat n.
Proof.
  unfold nat_to_jsstring.
  destruct (decimal_digits_spec (S n) (N.of_nat n) []) as [H1 H2];
    [rewrite Nat2N.id; lia | reflexivity |].
  split; [exact H1|]. rewrite H2. cbn [length]. change (Z.of_nat 0) with 0.
  rewrite Z.pow_0_r, nat_N_Z. unfold digits_value. cbn [fold_left]. lia.
Qed.

Lemma existsb_filter_length (A : Type) (f : A -> bool) (l : list A) :
  existsb f l = (1 <=? length (filter f l))%nat.
Proof.
  induction l as [|a l IH]; cbn [existsb filter]; [reflexivity|].
  destruct (f a); cbn [orb length]; [reflexivity | exact IH].
Qed.

(** X5.  [validateCheckboxGroup] accepts a group exactly when at
    least [minRequired] of its boxes are ticked; otherwise its message
    spells the minimum out in decimal digits.  [validateRadioGroup]
    accepts exactly when the check-box rule with a minimum of 1 does.
    For the field [interests] of the script, whose minimum is 2,
    [validateField] returns [false] and stores "Debe seleccionar al
    menos 2 opciones" when fewer than two boxes are ticked, and returns
    [true] and clears the error otherwise. *)
Theorem validateCheckboxGroup_minimum (h : Host) (name : string) (minRequired : nat) :
  let checkedCount := length (filter el_checked (querySelectorAll_input_name h name)) in
  validateCheckboxGroup h name minRequired
  = (if (minRequired <=? checkedCount)%nat then None
     else Some (js "Debe seleccionar al menos " ++ nat_to_jsstring minRequired
                   ++ js " opciones")) /\
  forallb isDigit (nat_to_jsstring minRequired) = true /\
  digits_value (nat_to_jsstring minRequired) = Z.of_nat minRequired /\
  (validateRadioGroup h name = None <-> validateCheckboxGroup h name 1 = None) /\
  (forall w,
      validators (this w) = setupValidators [] ->
      let count := length (filter el_checked (querySelectorAll_input_name h "interests")) in
      let w' := snd (validateField h "interests" w) in
      fst (validateField h "interests" w) = Normal (2 <=? count)%nat /\
      error_of w' "interests"
      = (if (2 <=? count)%nat then None
         else Some (js "Debe seleccionar al menos 2 opciones"))).
Proof.
  cbv zeta. destruct (nat_to_jsstring_spec minRequired) as [Hd Hv].
  split; [|split; [exact Hd | split; [exact Hv | split]]].
  - unfold validateCheckboxGroup, msg_checkbox_group.
    destruct (Nat.ltb_spec
                (length (filter el_checked (querySelectorAll_input_name h name)))
                minRequired) as [H | H];
      destruct (Nat.leb_spec minRequired
                  (length (filter el_checked (querySelectorAll_input_name h name))));
      try lia; reflexivity.
  - unfold validateRadioGroup, validateCheckboxGroup.
    rewrite existsb_filter_length.
    destruct (length (filter el_checked (querySelectorAll_input_name h name)))
      as [|n]; cbn; split; congruence.
  - intros w Hreg.
    assert (Hv' : Map_get "interests" (validators (this w))
                  = Some (rule true (fun h _ => Normal (validateCheckboxGroup h "interests" 2))))
      by (rewrite Hreg; reflexivity).
    pose proof (validateField_result h "interests" w _ Hv') as H.
    cbn [validate rule] in H. unfold validateCheckboxGroup in H.
    destruct (Nat.ltb_spec
                (length (filter el_checked (querySelectorAll_input_name h "interests")))
                2) as [Hlt | Hge];
      destruct (Nat.leb_spec 2
                  (length (filter el_checked (querySelectorAll_input_name h "interests"))));
      try lia; exact H.
Qed.

(** With one box ticked the error names the minimum; with two it is
    cleared. *)
Example interests_one_then_two :
  let one := {| getElementById := no_element;
                querySelectorAll_input_name :=
                  fun _ => [check_input "a" true; check_input "b" false];
                submitButton := true; Date_parse := isoDateParse; LocalTZA := 0;
                now := fun _ => noon_2026_11_02 |} in
  let w1 := snd (validateField one "interests" init) in
  let w2 := snd (validateField (filled_host "" "") "interests" w1) in
  error_of w1 "interests" = Some (js "Debe seleccionar al menos 2 opciones") /\
  error_of w2 "interests" = None.
Proof. cbv zeta. split; vm_compute; reflexivity. Qed.

(** ** The uploaded file *)

(** X6.  [validateFile] throws a [TypeError] when the document has no
    element with the identifier; otherwise it looks at the first file
    only: without a file it returns the required-file message; for the
    field [cv] a type other than [application/pdf] gives the PDF
    message, before the size is looked at; a size above 5242880 bytes
    gives the size message, and exactly 5242880 bytes passes. *)
Theorem validateFile_accepts (h : Host) (fieldName : string) :
  (getElementById h fieldName = None -> validateFile h fieldName = Throw TypeError) /\
  (forall el,
      getElementById h fieldName = Some el ->
      (el_files el = [] -> validateFile h fieldName = Normal (Some msg_file_required)) /\
      (forall file others,
          el_files el = file :: others ->
          validateFile h fieldName
          = Normal (if String.eqb fieldName "cv"
                       && negb (jsstring_eqb (file_type file) (js "application/pdf"))
                    then Some msg_file_pdf
                    else if 5242880 <? file_size file then Some msg_file_size
                         else None)) /\
      (validateFile h fieldName = Normal None <->
       exists file others,
         el_files el = file :: others /\
         (fieldName = "cv"%string -> file_type file = js "application/pdf") /\
         file_size file <= 5242880)).
Proof.
  unfold validateFile. split.
  - intros ->. reflexivity.
  - intros el ->. split; [|split].
    + intros ->. reflexivity.
    + intros file others ->. cbn [hd_error].
      destruct (_ && _); [reflexivity|].
      change (5 * 1024 * 1024) with 5242880.
      destruct (5242880 <? file_size file); reflexivity.
    + destruct (el_files el) as [|file others]; cbn [hd_error].
      * split; [discriminate | intros (f & o & H & _); discriminate].
      * change (5 * 1024 * 1024) with 5242880.
        destruct (String.eqb_spec fieldName "cv") as [Hcv | Hcv]; cbn [andb].
        -- destruct (jsstring_eqb (file_type file) (js "application/pdf")) eqn:Et; cbn [negb].
           ++ apply jsstring_eqb_eq in Et.
              destruct (Z.ltb_spec 5242880 (file_size file)); split.
              ** discriminate.
              ** intros (f & o & H1 & _ & H2). injection H1 as <- <-. lia.
              ** intros _. exists file, others. repeat split; [intros _; exact Et | lia].
              ** reflexivity.
           ++ split; [discriminate|]. intros (f & o & H1 & H2 & _). injection H1 as <- <-.
              apply H2 in Hcv. apply jsstring_eqb_eq in Hcv. congruence.
        -- destruct (Z.ltb_spec 5242880 (file_size file)); split.
           ++ discriminate.
           ++ intros (f & o & H1 & _ & H2). injection H1 as <- <-. lia.
           ++ intros _. exists file, others. repeat split; [intros E; contradiction | lia].
           ++ reflexivity.
Qed.

(** ** The descriptors of the registry *)

Lemma same_validate_get (f : string) (reg1 reg2 : JSMap RuleDescriptor) :
  same_validate reg1 reg2 ->
  match Map_get f reg1, Map_get f reg2 with
  | Some a, Some b => validate a = validate b
  | None, None => True
  | _, _ => False
  end.
Proof.
  induction 1 as [|[k1 v1] [k2 v2] r1 r2 [Hk Hv] _ IH]; cbn [Map_get]; [exact I|].
  cbn [fst snd] in Hk, Hv. subst k2.
  destruct (String.eqb f k1); [exact Hv | exact IH].
Qed.

(** X13.  [validateField] only uses the [validate] member of a
    descriptor: with two registries that have the same keys and the
    same validate functions, whatever their [required], [minLength]
    and [pattern] members, it returns the same result and leaves the
    same errors. *)
Theorem validateField_reads_validate_only (h : Host) (f : string) (w1 w2 : World) :
  same_validate (validators (this w1)) (validators (this w2)) ->
  errors (this w1) = errors (this w2) ->
  fst (validateField h f w1) = fst (validateField h f w2) /\
  errors (this (snd (validateField h f w1))) = errors (this (snd (validateField h f w2))).
Proof.
  intros Hreg Herr. apply (same_validate_get f) in Hreg.
  rewrite !validateField_unfold.
  destruct (Map_get f (validators (this w1))) as [a|],
           (Map_get f (validators (this w2))) as [b|]; try contradiction.
  - cbv zeta. rewrite Hreg.
    destruct (validate b h (field_value h f)) as [error | e].
    + destruct (error_truthy error); cbn [fst snd set_errors this errors];
        rewrite Herr; split; reflexivity.
    + cbn [fst snd record_call this]. split; [reflexivity | exact Herr].
  - split; [reflexivity | exact Herr].
Qed.

(** The registry of the script with every flag inverted and the other
    members dropped. *)
Lemma validateField_reads_validate_only_witness :
  let h := filled_host "abc" "" in
  let reg' := map (fun kv => (fst kv, rule (negb (required (snd kv))) (validate (snd kv))))
                  (setupValidators []) in
  fst (validateField h "password" init) = fst (validateField h "password" (init_with reg')) /\
  errors (this (snd (validateField h "password" init)))
  = errors (this (snd (validateField h "password" (init_with reg')))).
Proof.
  apply (validateField_reads_validate_only (filled_host "abc" "") "password" init).
  - unfold same_validate. cbn. repeat constructor.
  - reflexivity.
Defined.

Lemma validate_blank (h : Host) (f : string) (v : RuleDescriptor) :
  Map_get f (setupValidators []) = Some v ->
  getElementById h "password" <> None ->
  getElementById h "cv" <> None ->
  getElementById h "terms" <> None ->
  nothing_selected h ->
  exists r, validate v h [] = Normal r /\ error_truthy r = required v.
Proof.
  intros Hv Hp Hc Ht [Hid Hname]. revert Hv.
  let reg := eval cbv [setupValidators Map_set String.eqb Ascii.eqb Bool.eqb]
             in (setupValidators []) in
  change (setupValidators []) with reg.
  cbn [Map_get].
  repeat (destruct (String.eqb f _);
          [intros H; apply Some_inj in H; subst v; cbn [validate rule required];
           try (eexists; split; reflexivity) | ]).
  - unfold validateConfirmPassword.
    destruct (getElementById h "password"); [|contradiction].
    eexists; split; reflexivity.
  - unfold validateRadioGroup.
    assert (E : existsb el_checked (querySelectorAll_input_name h "gender") = false).
    { specialize (Hname "gender"%string).
      induction (querySelectorAll_input_name h "gender") as [|el l IH]; [reflexivity|].
      cbn [existsb]. rewrite (Hname el (or_introl eq_refl)). apply IH.
      intros el' H'. apply Hname. right. exact H'. }
    rewrite E. eexists; split; reflexivity.
  - unfold validateCheckboxGroup.
    assert (E : filter el_checked (querySelectorAll_input_name h "interests") = []).
    { specialize (Hname "interests"%string).
      induction (querySelectorAll_input_name h "interests") as [|el l IH]; [reflexivity|].
      cbn [filter]. rewrite (Hname el (or_introl eq_refl)). apply IH.
      intros el' H'. apply Hname. right. exact H'. }
    rewrite E. eexists; split; reflexivity.
  - unfold validateFile.
    destruct (getElementById h "cv") as [el|] eqn:E; [|contradiction].
    destruct (Hid _ _ E) as [_ ->]. eexists; split; reflexivity.
  - unfold validateCheckbox.
    destruct (getElementById h "terms") as [el|] eqn:E; [|contradiction].
    destruct (Hid _ _ E) as [-> _]. eexists; split; reflexivity.
  - discriminate.
Qed.

(** X14.  The [required] flags of the registry of the script agree
    with its validate functions: in a document that has the elements
    the validators read, with nothing ticked and no file chosen, a
    field whose value is empty fails its validation exactly when its
    descriptor is flagged as required. *)
Theorem required_flags_agree (h : Host) (w : World) (f : string) (v : RuleDescriptor) :
  validators (this w) = setupValidators [] ->
  Map_get f (setupValidators []) = Some v ->
  getElementById h "password" <> None ->
  getElementById h "cv" <> None ->
  getElementById h "terms" <> None ->
  nothing_selected h ->
  field_value h f = [] ->
  fst (validateField h f w) = Normal (negb (required v)) /\
  (error_of (snd (validateField h f w)) f <> None <-> required v = true).
Proof.
  intros Hreg Hv Hp Hc Ht Hn Hval.
  destruct (validate_blank h f v Hv Hp Hc Ht Hn) as (r & Hr & Hreq).
  rewrite <- Hreg in Hv. pose proof (validateField_result h f w v Hv) as H.
  rewrite Hval, Hr in H. rewrite <- Hreq.
  destruct r as [m|]; destruct H as [H1 H2]; rewrite H1, H2; cbn [error_truthy].
  - destruct (truthy m); cbn [negb]; split; try reflexivity; split; congruence.
  - split; [reflexivity | split; congruence].
Qed.

Lemma required_flags_agree_witness :
  fst (validateField blank_host "website" init) = Normal (negb false) /\
  (error_of (snd (validateField blank_host "website" init)) "website" <> None
   <-> false = true).
Proof.
  apply (required_flags_agree blank_host init "website"
           (rule false (fun _ value => Normal (validateWebsite value)))).
  - reflexivity.
  - reflexivity.
  - discriminate.
  - discriminate.
  - discriminate.
  - split.
    + intros id el H. injection H as <-. split; reflexivity.
    + intros name el [<- | [<- | []]]; reflexivity.
  - reflexivity.
Defined.

(** On a blank form, the fields reported are the thirteen required
    ones. *)
Example blank_form_errors :
  fst (validateForm blank_host init) = Normal false /\
  Map_keys (errors (this (snd (validateForm blank_host init))))
  = ["fullName"; "email"; "phone"; "birthDate"; "cedula"; "password";
     "confirmPassword"; "salary"; "country"; "gender"; "interests";
     "cv"; "terms"]%string /\
  map fst (filter (fun kv => required (snd kv)) (setupValidators []))
  = Map_keys (errors (this (snd (validateForm blank_host init)))).
Proof. repeat apply conj; vm_compute; reflexivity. Qed.

(** ** The data of the form *)

Lemma getFormData_body_get (k key : string) (value : EntryValue) (data : JSMap DataValue) :
  Map_get key (getFormData_body k value data)
  = if String.eqb k key then body_on_key k (Map_get k data) value
    else Map_get key data.
Proof.
  unfold getFormData_body, body_on_key, data_get.
  destruct (String.eqb_spec k key) as [<- | Hne].
  - destruct (Map_get k data) as [[i | items]|] eqn:E; cbn [data_truthy].
    + destruct (item_truthy i); apply Map_get_set_same.
    + apply Map_get_set_same.
    + destruct (inherited k); cbn [data_truthy item_truthy]; apply Map_get_set_same.
  - destruct (Map_get k data) as [[i | items]|] eqn:E; cbn [data_truthy].
    + destruct (item_truthy i); apply Map_get_set_other; exact Hne.
    + apply Map_get_set_other; exact Hne.
    + destruct (inherited k); cbn [data_truthy item_truthy];
        apply Map_get_set_other; exact Hne.
Qed.

Lemma getFormData_loop_get (key : string) :
  forall entries data data',
    getFormData_loop entries data = Some data' ->
    Map_get key data'
    = fold_left (body_on_key key) (values_of key entries) (Map_get key data).
Proof.
  induction entries as [|[k v] entries IH]; intros data data' H.
  - cbn in H. apply Some_inj in H. subst. reflexivity.
  - cbn [getFormData_loop] in H. destruct (String.eqb k "__proto__"); [discriminate|].
    rewrite (IH _ _ H), getFormData_body_get. unfold values_of. cbn [filter fst].
    rewrite (String.eqb_sym key k).
    destruct (String.eqb_spec k key) as [<- | Hne]; reflexivity.
Qed.

Lemma fold_body_array (key : string) (vs : list EntryValue) :
  forall items,
    fold_left (body_on_key key) vs (Some (Array items))
    = Some (Array (items ++ map ItemEntry vs)).
Proof.
  induction vs as [|v vs IH]; intros items; cbn [fold_left map].
  - rewrite app_nil_r. reflexivity.
  - unfold body_on_key at 2. cbn [data_truthy]. rewrite IH, <- app_assoc. reflexivity.
Qed.

Lemma fold_body_truthy (key : string) (i : Item) (vs : list EntryValue) :
  item_truthy i = true ->
  fold_left (body_on_key key) vs (Some (Single i))
  = match vs with
    | [] => Some (Single i)
    | _ => Some (Array (i :: map ItemEntry vs))
    end.
Proof.
  intros Hi. destruct vs as [|v vs]; [reflexivity|]. cbn [fold_left].
  unfold body_on_key at 2. cbn [data_truthy]. rewrite Hi, fold_body_array. reflexivity.
Qed.

Lemma fold_body_falsy (key : string) (vs : list EntryValue) :
  inherited key = false ->
  forall cur,
    data_truthy cur = false ->
    fold_left (body_on_key key) vs cur
    = match vs with
      | [] => cur
      | _ :: _ =>
          match drop_falsy vs with
          | [] => Some (Single (ItemEntry (last vs (EntryString []))))
          | [v] => Some (Single (ItemEntry v))
          | kept => Some (Array (map ItemEntry kept))
          end
      end.
Proof.
  intros Hk. induction vs as [|v vs IH]; intros cur Hcur; [reflexivity|].
  cbn [fold_left].
  assert (E : body_on_key key cur v = Some (Single (ItemEntry v))).
  { unfold body_on_key. destruct cur as [x|]; [|rewrite Hk]; cbv zeta; rewrite ?Hcur;
      reflexivity. }
  rewrite E. cbn [drop_falsy]. destruct (entry_truthy v) eqn:Ev.
  - rewrite fold_body_truthy by exact Ev. destruct vs; reflexivity.
  - rewrite IH by exact Ev. destruct vs as [|v' vs]; [reflexivity|].
    cbn [last]. reflexivity.
Qed.

Lemma drop_falsy_nil_last (vs : list EntryValue) (v : EntryValue) :
  drop_falsy (v :: vs) = [] -> last (v :: vs) (EntryString []) = EntryString [].
Proof.
  revert v. induction vs as [|v' vs IH]; intros v; cbn [drop_falsy].
  - destruct v as [[|c s] | f]; cbn [entry_truthy truthy]; try discriminate. reflexivity.
  - destruct (entry_truthy v); [discriminate|]. intros H. cbn [last]. apply IH. exact H.
Qed.

(** X21.  [getFormData], on entries none of which is named
    [__proto__]: each key is handled on its own.  A key without entry
    is absent.  A key that is not the name of a member of
    [Object.prototype] holds its values without the empty strings that
    come before the first non-empty value: that value alone when
    nothing follows it, and otherwise an array of it and of all the
    values after it; when all the values are empty strings, the empty
    string.  In particular, when no value is empty, one value is kept
    as it is and several ones become the array of all of them, in
    order.  A key that is the name of a member of [Object.prototype]
    holds an array that starts with that member. *)
Theorem getFormData_per_field (entries : list (string * EntryValue))
        (data : JSMap DataValue) (key : string) :
  getFormData entries = Some data ->
  let vs := values_of key entries in
  (vs = [] -> Map_get key data = None) /\
  (inherited key = false -> vs <> [] ->
   Map_get key data
   = match drop_falsy vs with
     | [] => Some (Single (ItemEntry (EntryString [])))
     | [v] => Some (Single (ItemEntry v))
     | kept => Some (Array (map ItemEntry kept))
     end) /\
  (inherited key = false -> forallb entry_truthy vs = true ->
   Map_get key data
   = match vs with
     | [] => None
     | [v] => Some (Single (ItemEntry v))
     | _ => Some (Array (map ItemEntry vs))
     end) /\
  (inherited key = true -> vs <> [] ->
   Map_get key data = Some (Array (ItemInherited key :: map ItemEntry vs))).
Proof.
  intros H. cbv zeta. unfold getFormData in H.
  pose proof (getFormData_loop_get key entries [] data H) as E. cbn [Map_get] in E.
  split; [|split; [|split]].
  - intros Hvs. rewrite E, Hvs. reflexivity.
  - intros Hk Hvs. rewrite E, (fold_body_falsy key _ Hk None eq_refl).
    destruct (values_of key entries) as [|v vs] eqn:Ev; [contradiction|].
    destruct (drop_falsy (v :: vs)) eqn:Ed; [|reflexivity].
    rewrite (drop_falsy_nil_last _ _ Ed). reflexivity.
  - intros Hk Hall. rewrite E, (fold_body_falsy key _ Hk None eq_refl).
    destruct (values_of key entries) as [|v vs]; [reflexivity|].
    cbn [forallb] in Hall. apply andb_prop in Hall. destruct Hall as [Hv _].
    cbn [drop_falsy]. rewrite Hv. destruct vs; reflexivity.
  - intros Hk Hvs. rewrite E.
    destruct (values_of key entries) as [|v vs]; [contradiction|].
    cbn [fold_left]. unfold body_on_key at 2. rewrite Hk. cbn [data_truthy item_truthy].
    rewrite fold_body_array. reflexivity.
Qed.

Lemma getFormData_per_field_witness :
  let entries := [("interests"%string, EntryString (js "a"));
                  ("fullName"%string, EntryString (js "Juan Pérez"));
                  ("interests"%string, EntryString (js "b"))] in
  let data := [("interests"%string,
                Array [ItemEntry (EntryString (js "a")); ItemEntry (EntryString (js "b"))]);
               ("fullName"%string, Single (ItemEntry (EntryString (js "Juan Pérez"))))] in
  getFormData entries = Some data /\
  Map_get "interests" data
  = Some (Array [ItemEntry (EntryString (js "a")); ItemEntry (EntryString (js "b"))]) /\
  Map_get "email" data = None.
Proof.
  cbv zeta. split; [reflexivity|]. split.
  - refine (proj1 (proj2 (proj2 (getFormData_per_field
             [("interests"%string, EntryString (js "a"));
              ("fullName"%string, EntryString (js "Juan Pérez"));
              ("interests"%string, EntryString (js "b"))]
             [("interests"%string,
               Array [ItemEntry (EntryString (js "a")); ItemEntry (EntryString (js "b"))]);
              ("fullName"%string, Single (ItemEntry (EntryString (js "Juan Pérez"))))]
             "interests" eq_refl))) eq_refl eq_refl).
  - refine (proj1 (getFormData_per_field
             [("interests"%string, EntryString (js "a"));
              ("fullName"%string, EntryString (js "Juan Pérez"));
              ("interests"%string, EntryString (js "b"))]
             [("interests"%string,
               Array [ItemEntry (EntryString (js "a")); ItemEntry (EntryString (js "b"))]);
              ("fullName"%string, Single (ItemEntry (EntryString (js "Juan Pérez"))))]
             "email" eq_refl) eq_refl).
Defined.

(** A first value that is the empty string is overwritten by the next
    one, and a field named like a member of [Object.prototype] gets an
    array that starts with that member. *)
Example getFormData_edge_cases :
  let entries := [("nick"%string, EntryString []);
                  ("nick"%string, EntryString (js "x"));
                  ("toString"%string, EntryString (js "y"))] in
  exists data,
    getFormData entries = Some data /\
    Map_get "nick" data = Some (Single (ItemEntry (EntryString (js "x")))) /\
    Map_get "toString" data
    = Some (Array [ItemInherited "toString"; ItemEntry (EntryString (js "y"))]).
Proof. cbv zeta. eexists. repeat split; reflexivity. Qed.

(** ** The character counter *)

(** Comparison of two integers read as Numbers, the first one having
    at most 53 binary digits. *)
Lemma NumberLit_lt (c : positive) (n : Z) :
  Z.pos (digits2_pos c) <= 53 -> 0 <= n ->
  SFltb (NumberLit (Z.pos c)) (NumberLit n) = (Z.pos c <? n).
Proof.
  intros Hc Hn. unfold NumberLit, binary_normalize.
  destruct (binary_round_small false c Hc) as (mc & -> & Hmc).
  pose proof (digits2_pos_bounds c) as Hbc.
  set (dc := Z.pos (digits2_pos c)) in *.
  destruct n as [|p|p]; [reflexivity | | lia].
  pose proof (digits2_pos_bounds p) as Hb.
  destruct (Z_le_gt_dec (Z.pos (digits2_pos p)) 53) as [Hd | Hd].
  - destruct (binary_round_small false p Hd) as (m & -> & Hm).
    set (d := Z.pos (digits2_pos p)) in *.
    unfold SFltb, SFcompare.
    destruct (Z.compare_spec (dc - 53) (d - 53)) as [He | He | He].
    + replace d with dc in * by lia.
      assert (Hpow : 0 < 2 ^ (53 - dc)) by (apply Z.pow_pos_nonneg; lia).
      change (Pos.compare_cont Eq ?a ?b) with (Pos.compare a b).
      destruct (Pos.compare mc m) eqn:Hcmp; symmetry.
      * apply Pos.compare_eq_iff in Hcmp. apply Z.ltb_ge. subst m. nia.
      * assert (Z.pos mc < Z.pos m) by (apply Pos2Z.pos_lt_pos; exact Hcmp).
        apply Z.ltb_lt. nia.
      * apply Pos.compare_gt_iff in Hcmp.
        assert (Z.pos m < Z.pos mc) by (apply Pos2Z.pos_lt_pos; exact Hcmp).
        apply Z.ltb_ge. nia.
    + symmetry. apply Z.ltb_lt.
      assert (2 ^ dc <= 2 ^ (d - 1)) by (apply Z.pow_le_mono_r; lia). lia.
    + symmetry. apply Z.ltb_ge.
      assert (2 ^ d <= 2 ^ (dc - 1)) by (apply Z.pow_le_mono_r; lia). lia.
  - assert (Hbig : Z.pos c < Z.pos p).
    { assert (2 ^ dc <= 2 ^ (Z.pos (digits2_pos p) - 1))
        by (apply Z.pow_le_mono_r; lia). lia. }
    replace (Z.pos c <? Z.pos p) with true by (symmetry; apply Z.ltb_lt; exact Hbig).
    destruct (binary_round_large false p) as [-> | (m & e & -> & He)]; [lia | reflexivity|].
    unfold SFltb, SFcompare.
    destruct (Z.compare_spec (dc - 53) e); first [reflexivity | lia].
Qed.

(** A negative Number is below every integer that is not negative. *)
Lemma negative_lt_NumberLit (m : positive) (e : Z) (n : Z) :
  0 <= n -> SFltb (S754_finite true m e) (NumberLit n) = true.
Proof.
  intros Hn. unfold NumberLit, binary_normalize.
  destruct n as [|p|p]; [reflexivity | | lia].
  destruct (binary_round_sign false p 0) as [H | [H | (m' & e' & H)]]; rewrite H;
    reflexivity.
Qed.

Lemma negative_times_0_9 (p : positive) :
  SFmul prec emax (NumberLit (Z.neg p)) NumberLit_0_9 = S754_infinity true \/
  exists m e, SFmul prec emax (NumberLit (Z.neg p)) NumberLit_0_9 = S754_finite true m e.
Proof.
  change NumberLit_0_9 with (S754_finite false 8106479329266893 (-53)).
  unfold NumberLit, binary_normalize.
  assert (H : binary_round prec emax true p 0 = S754_infinity true \/
              exists m e, binary_round prec emax true p 0 = S754_finite true m e /\
                          -52 <= e).
  { destruct (Z_le_gt_dec (Z.pos (digits2_pos p)) 53) as [Hd | Hd].
    - destruct (binary_round_small true p Hd) as (m & E & _). right.
      exists m, (Z.pos (digits2_pos p) - 53). split; [exact E | lia].
    - destruct (binary_round_large true p) as [E | (m & e & E & He)]; [lia | left; exact E|].
      right. exists m, e. split; [exact E | lia]. }
  destruct H as [-> | (m & e & -> & He)]; [left; reflexivity|].
  cbn [SFmul xorb].
  destruct (binary_round_aux_pos true (Z.pos (m * 8106479329266893)) (e + -53) loc_Exact)
    as [E | (m' & e' & E & _)]; [lia | lia | left; exact E | right; exists m', e'; exact E].
Qed.

Lemma infinity_lt_NumberLit (n : Z) :
  0 <= n -> SFltb (S754_infinity true) (NumberLit n) = true.
Proof.
  intros Hn. unfold NumberLit, binary_normalize.
  destruct n as [|p|p]; [reflexivity | | lia].
  destruct (binary_round_sign false p 0) as [H | [H | (m' & e' & H)]]; rewrite H;
    reflexivity.
Qed.

(** X22.  The listener of the character counter.  With a [maxLength]
    of 500, or of 0 (which the script replaces by 500), the counter
    reads "n/500 caracteres" and takes the error colour above 450
    characters, the warning colour above 350 and the light colour
    otherwise: the products [500 * 0.9] and [500 * 0.7] are exactly 450
    and 350.  A negative [maxLength] is not replaced: the counter
    shows it, and the colour is the error colour for every length. *)
Theorem characterCounter_thresholds (length : nat) (el_maxLength : Z) :
  (el_maxLength = 0 \/ el_maxLength = 500 ->
   characterCounter_input length el_maxLength
   = {| textContent := nat_to_jsstring length ++ js "/500 caracteres";
        color := if (450 <? length)%nat then ErrorColor
                 else if (350 <? length)%nat then WarningColor
                      else TextLight |}) /\
  (el_maxLength < 0 ->
   characterCounter_input length el_maxLength
   = {| textContent :=
          nat_to_jsstring length ++ js "/-"
                          ++ nat_to_jsstring (Z.to_nat (- el_maxLength))
                          ++ js " caracteres";
        color := ErrorColor |}).
Proof.
  split.
  - intros H. assert (E : (if el_maxLength =? 0 then 500 else el_maxLength) = 500)
      by (destruct H as [-> | ->]; reflexivity).
    unfold characterCounter_input. rewrite E. f_equal.
    change (SFmul prec emax (NumberLit 500) NumberLit_0_9) with (NumberLit 450).
    change (SFmul prec emax (NumberLit 500) NumberLit_0_7) with (NumberLit 350).
    rewrite !NumberLit_lt by (try (cbn; lia); lia).
    destruct (Z.ltb_spec 450 (Z.of_nat length)), (Nat.ltb_spec 450 length); try lia;
      [reflexivity|].
    destruct (Z.ltb_spec 350 (Z.of_nat length)), (Nat.ltb_spec 350 length); try lia;
      reflexivity.
  - intros H. destruct el_maxLength as [|p|p]; try lia.
    unfold characterCounter_input. cbn [Z.eqb int_to_jsstring Z.opp Z.to_nat]. f_equal.
    destruct (negative_times_0_9 p) as [-> | (m & e & ->)].
    + rewrite infinity_lt_NumberLit by lia. reflexivity.
    + rewrite negative_lt_NumberLit by lia. reflexivity.
Qed.

(** At the limits, and without a [maxlength] attribute. *)
Example characterCounter_samples :
  characterCounter_input 450 500
  = {| textContent := js "450/500 caracteres"; color := WarningColor |} /\
  characterCounter_input 451 0
  = {| textContent := js "451/500 caracteres"; color := ErrorColor |} /\
  characterCounter_input 350 500
  = {| textContent := js "350/500 caracteres"; color := TextLight |} /\
  characterCounter_input 0 (-1)
  = {| textContent := js "0/-1 caracteres"; color := ErrorColor |}.
Proof. repeat apply conj; vm_compute; reflexivity. Qed.
